(** * Architect Studio pipeline: orchestrator, scheduler, stage executor,
      quality gates and audit trail.

    A shallow embedding of the TypeScript sources
      - orchestrator/pipeline.ts   (PipelineOrchestrator)
      - orchestrator/audit.ts      (AuditLogger, RunAudit)
      - agents/base.ts             (BaseAgent.run)
      - agents/registry.ts         (PipelineStage, AGENT_PIPELINE)
      - agents/scaffold_builder.ts (ScaffoldBuilderAgent.execute)
      - agents/reviewer_verifier.ts (computeSummary)
      - utils/cross_checks.ts      (the five gate checks)
      - utils/hash.ts              (computeHash)
    followed by the properties of the specification that were checked
    against them, and by further properties of the same sources, among them
      - utils/hash.ts              (verifyHash, extractHashHex)
      - agents/reviewer_verifier.ts (buildStageReports, generateRecommendations)
      - agents/requirements_structurer.ts (extractActors). *)

From stdpp Require Import gmap strings list pretty.
From Stdlib Require Import ZArith Lia Ascii.

Set Warnings "-register-all".

Open Scope string_scope.
Open Scope list_scope.
Open Scope Z_scope.

(* ===================================================================== *)
(** ** Values *)
(* ===================================================================== *)

(** JavaScript values as the pipeline handles them ([unknown] in the
    sources): JSON-shaped trees plus [undefined].  Numbers are the integers
    (stage outputs carry counts and lengths only); objects keep their
    own properties in insertion order. *)
Inductive value : Type :=
| VUndefined
| VNull
| VBool (b : bool)
| VNum (n : Z)
| VStr (s : string)
| VArr (items : list value)
| VObj (fields : list (string * value)).

(** What a [throw] carries: an [Error] with its message, or any other
    value. *)
Inductive thrown : Type :=
| ErrorObj (message : string)
| ThrownValue (v : value).

(** A computation that either returns or throws. *)
Inductive outcome (A : Type) : Type :=
| Returns (a : A)
| Throws (e : thrown).
Arguments Returns {A} a.
Arguments Throws {A} e.

Definition obind {A B} (o : outcome A) (k : A -> outcome B) : outcome B :=
  match o with
  | Returns a => k a
  | Throws e => Throws e
  end.

(** [arr.map(f)] when [f] may throw: stops at the first throw. *)
Fixpoint omapM {A B} (f : A -> outcome B) (l : list A) : outcome (list B) :=
  match l with
  | [] => Returns []
  | a :: l' => obind (f a) (fun b => obind (omapM f l') (fun bs => Returns (b :: bs)))
  end.

(** [arr.filter(p)] when [p] may throw. *)
Fixpoint ofilterM {A} (p : A -> outcome bool) (l : list A) : outcome (list A) :=
  match l with
  | [] => Returns []
  | a :: l' =>
      obind (p a) (fun keep =>
      obind (ofilterM p l') (fun rest => Returns (if keep : bool then a :: rest else rest)))
  end.

Declare Scope outcome_scope.
Delimit Scope outcome_scope with outcome.
Notation "x <~ o ;; k" := (obind o (fun x => k))
  (at level 100, o at next level, right associativity) : outcome_scope.

(* ===================================================================== *)
(** ** JavaScript primitives used by the sources *)
(* ===================================================================== *)

Module JS.

(** The double-quote character, and ASCII classification of characters.
    Strings are byte strings: case mapping and whitespace are the ASCII
    ones, and bytes above 127 are left as they are. *)
Definition dquote : ascii := ascii_of_nat 34.
Definition backslash : ascii := ascii_of_nat 92.

Definition is_lower (c : ascii) : bool :=
  let n := nat_of_ascii c in (Nat.leb 97 n && Nat.leb n 122)%bool.
Definition is_upper (c : ascii) : bool :=
  let n := nat_of_ascii c in (Nat.leb 65 n && Nat.leb n 90)%bool.
(** [\s] restricted to ASCII: tab, LF, VT, FF, CR and space. *)
Definition is_space (c : ascii) : bool :=
  let n := nat_of_ascii c in ((Nat.leb 9 n && Nat.leb n 13) || Nat.eqb n 32)%bool.
Definition lower_char (c : ascii) : ascii :=
  if is_upper c then ascii_of_nat (nat_of_ascii c + 32) else c.

Fixpoint toLowerCase (s : string) : string :=
  match s with
  | EmptyString => EmptyString
  | String c s' => String (lower_char c) (toLowerCase s')
  end.

(** [s.trim() !== ''] *)
Fixpoint all_space (s : string) : bool :=
  match s with
  | EmptyString => true
  | String c s' => (is_space c && all_space s')%bool
  end.

(** [a.includes(b)] on strings. *)
Fixpoint includes (a b : string) : bool :=
  (String.prefix b a ||
   match a with
   | EmptyString => false
   | String _ a' => includes a' b
   end)%bool.

(** [s.split(' ')[0]]: the part of [s] before its first space. *)
Fixpoint first_word (s : string) : string :=
  match s with
  | EmptyString => EmptyString
  | String c s' => if Ascii.eqb c " "%char then EmptyString
                   else String c (first_word s')
  end.

(** [arr.join(sep)] on an array of strings. *)
Definition join (sep : string) (l : list string) : string := String.concat sep l.

(** Truthiness ([if (v)], [!v], [a || b]). *)
Definition truthy (v : value) : bool :=
  match v with
  | VUndefined | VNull => false
  | VBool b => b
  | VNum n => negb (n =? 0)
  | VStr s => negb (String.eqb s "")
  | VArr _ | VObj _ => true
  end.

Definition is_nullish (v : value) : bool :=
  match v with
  | VUndefined | VNull => true
  | _ => false
  end.

Fixpoint assoc (k : string) (fields : list (string * value)) : option value :=
  match fields with
  | [] => None
  | (k', v) :: rest => if String.eqb k' k then Some v else assoc k rest
  end.

(** [obj[k] = v] on a plain object: replace the property where it is, or
    add it after the existing ones. *)
Fixpoint obj_set (fields : list (string * value)) (k : string) (v : value)
  : list (string * value) :=
  match fields with
  | [] => [(k, v)]
  | (k', v') :: rest =>
      if String.eqb k' k then (k', v) :: rest else (k', v') :: obj_set rest k v
  end.

(** [v.k] for a [v] that is neither [null] nor [undefined]: own
    properties of objects, [length] of arrays and strings; every other
    data property read by the sources is [undefined] there. *)
Definition prop (v : value) (k : string) : value :=
  match v with
  | VObj fields => default VUndefined (assoc k fields)
  | VArr items => if String.eqb k "length" then VNum (Z.of_nat (length items))
                  else VUndefined
  | VStr s => if String.eqb k "length" then VNum (Z.of_nat (String.length s))
              else VUndefined
  | _ => VUndefined
  end.

(** [v?.k] *)
Definition opt_prop (v : value) (k : string) : value :=
  if is_nullish v then VUndefined else prop v k.

Definition TypeError (msg : string) : thrown := ErrorObj msg.

(** [v.k]: reading a property of [null] or [undefined] throws. *)
Definition member (v : value) (k : string) : outcome value :=
  if is_nullish v
  then Throws (TypeError ("Cannot read properties of " +:+
                          (match v with VNull => "null" | _ => "undefined" end)
                          +:+ " (reading '" +:+ k +:+ "')"))
  else Returns (prop v k).

(** [String(v)] and template-literal interpolation. *)
Fixpoint to_String (v : value) : string :=
  match v with
  | VUndefined => "undefined"
  | VNull => "null"
  | VBool true => "true"
  | VBool false => "false"
  | VNum n => pretty n
  | VStr s => s
  | VArr items =>
      String.concat ","
        (map (fun x => if is_nullish x then "" else to_String x) items)
  | VObj _ => "[object Object]"
  end.

(** [arr.join(sep)] on an array of arbitrary values. *)
Definition join_values (sep : string) (items : list value) : string :=
  String.concat sep
    (map (fun x => if is_nullish x then "" else to_String x) items).

(** [a === b] on primitives.  Two objects or arrays held by different
    artifacts are different references and never identical. *)
Definition strict_eq (a b : value) : bool :=
  match a, b with
  | VUndefined, VUndefined | VNull, VNull => true
  | VBool x, VBool y => Bool.eqb x y
  | VNum x, VNum y => x =? y
  | VStr x, VStr y => String.eqb x y
  | _, _ => false
  end.

(** Numeric reading of a value in a comparison; [None] is [NaN].  Only
    numbers, booleans, [null] and [undefined] are converted, which covers
    the [length] of arrays and strings. *)
Definition to_number (v : value) : option Z :=
  match v with
  | VNum n => Some n
  | VBool true => Some 1
  | VBool false | VNull => Some 0
  | _ => None
  end.

(** [a < n] and [a > n] against a number literal. *)
Definition lt_num (a : value) (n : Z) : bool :=
  match to_number a with Some x => x <? n | None => false end.
Definition gt_num (a : value) (n : Z) : bool :=
  match to_number a with Some x => n <? x | None => false end.

(** The receiver of [.map(...)] / [.filter(...)]: only arrays have the
    method. *)
Definition array_method (what method : string) (v : value) : outcome (list value) :=
  match v with
  | VArr items => Returns items
  | _ => Throws (TypeError (what +:+ "." +:+ method +:+ " is not a function"))
  end.

(** The characters of a string, one string each. *)
Fixpoint chars (s : string) : list value :=
  match s with
  | EmptyString => []
  | String c s' => VStr (String c EmptyString) :: chars s'
  end.

(** [for (const x of v)] *)
Definition iterate (what : string) (v : value) : outcome (list value) :=
  match v with
  | VArr items => Returns items
  | VStr s => Returns (chars s)
  | _ => Throws (TypeError (what +:+ " is not iterable"))
  end.

(** [v.toLowerCase()] *)
Definition call_toLowerCase (what : string) (v : value) : outcome string :=
  match v with
  | VStr s => Returns (toLowerCase s)
  | VUndefined =>
      Throws (TypeError "Cannot read properties of undefined (reading 'toLowerCase')")
  | VNull =>
      Throws (TypeError "Cannot read properties of null (reading 'toLowerCase')")
  | _ => Throws (TypeError (what +:+ ".toLowerCase is not a function"))
  end.

(** [Object.keys(v)] for a [v] that is neither [null] nor [undefined]. *)
Definition keys (v : value) : list string :=
  match v with
  | VObj fields => map fst fields
  | VArr items => map (fun i => pretty (Z.of_nat i)) (seq 0 (length items))
  | VStr s => map (fun i => pretty (Z.of_nat i)) (seq 0 (String.length s))
  | _ => []
  end.

(** *** JSON.stringify *)

Definition hex_digit (n : nat) : ascii :=
  ascii_of_nat (if Nat.ltb n 10 then 48 + n else 87 + n).

(** QuoteJSONString on one character. *)
Definition json_escape_char (c : ascii) : string :=
  let n := nat_of_ascii c in
  if Nat.eqb n 34 then String backslash (String dquote "")
  else if Nat.eqb n 92 then String backslash (String backslash "")
  else if Nat.eqb n 8 then String backslash "b"
  else if Nat.eqb n 12 then String backslash "f"
  else if Nat.eqb n 10 then String backslash "n"
  else if Nat.eqb n 13 then String backslash "r"
  else if Nat.eqb n 9 then String backslash "t"
  else if Nat.ltb n 32
       then String backslash
              ("u00" +:+ String (hex_digit (n / 16)) (String (hex_digit (n mod 16)) ""))
  else String c "".

Fixpoint json_escape (s : string) : string :=
  match s with
  | EmptyString => EmptyString
  | String c s' => json_escape_char c +:+ json_escape s'
  end.

Definition json_quote (s : string) : string :=
  String dquote (json_escape s) +:+ String dquote "".

(** [JSON.stringify(v, null, 0)]: [None] stands for the result
    [undefined].  Inside an array [undefined] is written [null]; a
    property whose value is [undefined] is left out. *)
Fixpoint stringify (v : value) : option string :=
  match v with
  | VUndefined => None
  | VNull => Some "null"
  | VBool true => Some "true"
  | VBool false => Some "false"
  | VNum n => Some (pretty n)
  | VStr s => Some (json_quote s)
  | VArr items =>
      Some ("[" +:+ String.concat ","
                      (map (fun x => default "null" (stringify x)) items) +:+ "]")
  | VObj fields =>
      Some ("{" +:+ String.concat ","
                      (omap (fun kv =>
                               match stringify (snd kv) with
                               | Some j => Some (json_quote (fst kv) +:+ ":" +:+ j)
                               | None => None
                               end) fields) +:+ "}")
  end.

End JS.

(* ===================================================================== *)
(** ** Content fingerprint (utils/hash.ts) *)
(* ===================================================================== *)

(** [createHash('sha256').update(s).digest('hex')] of node:crypto. *)
Class Crypto : Type := { sha256_hex : string -> string }.

(** [computeHash]: [hash.update] throws a [TypeError] when
    [JSON.stringify] returned [undefined]. *)
Definition computeHash `{Crypto} (data : value) : outcome string :=
  match JS.stringify data with
  | Some json => Returns ("sha256:" +:+ sha256_hex json)
  | None =>
      Throws (JS.TypeError
        ("The " +:+ String JS.dquote "data" +:+ String JS.dquote
         " argument must be of type string or an instance of Buffer, TypedArray, or DataView. Received undefined"))
  end.

(** [computeStringHash] *)
Definition computeStringHash `{Crypto} (str : string) : string :=
  "sha256:" +:+ sha256_hex str.

(** [verifyHash]: [computeHash(data) === expectedHash] *)
Definition verifyHash `{Crypto} (data : value) (expectedHash : string) : outcome bool :=
  obind (computeHash data) (fun actualHash =>
  Returns (String.eqb actualHash expectedHash)).

(** [s.substring(n)] *)
Definition substring_from (n : nat) (s : string) : string :=
  String.substring n (String.length s - n) s.

(** [extractHashHex] *)
Definition extractHashHex (hash : string) : string :=
  if String.prefix "sha256:" hash then substring_from 7 hash else hash.

(* ===================================================================== *)
(** ** Gate checks and pipeline stages (cross_checks.ts, registry.ts) *)
(* ===================================================================== *)

Inductive Severity : Type := SevError | SevWarning | SevInfo.

Definition Severity_eqb (a b : Severity) : bool :=
  match a, b with
  | SevError, SevError | SevWarning, SevWarning | SevInfo, SevInfo => true
  | _, _ => false
  end.

Record GateCheckResult : Type := mkGateCheckResult {
  name : string;
  passed : bool;
  severity : Severity;
  message : string;
  details : option value
}.

(** [GateContext]: the [outputs] map of the run, keyed by agent id. *)
Record GateContext : Type := mkGateContext {
  outputs : gmap string value
}.

(** [GateCheckFn = (ctx: GateContext) => GateCheckResult[]]; a call may
    throw. *)
Definition GateCheckFn : Type := GateContext -> outcome (list GateCheckResult).

Record PipelineStage : Type := mkStage {
  agentId : string;
  dependsOn : list string;
  gateChecks : option (list GateCheckFn)
}.

(* ===================================================================== *)
(** ** The scheduler: PipelineOrchestrator.topologicalSort *)
(* ===================================================================== *)

Module Scheduler.

(** [if (!graph.has(dep)) graph.set(dep, []); graph.get(dep)!.push(id)] *)
Definition graph_push (graph : gmap string (list string)) (dep id : string)
  : gmap string (list string) :=
  <[dep := default [] (graph !! dep) ++ [id]]> graph.

(** Body of the first [for (const stage of this.stages)] loop. *)
Definition build_step (acc : gmap string Z * gmap string (list string))
    (stage : PipelineStage) : gmap string Z * gmap string (list string) :=
  (<[agentId stage := Z.of_nat (length (dependsOn stage))]> (fst acc),
   foldl (fun g dep => graph_push g dep (agentId stage)) (snd acc)
         (dependsOn stage)).

Definition build_graph (stages : list PipelineStage)
  : gmap string Z * gmap string (list string) :=
  foldl build_step (∅, ∅) stages.

(** Second loop: the stages with [dependsOn.length === 0], in declaration
    order. *)
Definition initial_queue (stages : list PipelineStage) : list PipelineStage :=
  List.filter (fun s => Nat.eqb (length (dependsOn s)) 0) stages.

(** [this.stages.find(s => s.agentId === depId)] *)
Definition find_stage (stages : list PipelineStage) (depId : string)
  : option PipelineStage :=
  List.find (fun s => String.eqb (agentId s) depId) stages.

(** Body of [for (const depId of dependents)]: decrement the in-degree
    and enqueue the stage when it reaches zero.  A dependent is always the
    id of a declared stage, so [inDegree.get(depId)] is defined; were it
    not, [undefined - 1] is [NaN], which never equals 0 and stays [NaN]:
    the missing key is left missing. *)
Definition relax (stages : list PipelineStage)
    (acc : gmap string Z * list PipelineStage) (depId : string)
  : gmap string Z * list PipelineStage :=
  match fst acc !! depId with
  | None => acc
  | Some d =>
      let deg := d - 1 in
      let inDegree' := <[depId := deg]> (fst acc) in
      if deg =? 0 then
        match find_stage stages depId with
        | Some depStage => (inDegree', snd acc ++ [depStage])
        | None => (inDegree', snd acc)
        end
      else (inDegree', snd acc)
  end.

(** The [while (queue.length > 0)] loop.  [fuel] bounds the number of
    iterations; [None] means the bound was reached with a non-empty
    queue ([kahn_total] shows it never is for the fuel used by
    [topologicalSort]). *)
Fixpoint kahn_loop (fuel : nat) (stages : list PipelineStage)
    (graph : gmap string (list string)) (inDegree : gmap string Z)
    (queue sorted : list PipelineStage) : option (list PipelineStage) :=
  match queue with
  | [] => Some sorted
  | stage :: queue' =>
      match fuel with
      | O => None
      | S fuel' =>
          let dependents := default [] (graph !! agentId stage) in
          let st := foldl (relax stages) (inDegree, queue') dependents in
          kahn_loop fuel' stages graph (fst st) (snd st) (sorted ++ [stage])
      end
  end.

Definition kahn (stages : list PipelineStage) : option (list PipelineStage) :=
  let g := build_graph stages in
  kahn_loop (2 * length stages) stages (snd g) (fst g) (initial_queue stages) [].

Definition topologicalSort (stages : list PipelineStage) : list PipelineStage :=
  default [] (kahn stages).

End Scheduler.


(* ===================================================================== *)
(** ** Effects: clock, run ids, audit files, console *)
(* ===================================================================== *)

Inductive Level : Type := LevelInfo | LevelWarn | LevelError.

(** One line of audit/log.jsonl ([AuditLogEntry]).  Instants are kept as
    milliseconds since the epoch; the files hold their ISO rendering. *)
Module AuditLogEntry.
Record t : Type := mk {
  timestamp : Z;
  runId : string;
  level : Level;
  agentId : option string;
  message : string;
  data : option value
}.
End AuditLogEntry.

Inductive RunStatus : Type := StatusSuccess | StatusFailed.

(** An element of [RunAudit.stages]. *)
Module StageAudit.
Record t : Type := mk {
  agentId : string;
  startTime : string;
  endTime : string;
  durationMs : Z;
  inputHash : string;
  outputHash : option string;
  success : bool;
  errors : option (list string)
}.
End StageAudit.

(** [RunAudit]; [spec] and [outputs] are the constants [buildAudit]
    writes: [{path: '', projectName: ''}] and [{}]. *)
Module RunAudit.
Record t : Type := mk {
  runId : string;
  startTime : Z;
  endTime : option Z;
  inputHash : string;
  spec : string * string;
  stages : list StageAudit.t;
  outputs : list (string * string);
  overallStatus : RunStatus;
  totalDurationMs : option Z
}.
End RunAudit.

(** The environment a run acts on.  [now] and [uuid] are what the system
    clock and [randomUUID()] answer to the successive requests; [log] is
    audit/log.jsonl, [runJson] the successive contents written to
    audit/run.json, [console] the lines printed. *)
Record World : Type := mkWorld {
  now : nat -> Z;
  clockReads : nat;
  uuid : nat -> string;
  uuidReads : nat;
  log : list AuditLogEntry.t;
  runJson : list RunAudit.t;
  console : list string
}.

(** Computations over the world that return or throw (the sources'
    [async] functions: every [await] is sequential). *)
Definition M (A : Type) : Type := World -> outcome A * World.

Definition ret {A} (a : A) : M A := fun w => (Returns a, w).

Definition bind {A B} (m : M A) (k : A -> M B) : M B :=
  fun w => match m w with
           | (Returns a, w') => k a w'
           | (Throws e, w') => (Throws e, w')
           end.

Definition lift {A} (o : outcome A) : M A := fun w => (o, w).

(** [try { m } catch (error) { handler error }] *)
Definition try_catch {A} (m : M A) (handler : thrown -> M A) : M A :=
  fun w => match m w with
           | (Returns a, w') => (Returns a, w')
           | (Throws e, w') => handler e w'
           end.

Declare Scope effect_scope.
Delimit Scope effect_scope with effect.
Notation "x <- m ;; k" := (bind m (fun x => k))
  (at level 100, m at next level, right associativity) : effect_scope.
Open Scope effect_scope.

(** [Date.now()] / [new Date()] *)
Definition Date_now : M Z :=
  fun w => (Returns (now w (clockReads w)),
            mkWorld (now w) (S (clockReads w)) (uuid w) (uuidReads w)
                    (log w) (runJson w) (console w)).

(** [randomUUID()] *)
Definition randomUUID : M string :=
  fun w => (Returns (uuid w (uuidReads w)),
            mkWorld (now w) (clockReads w) (uuid w) (S (uuidReads w))
                    (log w) (runJson w) (console w)).

Definition console_log (line : string) : M unit :=
  fun w => (Returns tt,
            mkWorld (now w) (clockReads w) (uuid w) (uuidReads w)
                    (log w) (runJson w) (console w ++ [line])).

(* ===================================================================== *)
(** ** Audit trail (orchestrator/audit.ts) *)
(* ===================================================================== *)

Module AuditLogger.

(** [appendJsonLine(this.logPath, fullEntry)] *)
Definition appendJsonLine (entry : AuditLogEntry.t) : M unit :=
  fun w => (Returns tt,
            mkWorld (now w) (clockReads w) (uuid w) (uuidReads w)
                    (log w ++ [entry]) (runJson w) (console w)).

(** [log(entry)]: stamp the entry with [new Date()] and append it. *)
Definition log_entry (runId : string) (level : Level) (agentId : option string)
    (message : string) (data : option value) : M unit :=
  t <- Date_now ;;
  appendJsonLine (AuditLogEntry.mk t runId level agentId message data).

Definition info (runId message : string) (data : option value) : M unit :=
  log_entry runId LevelInfo None message data.

Definition warn (runId message : string) (data : option value) : M unit :=
  log_entry runId LevelWarn None message data.

Definition error (runId message : string) (data : option value) : M unit :=
  log_entry runId LevelError None message data.

Definition stage (runId agentId message : string) : M unit :=
  log_entry runId LevelInfo (Some agentId) message None.

(** [saveRunAudit]: [writeJsonFile(this.auditPath, audit)] *)
Definition saveRunAudit (audit : RunAudit.t) : M unit :=
  fun w => (Returns tt,
            mkWorld (now w) (clockReads w) (uuid w) (uuidReads w)
                    (log w) (runJson w ++ [audit]) (console w)).

End AuditLogger.

(* ===================================================================== *)
(** ** Agents (agents/types.ts, agents/base.ts) *)
(* ===================================================================== *)

Module AgentConfig.
Record t : Type := mk {
  id : string;
  name : string;
  description : string;
  version : string;
  inputSchema : string;
  outputSchema : string
}.
End AgentConfig.

Module AgentContext.
Record t : Type := mk {
  runId : string;
  timestamp : Z;
  previousOutputs : gmap string value;
  verbose : option bool
}.
End AgentContext.

Module AgentMetadata.
Record t : Type := mk {
  durationMs : Z;
  inputHash : string;
  outputHash : option string
}.
End AgentMetadata.

Module AgentResult.
Record t : Type := mk {
  success : bool;
  output : option value;
  errors : option (list string);
  metadata : AgentMetadata.t
}.
End AgentResult.

(** The [Agent] interface. *)
Module Agent.
Record t : Type := mk {
  config : AgentConfig.t;
  run : value -> AgentContext.t -> M AgentResult.t
}.
End Agent.

(** [ValidationResult] of utils/validate.ts. *)
Module ValidationResult.
Record t : Type := mk {
  success : bool;
  errors : option (list string)
}.
End ValidationResult.

(** [SchemaValidator.validate(schemaId, data)], consumed as an interface. *)
Definition SchemaValidator : Type := string -> value -> M ValidationResult.t.

Module BaseAgent.

(** [context.verbose] used as a condition. *)
Definition is_verbose (context : AgentContext.t) : bool :=
  default false (AgentContext.verbose context).

(** [schema && schema.trim() !== ''] *)
Definition has_schema (schema : string) : bool :=
  (negb (String.eqb schema "") && negb (JS.all_space schema))%bool.

(** [errors?.join(', ')] inside a template literal. *)
Definition joined_errors (errors : option (list string)) : string :=
  match errors with
  | Some l => JS.join ", " l
  | None => "undefined"
  end.

(** [error instanceof Error ? error.message : String(error)] *)
Definition fault_message (e : thrown) : string :=
  match e with
  | ErrorObj message => message
  | ThrownValue v => JS.to_String v
  end.

Definition failure (startTime : Z) (inputHash : string) (msg : string)
  : M AgentResult.t :=
  t <- Date_now ;;
  ret (AgentResult.mk false None (Some [msg])
         (AgentMetadata.mk (t - startTime) inputHash None)).

(** [run] up to its [try]: the start time and the input hash, or the
    result returned early when the input fails its contract. *)
Definition before_try `{Crypto} (config : AgentConfig.t) (validator : SchemaValidator)
    (input : value) (context : AgentContext.t)
  : M (AgentResult.t + Z * string) :=
  startTime <- Date_now ;;
  inputHash <- lift (computeHash input) ;;
  _ <- (if is_verbose context
        then console_log ("[" +:+ AgentConfig.id config +:+ "] Starting execution...")
        else ret tt) ;;
  valid <- (if has_schema (AgentConfig.inputSchema config)
            then validator (AgentConfig.inputSchema config) input
            else ret (ValidationResult.mk true None)) ;;
  if negb (ValidationResult.success valid)
  then r <- failure startTime inputHash
              ("Input validation failed: "
               +:+ joined_errors (ValidationResult.errors valid)) ;;
       ret (inl r)
  else ret (inr (startTime, inputHash)).

(** The [try] block of [run]. *)
Definition try_block `{Crypto} (config : AgentConfig.t) (validator : SchemaValidator)
    (execute : value -> AgentContext.t -> M value)
    (startTime : Z) (inputHash : string)
    (input : value) (context : AgentContext.t) : M AgentResult.t :=
  output <- execute input context ;;
  valid <- (if has_schema (AgentConfig.outputSchema config)
            then validator (AgentConfig.outputSchema config) output
            else ret (ValidationResult.mk true None)) ;;
  if negb (ValidationResult.success valid)
  then failure startTime inputHash
         ("Output validation failed: " +:+ joined_errors (ValidationResult.errors valid))
  else
    outputHash <- lift (computeHash output) ;;
    _ <- (if is_verbose context
          then t <- Date_now ;;
               console_log ("[" +:+ AgentConfig.id config +:+ "] Completed in "
                            +:+ pretty (t - startTime) +:+ "ms")
          else ret tt) ;;
    t <- Date_now ;;
    ret (AgentResult.mk true (Some output) None
           (AgentMetadata.mk (t - startTime) inputHash (Some outputHash))).

(** [BaseAgent.run] for a subclass with the given [config] and
    [execute]. *)
Definition run `{Crypto} (config : AgentConfig.t) (validator : SchemaValidator)
    (execute : value -> AgentContext.t -> M value)
    (input : value) (context : AgentContext.t) : M AgentResult.t :=
  early <- before_try config validator input context ;;
  match early with
  | inl r => ret r
  | inr (startTime, inputHash) =>
      try_catch (try_block config validator execute startTime inputHash input context)
                (fun e => failure startTime inputHash (fault_message e))
  end.

(** A concrete agent: a subclass of [BaseAgent]. *)
Definition make `{Crypto} (config : AgentConfig.t) (validator : SchemaValidator)
    (execute : value -> AgentContext.t -> M value) : Agent.t :=
  Agent.mk config (run config validator execute).

End BaseAgent.

(* ===================================================================== *)
(** ** The orchestrator (orchestrator/pipeline.ts) *)
(* ===================================================================== *)

Module PipelineConfig.
Record t : Type := mk { verbose : option bool }.
End PipelineConfig.

Module PipelineResult.
Record t : Type := mk {
  success : bool;
  runId : string;
  outputs : gmap string value;
  failedAt : option string;
  errors : option (list string);
  audit : RunAudit.t
}.
End PipelineResult.

Module StageResult.
Record t : Type := mk {
  agentId : string;
  success : bool;
  output : option value;
  durationMs : Z;
  inputHash : string;
  outputHash : option string;
  errors : option (list string);
  gateResults : option (list GateCheckResult)
}.
End StageResult.

Module PipelineOrchestrator.

(** The object: its [agents] map and its [stages]; the audit logger
    writes to the two audit files of the world. *)
Record t : Type := mk {
  agents : gmap string Agent.t;
  stages : list PipelineStage
}.

(** [outputs.get(k)] *)
Definition outputs_get (outputs : gmap string value) (k : string) : value :=
  default VUndefined (outputs !! k).

(** [keyMap]: the own properties of the table.  ([keyMap[agentId]] also
    finds what every object inherits, [constructor], [toString] and the
    like; such names are excluded where it matters, see
    [inherited_names].) *)
Definition keyMap : list (string * string) :=
  [ ("requirements-structurer", "designBrief");
    ("domain-model", "domainModel");
    ("system-architect", "componentMap");
    ("api-contract", "apiContract");
    ("prompt-pack-designer", "promptPacks");
    ("scaffold-builder", "buildPlan") ].

Fixpoint keyMap_get (table : list (string * string)) (k : string) : option string :=
  match table with
  | [] => None
  | (k', v) :: rest => if String.eqb k' k then Some v else keyMap_get rest k
  end.

(** [keyMap[agentId] || agentId]; every value of the table is a
    non-empty string. *)
Definition dependencyToKey (agentId : string) : string :=
  default agentId (keyMap_get keyMap agentId).

(** Property names every plain object inherits from [Object.prototype]. *)
Definition inherited_names : list string :=
  [ "constructor"; "__proto__"; "hasOwnProperty"; "isPrototypeOf";
    "propertyIsEnumerable"; "toLocaleString"; "toString"; "valueOf";
    "__defineGetter__"; "__defineSetter__"; "__lookupGetter__";
    "__lookupSetter__" ].

Definition resolveInputs (stage : PipelineStage) (outputs : gmap string value)
  : value :=
  match dependsOn stage with
  | [] => outputs_get outputs "input"
  | [dep] => outputs_get outputs dep
  | deps =>
      VObj (foldl (fun input depId =>
                     JS.obj_set input (dependencyToKey depId)
                                (outputs_get outputs depId))
                  [] deps)
  end.

(** [for (const check of checks) results.push(...check(ctx))]: a check
    that throws ends the loop, nothing catches it here. *)
Fixpoint runGateChecks_from (results : list GateCheckResult)
    (checks : list GateCheckFn) (ctx : GateContext)
  : outcome (list GateCheckResult) :=
  match checks with
  | [] => Returns results
  | check :: rest =>
      match check ctx with
      | Returns rs => runGateChecks_from (results ++ rs) rest ctx
      | Throws e => Throws e
      end
  end.

Definition runGateChecks (checks : list GateCheckFn) (outputs : gmap string value)
  : outcome (list GateCheckResult) :=
  runGateChecks_from [] checks (mkGateContext outputs).

Definition buildAudit (runId : string) (startTime endTime : Z) (inputHash : string)
    (stageResults : list StageResult.t) (status : RunStatus) : RunAudit.t :=
  RunAudit.mk runId startTime (Some endTime) inputHash ("", "")
    (map (fun sr =>
            StageAudit.mk (StageResult.agentId sr) "" ""
              (StageResult.durationMs sr) (StageResult.inputHash sr)
              (StageResult.outputHash sr) (StageResult.success sr)
              (StageResult.errors sr))
         stageResults)
    [] status (Some (endTime - startTime)).

Definition buildFailureResult (runId : string) (startTime : Z) (inputHash : string)
    (failedAt : string) (errors : option (list string))
    (stageResults : list StageResult.t) : M PipelineResult.t :=
  endTime <- Date_now ;;
  let audit := buildAudit runId startTime endTime inputHash stageResults StatusFailed in
  ret (PipelineResult.mk false runId ∅ (Some failedAt) errors audit).

(** [r => !r.passed && r.severity === 'error'] *)
Definition is_gate_failure (r : GateCheckResult) : bool :=
  (negb (passed r) && Severity_eqb (severity r) SevError)%bool.

(** [{ errors: result.errors }] as log data. *)
Definition errors_value (errors : option (list string)) : value :=
  match errors with
  | Some l => VArr (map VStr l)
  | None => VUndefined
  end.

(** How one turn of the [for (const stage of sortedStages)] loop ends:
    it goes on to the next stage with the updated
    [context.previousOutputs] and [stageResults], or [run] returns. *)
Inductive LoopStep : Type :=
| Continue (outputs : gmap string value) (stageResults : list StageResult.t)
| Return (result : PipelineResult.t).

(** The loop body up to the agent call: the 'Starting' record and
    [stageStartTime]. *)
Definition before_agent (runId : string) (stage : PipelineStage) : M Z :=
  _ <- AuditLogger.stage runId (agentId stage) "Starting" ;;
  Date_now.

(** The body of the loop. *)
Definition run_stage (this : t) (runId : string) (startTime : Z) (inputHash : string)
    (config : PipelineConfig.t) (stage : PipelineStage)
    (outputs : gmap string value) (stageResults : list StageResult.t)
  : M LoopStep :=
  match agents this !! agentId stage with
  | None =>
      let error := "Agent not found: " +:+ agentId stage in
      _ <- AuditLogger.error runId error None ;;
      r <- buildFailureResult runId startTime inputHash (agentId stage)
             (Some [error]) stageResults ;;
      ret (Return r)
  | Some agent =>
      stageStartTime <- before_agent runId stage ;;
      let input := resolveInputs stage outputs in
      let context := AgentContext.mk runId startTime outputs
                       (PipelineConfig.verbose config) in
      result <- Agent.run agent input context ;;
      stageEndTime <- Date_now ;;
      let durationMs := stageEndTime - stageStartTime in
      let stageResult (gateResults : option (list GateCheckResult)) :=
        StageResult.mk (agentId stage) (AgentResult.success result)
          (AgentResult.output result) durationMs
          (AgentMetadata.inputHash (AgentResult.metadata result))
          (AgentMetadata.outputHash (AgentResult.metadata result))
          (AgentResult.errors result) gateResults in
      if negb (AgentResult.success result) then
        _ <- AuditLogger.error runId ("Agent " +:+ agentId stage +:+ " failed")
               (Some (VObj [("errors", errors_value (AgentResult.errors result))])) ;;
        r <- buildFailureResult runId startTime inputHash (agentId stage)
               (AgentResult.errors result) (stageResults ++ [stageResult None]) ;;
        ret (Return r)
      else
        let outputs' :=
          <[agentId stage := default VUndefined (AgentResult.output result)]>
            outputs in
        let completed (sr : StageResult.t) : M LoopStep :=
          _ <- AuditLogger.stage runId (agentId stage)
                 ("Completed in " +:+ pretty durationMs +:+ "ms") ;;
          ret (Continue outputs' (stageResults ++ [sr])) in
        match gateChecks stage with
        | None => completed (stageResult None)
        | Some checks =>
            gateResults <- lift (runGateChecks checks outputs') ;;
            let failures := List.filter is_gate_failure gateResults in
            if Nat.ltb 0 (length failures) then
              _ <- AuditLogger.error runId
                     ("Gate checks failed for " +:+ agentId stage)
                     (Some (VObj [("failures",
                                   VArr (map (fun f => VStr (message f)) failures))])) ;;
              r <- buildFailureResult runId startTime inputHash
                     (agentId stage +:+ ":gate") (Some (map message failures))
                     (stageResults ++ [stageResult (Some gateResults)]) ;;
              ret (Return r)
            else completed (stageResult (Some gateResults))
        end
  end.

(** The loop over the scheduled stages. *)
Fixpoint run_loop (this : t) (runId : string) (startTime : Z) (inputHash : string)
    (config : PipelineConfig.t) (sortedStages : list PipelineStage)
    (outputs : gmap string value) (stageResults : list StageResult.t)
  : M LoopStep :=
  match sortedStages with
  | [] => ret (Continue outputs stageResults)
  | stage :: rest =>
      step <- run_stage this runId startTime inputHash config stage
                        outputs stageResults ;;
      match step with
      | Continue outputs' stageResults' =>
          run_loop this runId startTime inputHash config rest outputs' stageResults'
      | Return r => ret (Return r)
      end
  end.

(** What [run] does once every stage has completed. *)
Definition run_success (runId : string) (startTime : Z) (inputHash : string)
    (outputs : gmap string value) (stageResults : list StageResult.t)
  : M PipelineResult.t :=
  endTime <- Date_now ;;
  let totalDurationMs := endTime - startTime in
  _ <- AuditLogger.info runId "Pipeline completed successfully"
         (Some (VObj [("totalDurationMs", VNum totalDurationMs);
                      ("stagesCompleted", VNum (Z.of_nat (length stageResults)))])) ;;
  let audit := buildAudit runId startTime endTime inputHash stageResults
                          StatusSuccess in
  _ <- AuditLogger.saveRunAudit audit ;;
  ret (PipelineResult.mk true runId outputs None None audit).

(** [run] before its loop: the run id, the start time and the input
    hash, with the 'Pipeline started' record written. *)
Definition run_start `{Crypto} (initialInput : value) : M (string * Z * string) :=
  runId <- randomUUID ;;
  startTime <- Date_now ;;
  inputHash <- lift (computeHash initialInput) ;;
  _ <- AuditLogger.info runId "Pipeline started"
         (Some (VObj [("inputHash", VStr inputHash)])) ;;
  ret (runId, startTime, inputHash).

(** [PipelineOrchestrator.run] *)
Definition run `{Crypto} (this : t) (initialInput : value) (config : PipelineConfig.t)
  : M PipelineResult.t :=
  started <- run_start initialInput ;;
  let runId := fst (fst started) in
  let startTime := snd (fst started) in
  let inputHash := snd started in
  step <- run_loop this runId startTime inputHash config
                   (Scheduler.topologicalSort (stages this))
                   {[ "input" := initialInput ]} [] ;;
  match step with
  | Continue outputs stageResults =>
      run_success runId startTime inputHash outputs stageResults
  | Return r => ret r
  end.

End PipelineOrchestrator.

(* ===================================================================== *)
(** ** Quality gate checks (utils/cross_checks.ts) *)
(* ===================================================================== *)

Module CrossChecks.
Import JS.
Local Open Scope outcome_scope.

(** [ctx.outputs.get(k)] *)
Definition get (ctx : GateContext) (k : string) : value :=
  default VUndefined (outputs ctx !! k).

Definition result (name : string) (passed : bool) (severity : Severity)
    (message : string) (details : option value) : GateCheckResult :=
  mkGateCheckResult name passed severity message details.

(** Check that all use cases have corresponding API endpoints. *)
Definition apiUseCaseCoverageCheck : GateCheckFn := fun ctx =>
  let designBrief := get ctx "requirements-structurer" in
  let apiContract := get ctx "api-contract" in
  if (negb (truthy (opt_prop designBrief "useCases"))
      || negb (truthy (opt_prop apiContract "paths")))%bool
  then Returns [result "api-usecase-coverage" true SevInfo
                  "Insufficient data for use case coverage check" None]
  else
    useCases <~ array_method "designBrief.useCases" "map" (prop designBrief "useCases") ;;
    useCaseActions <~ omapM (fun uc =>
                        action <~ member uc "action" ;;
                        lowered <~ call_toLowerCase "uc.action" action ;;
                        Returns (first_word lowered)) useCases ;;
    let apiPaths := keys (prop apiContract "paths") in
    let uncovered :=
      List.filter (fun action =>
                     negb (existsb (fun path => includes (toLowerCase path) action)
                                   apiPaths))
                  useCaseActions in
    if Nat.ltb 0 (length uncovered)
    then Returns [result "api-usecase-coverage" false SevWarning
                    ("Some use cases lack API coverage: " +:+ join ", " uncovered)
                    (Some (VObj [("uncoveredUseCases", VArr (map VStr uncovered))]))]
    else Returns [result "api-usecase-coverage" true SevInfo
                    ("All " +:+ pretty (Z.of_nat (length useCaseActions))
                     +:+ " use cases have API coverage") None].

(** Body of the [for (const component of componentMap.components)] loop:
    the result pushed for one component, if any. *)
Definition component_alignment (entityNames : list value) (component : value)
  : outcome (list GateCheckResult) :=
  handles <~ member component "handlesEntities" ;;
  if (truthy handles && gt_num (prop handles "length") 0)%bool
  then
    items <~ array_method "component.handlesEntities" "filter" handles ;;
    let invalid :=
      List.filter (fun e => negb (existsb (strict_eq e) entityNames)) items in
    if Nat.ltb 0 (length invalid)
    then Returns [result "component-domain-alignment" false SevError
                    ("Component " +:+ String dquote (to_String (prop component "name"))
                     +:+ String dquote " references unknown entities: "
                     +:+ join_values ", " invalid)
                    (Some (VObj [("component", prop component "name");
                                 ("invalidEntities", VArr invalid)]))]
    else Returns []
  else Returns [].

(** Check that component map references valid domain entities. *)
Definition componentDomainAlignmentCheck : GateCheckFn := fun ctx =>
  let domainModel := get ctx "domain-model" in
  let componentMap := get ctx "system-architect" in
  if (negb (truthy (opt_prop domainModel "entities"))
      || negb (truthy (opt_prop componentMap "components")))%bool
  then Returns [result "component-domain-alignment" true SevInfo
                  "Insufficient data for domain alignment check" None]
  else
    entities <~ array_method "domainModel.entities" "map" (prop domainModel "entities") ;;
    entityNames <~ omapM (fun e => member e "name") entities ;;
    components <~ iterate "componentMap.components" (prop componentMap "components") ;;
    perComponent <~ omapM (component_alignment entityNames) components ;;
    let results := concat perComponent in
    if Nat.eqb (length results) 0
    then Returns [result "component-domain-alignment" true SevInfo
                    "All component entity references are valid" None]
    else Returns results.

(** Check that architecture document has sufficient ADRs. *)
Definition adrCompletenessCheck : GateCheckFn := fun ctx =>
  let architectData := get ctx "system-architect" in
  if negb (truthy (opt_prop architectData "adrs"))
  then Returns [result "adr-completeness" false SevError
                  "No ADRs found in architecture output" None]
  else
    let adrs := prop architectData "adrs" in
    let minAdrs := 3 in
    if lt_num (prop adrs "length") minAdrs
    then Returns [result "adr-completeness" false SevWarning
                    ("Only " +:+ to_String (prop adrs "length")
                     +:+ " ADRs found, expected at least " +:+ pretty minAdrs)
                    (Some (VObj [("adrCount", prop adrs "length");
                                 ("minimum", VNum minAdrs)]))]
    else
      items <~ array_method "adrs" "filter" adrs ;;
      adrsWithoutAlternatives <~
        ofilterM (fun adr =>
                    alternatives <~ member adr "alternatives" ;;
                    Returns (negb (truthy alternatives)
                             || strict_eq (prop alternatives "length") (VNum 0))%bool)
                 items ;;
      if Nat.ltb 0 (length adrsWithoutAlternatives)
      then Returns [result "adr-completeness" false SevWarning
                      (pretty (Z.of_nat (length adrsWithoutAlternatives))
                       +:+ " ADRs lack alternative options")
                      (Some (VObj [("adrsWithoutAlternatives",
                                    VArr (map (fun a => prop a "id")
                                              adrsWithoutAlternatives))]))]
      else Returns [result "adr-completeness" true SevInfo
                      (to_String (prop adrs "length")
                       +:+ " ADRs with alternatives documented") None].

Definition expectedAgents : list string :=
  [ "requirements-structurer"; "domain-model"; "system-architect"; "api-contract";
    "prompt-pack-designer"; "scaffold-builder"; "reviewer-verifier" ].

(** Check that prompt packs exist for all agents. *)
Definition promptCoverageCheck : GateCheckFn := fun ctx =>
  let promptPacks := get ctx "prompt-pack-designer" in
  if negb (truthy (opt_prop promptPacks "packs"))
  then Returns [result "prompt-coverage" false SevError
                  "No prompt packs generated" None]
  else
    packs <~ array_method "promptPacks.packs" "map" (prop promptPacks "packs") ;;
    packAgentIds <~ omapM (fun p => member p "agentId") packs ;;
    let missing :=
      List.filter (fun id => negb (existsb (strict_eq (VStr id)) packAgentIds))
                  expectedAgents in
    if Nat.ltb 0 (length missing)
    then Returns [result "prompt-coverage" false SevWarning
                    ("Missing prompt packs for: " +:+ join ", " missing)
                    (Some (VObj [("missingAgents", VArr (map VStr missing))]))]
    else Returns [result "prompt-coverage" true SevInfo
                    ("All " +:+ pretty (Z.of_nat (length expectedAgents))
                     +:+ " agents have prompt packs") None].

Definition requiredFiles : list string :=
  [ "package.json"; "tsconfig.json"; "src/index.ts" ].

(** Check that scaffold has valid package.json and scripts. *)
Definition scaffoldIntegrityCheck : GateCheckFn := fun ctx =>
  let buildPlan := get ctx "scaffold-builder" in
  if negb (truthy (opt_prop buildPlan "files"))
  then Returns [result "scaffold-integrity" false SevError
                  "No scaffold files generated" None]
  else
    items <~ array_method "buildPlan.files" "map" (prop buildPlan "files") ;;
    files <~ omapM (fun f => member f "path") items ;;
    let missing :=
      List.filter (fun f => negb (existsb (strict_eq (VStr f)) files)) requiredFiles in
    if Nat.ltb 0 (length missing)
    then Returns [result "scaffold-integrity" false SevError
                    ("Missing required files: " +:+ join ", " missing)
                    (Some (VObj [("missingFiles", VArr (map VStr missing))]))]
    else if (negb (truthy (prop buildPlan "scripts"))
             || negb (truthy (prop (prop buildPlan "scripts") "dev")))%bool
    then Returns [result "scaffold-integrity" false SevWarning
                    "package.json missing dev script" None]
    else Returns [result "scaffold-integrity" true SevInfo
                    ("Scaffold includes " +:+ pretty (Z.of_nat (length files))
                     +:+ " files with required structure") None].

(** [ALL_GATE_CHECKS], in the order of the table. *)
Definition ALL_GATE_CHECKS : list (string * GateCheckFn) :=
  [ ("api-usecase-coverage", apiUseCaseCoverageCheck);
    ("component-domain-alignment", componentDomainAlignmentCheck);
    ("adr-completeness", adrCompletenessCheck);
    ("prompt-coverage", promptCoverageCheck);
    ("scaffold-integrity", scaffoldIntegrityCheck) ].

End CrossChecks.

(* ===================================================================== *)
(** ** Pipeline definition (agents/registry.ts) *)
(* ===================================================================== *)

Definition AGENT_PIPELINE : list PipelineStage :=
  [ mkStage "requirements-structurer" [] None;
    mkStage "domain-model" ["requirements-structurer"] None;
    mkStage "system-architect" ["requirements-structurer"; "domain-model"]
      (Some [CrossChecks.componentDomainAlignmentCheck;
             CrossChecks.adrCompletenessCheck]);
    mkStage "api-contract"
      ["requirements-structurer"; "system-architect"; "domain-model"]
      (Some [CrossChecks.apiUseCaseCoverageCheck]);
    mkStage "prompt-pack-designer" ["requirements-structurer"]
      (Some [CrossChecks.promptCoverageCheck]);
    mkStage "scaffold-builder"
      ["requirements-structurer"; "domain-model"; "api-contract"; "system-architect"]
      (Some [CrossChecks.scaffoldIntegrityCheck]);
    mkStage "reviewer-verifier" ["scaffold-builder"; "prompt-pack-designer"] None ].

(* ===================================================================== *)
(** ** Two more string primitives *)
(* ===================================================================== *)

(** [s.repeat(n)] *)
Fixpoint repeat_string (s : string) (n : nat) : string :=
  match n with
  | O => ""
  | S n' => s +:+ repeat_string s n'
  end.

(** [s.padStart(n, '0')] *)
Definition padStart0 (s : string) (n : nat) : string :=
  repeat_string "0" (n - String.length s) +:+ s.

(* ===================================================================== *)
(** ** Gate summary (agents/reviewer_verifier.ts) *)
(* ===================================================================== *)

Module ReviewerVerifierAgent.

(** [GateReport['summary']] *)
Record Summary : Type := mkSummary {
  totalChecks : nat;
  passedCount : nat;
  warnings : nat;
  errors : nat;
  overallStatus : string
}.

Definition computeSummary (checks : list GateCheckResult) : Summary :=
  let passed_ := length (List.filter (fun c => passed c) checks) in
  let warnings_ :=
    length (List.filter (fun c => (negb (passed c)
                                   && Severity_eqb (severity c) SevWarning)%bool)
                        checks) in
  let errors_ :=
    length (List.filter (fun c => (negb (passed c)
                                   && Severity_eqb (severity c) SevError)%bool)
                        checks) in
  let overallStatus_ :=
    if Nat.ltb 0 errors_ then "failed"
    else if Nat.ltb 0 warnings_ then "passed-with-warnings"
    else "passed" in
  mkSummary (length checks) passed_ warnings_ errors_ overallStatus_.

(** [console.error(label, e)] *)
Definition console_error (label : string) (e : thrown) : M unit :=
  console_log (label +:+ " " +:+ BaseAgent.fault_message e).

(** One [try { allChecks.push(...check(gateContext)) } catch (e)
    { console.error(...) }] of [execute]. *)
Definition push_isolated (label : string) (check : GateCheckFn) (ctx : GateContext)
    (allChecks : list GateCheckResult) : M (list GateCheckResult) :=
  try_catch (rs <- lift (check ctx) ;; ret (allChecks ++ rs))
            (fun e => _ <- console_error label e ;; ret allChecks).

(** The part of [execute] that runs all quality gate checks, each in its
    own [try]. *)
Definition runAllChecks (ctx : GateContext) : M (list GateCheckResult) :=
  c1 <- push_isolated "apiUseCaseCoverageCheck failed:"
          CrossChecks.apiUseCaseCoverageCheck ctx [] ;;
  c2 <- push_isolated "componentDomainAlignmentCheck failed:"
          CrossChecks.componentDomainAlignmentCheck ctx c1 ;;
  c3 <- push_isolated "adrCompletenessCheck failed:"
          CrossChecks.adrCompletenessCheck ctx c2 ;;
  c4 <- push_isolated "promptCoverageCheck failed:"
          CrossChecks.promptCoverageCheck ctx c3 ;;
  push_isolated "scaffoldIntegrityCheck failed:"
    CrossChecks.scaffoldIntegrityCheck ctx c4.


(** An element of [GateReport['stages']]. *)
Module StageReport.
Record t : Type := mk {
  agentId : string;
  status : string;
  inputHash : string;
  outputHash : option string;
  checks : list GateCheckResult;
  errors : option (list string)
}.
End StageReport.

(** The [agentIds] of [buildStageReports]. *)
Definition agentIds : list string :=
  [ "requirements-structurer"; "domain-model"; "system-architect"; "api-contract";
    "prompt-pack-designer"; "scaffold-builder" ].

(** The own properties of the [checkToStage] table. *)
Definition checkToStage : list (string * list string) :=
  [ ("api-usecase-coverage", ["api-contract"]);
    ("component-domain-alignment", ["system-architect"]);
    ("adr-completeness", ["system-architect"]);
    ("prompt-coverage", ["prompt-pack-designer"]);
    ("scaffold-integrity", ["scaffold-builder"]) ].

Fixpoint checkToStage_get (table : list (string * list string)) (k : string)
  : option (list string) :=
  match table with
  | [] => None
  | (k', v) :: rest => if String.eqb k' k then Some v else checkToStage_get rest k
  end.

(** [checkToStage[check.name]?.includes(agentId) ?? false].  Under a name
    every object inherits ([constructor], [toString], ...) the table
    answers with a member of [Object.prototype], which is not nullish and
    has no [includes]: the call throws. *)
Definition checkRelatedToStage (check : GateCheckResult) (agentId : string)
  : outcome bool :=
  if bool_decide (name check ∈ PipelineOrchestrator.inherited_names)
  then Throws (JS.TypeError "checkToStage[check.name]?.includes is not a function")
  else Returns (match checkToStage_get checkToStage (name check) with
                | Some stages => existsb (String.eqb agentId) stages
                | None => false
                end).

(** The [for (const agentId of agentIds)] loop of [buildStageReports],
    from the reports pushed so far. *)
Fixpoint buildStageReports_from (stages : list StageReport.t) (ids : list string)
    (outputs : gmap string value) (checks : list GateCheckResult)
  : outcome (list StageReport.t) :=
  match ids with
  | [] => Returns stages
  | agentId :: rest =>
      let output := PipelineOrchestrator.outputs_get outputs agentId in
      if negb (JS.truthy output)
      then buildStageReports_from stages rest outputs checks
      else
        obind (ofilterM (fun c => checkRelatedToStage c agentId) checks)
          (fun stageChecks =>
        let hasErrors :=
          existsb (fun c => (negb (passed c)
                             && Severity_eqb (severity c) SevError)%bool)
                  stageChecks in
        let status := if hasErrors then "failed" else "passed" in
        buildStageReports_from
          (stages ++ [StageReport.mk agentId status
                        ("sha256:" +:+ repeat_string "0" 64)
                        (Some ("sha256:" +:+ repeat_string "1" 64))
                        stageChecks (Some [])])
          rest outputs checks)
  end.

Definition buildStageReports (outputs : gmap string value)
    (checks : list GateCheckResult) : outcome (list StageReport.t) :=
  buildStageReports_from [] agentIds outputs checks.

Definition allPassed : string :=
  "All quality gates passed! Architecture is ready for implementation.".

Definition generateRecommendations (checks : list GateCheckResult) : list string :=
  let failed := List.filter (fun c => negb (passed c)) checks in
  if Nat.eqb (length failed) 0
  then [allPassed]
  else
    let errorChecks :=
      List.filter (fun c => Severity_eqb (severity c) SevError) failed in
    let warningChecks :=
      List.filter (fun c => Severity_eqb (severity c) SevWarning) failed in
    (if Nat.ltb 0 (length errorChecks)
     then (pretty (Z.of_nat (length errorChecks))
           +:+ " critical errors must be fixed before proceeding.")
          :: map (fun check => "- Fix: " +:+ message check) errorChecks
     else [])
    ++ (if Nat.ltb 0 (length warningChecks)
        then [pretty (Z.of_nat (length warningChecks))
              +:+ " warnings detected. Consider addressing these for better quality."]
        else [])
    ++ (if existsb (fun c => String.eqb (name c) "adr-completeness") failed
        then ["Enhance ADRs with more alternatives and detailed trade-off analysis."]
        else [])
    ++ (if existsb (fun c => String.eqb (name c) "api-usecase-coverage") failed
        then ["Review use cases and ensure all have corresponding API endpoints."]
        else []).

End ReviewerVerifierAgent.

(* ===================================================================== *)
(** ** Scaffold builder (agents/scaffold_builder.ts) *)
(* ===================================================================== *)

Module ScaffoldBuilderAgent.
Import JS.
Local Open Scope outcome_scope.

Definition config : AgentConfig.t :=
  AgentConfig.mk "scaffold-builder" "Scaffold Builder"
    "Generates runnable code scaffold from architecture" "1.0.0"
    "" "https://architect-studio/schemas/build-plan.json".

(** [str.replace(/([a-z])([A-Z])/g, '$1-$2')] *)
Fixpoint split_camel (s : string) : string :=
  match s with
  | EmptyString => EmptyString
  | String c1 s' =>
      match s' with
      | String c2 _ =>
          if (is_lower c1 && is_upper c2)%bool
          then String c1 (String "-"%char (split_camel s'))
          else String c1 (split_camel s')
      | EmptyString => String c1 EmptyString
      end
  end.

(** [str.replace(/\s+/g, '-')]; [inRun] tells that the previous
    character was white space. *)
Fixpoint dash_spaces (inRun : bool) (s : string) : string :=
  match s with
  | EmptyString => EmptyString
  | String c s' =>
      if is_space c
      then if inRun then dash_spaces true s'
           else String "-"%char (dash_spaces true s')
      else String c (dash_spaces false s')
  end.

Definition toKebabCase (str : value) : outcome string :=
  match str with
  | VStr s => Returns (toLowerCase (dash_spaces false (split_camel s)))
  | VUndefined =>
      Throws (TypeError "Cannot read properties of undefined (reading 'replace')")
  | VNull =>
      Throws (TypeError "Cannot read properties of null (reading 'replace')")
  | _ => Throws (TypeError "str.replace is not a function")
  end.

(** [(domainModel.entities || []).map(entity => ({name, type, routes}))];
    the resources are returned with their [name] apart. *)
Definition extractResources (domainModel : value) : outcome (list value) :=
  entities <~ member domainModel "entities" ;;
  items <~ array_method "(domainModel.entities || [])" "map"
             (if truthy entities then entities else VArr []) ;;
  omapM (fun entity =>
           n <~ member entity "name" ;;
           Returns (VObj [("name", n); ("type", VStr "entity");
                          ("routes", VArr [])])) items.

Definition file (path type : string) : value :=
  VObj [("path", VStr path); ("type", VStr type)].

Definition baseFiles : list value :=
  [ file "package.json" "generated"; file "tsconfig.json" "generated";
    file ".env.example" "static"; file ".gitignore" "static";
    file "README.md" "static"; file "Dockerfile" "static";
    file "docker-compose.yml" "static";
    file "src/index.ts" "static"; file "src/app.ts" "static";
    file "src/config/index.ts" "static"; file "src/config/database.ts" "static";
    file "src/plugins/cors.ts" "static"; file "src/plugins/swagger.ts" "static";
    file "src/middleware/auth.ts" "static";
    file "src/middleware/error-handler.ts" "static";
    file "src/db/client.ts" "static"; file "src/db/schema.sql" "static" ].

Definition generateFileList (projectName : string) (resources : list value)
  : outcome (list value) :=
  perResource <~ omapM (fun resource =>
                   name <~ call_toLowerCase "resource.name" (prop resource "name") ;;
                   Returns [ file ("src/routes/" +:+ name +:+ "/index.ts") "generated";
                             file ("src/routes/" +:+ name +:+ "/schema.ts") "generated";
                             file ("src/routes/" +:+ name +:+ "/service.ts") "generated";
                             file ("src/routes/" +:+ name +:+ "/repository.ts") "generated" ])
                 resources ;;
  Returns (baseFiles ++ concat perResource).

Definition generateDependencies : value :=
  VObj [("runtime",
         VObj [("fastify", VStr "^4.26.0"); ("@fastify/cors", VStr "^9.0.0");
               ("@fastify/swagger", VStr "^8.14.0");
               ("@fastify/swagger-ui", VStr "^3.0.0"); ("pg", VStr "^8.11.0");
               ("dotenv", VStr "^16.4.0"); ("pino", VStr "^8.19.0");
               ("pino-pretty", VStr "^10.3.0")]);
        ("dev",
         VObj [("typescript", VStr "^5.3.0"); ("@types/node", VStr "^20.11.0");
               ("@types/pg", VStr "^8.11.0"); ("tsx", VStr "^4.7.0");
               ("nodemon", VStr "^3.0.0")])].

Definition generateScripts : value :=
  VObj [("dev", VStr "nodemon --exec tsx src/index.ts"); ("build", VStr "tsc");
        ("start", VStr "node dist/index.js"); ("typecheck", VStr "tsc --noEmit")].

(** [c] is matched by [[a-f0-9]]. *)
Definition is_hex_lower (c : ascii) : bool :=
  let n := nat_of_ascii c in
  ((Nat.leb 97 n && Nat.leb n 102) || (Nat.leb 48 n && Nat.leb n 57))%bool.

Fixpoint keep_hex (s : string) : string :=
  match s with
  | EmptyString => EmptyString
  | String c s' => if is_hex_lower c then String c (keep_hex s') else keep_hex s'
  end.

(** [context.runId.replace(/[^a-f0-9]/g, '').substring(0, 32)] *)
Definition planId (runId : string) : string :=
  String.substring 0 32 (keep_hex runId).

(** [execute] without its effects: it has none besides throwing. *)
Definition execute_pure (input : value) (context : AgentContext.t) : outcome value :=
  if is_nullish input
  then Throws (TypeError
         ("Cannot destructure property 'designBrief' of 'input' as it is "
          +:+ to_String input +:+ "."))
  else
    let designBrief := prop input "designBrief" in
    let domainModel := prop input "domainModel" in
    meta <~ member designBrief "meta" ;;
    metaName <~ member meta "name" ;;
    projectName <~ toKebabCase metaName ;;
    resources <~ extractResources domainModel ;;
    let id := planId (AgentContext.runId context) in
    files <~ generateFileList projectName resources ;;
    Returns (VObj [ ("id", VStr ("buildplan-" +:+ id));
                    ("version", VStr "1.0.0");
                    ("projectName", VStr projectName);
                    ("stack", VObj [("type", VStr "nodejs");
                                    ("framework", VStr "fastify");
                                    ("database", VStr "postgres");
                                    ("features", VArr [VStr "docker"; VStr "openapi";
                                                       VStr "logging"])]);
                    ("files", VArr files);
                    ("dependencies", generateDependencies);
                    ("resources", VArr resources);
                    ("scripts", generateScripts) ]).

Definition execute (input : value) (context : AgentContext.t) : M value :=
  lift (execute_pure input context).

(** [new ScaffoldBuilderAgent(validator)] *)
Definition create `{Crypto} (validator : SchemaValidator) : Agent.t :=
  BaseAgent.make config validator execute.

End ScaffoldBuilderAgent.

(* ===================================================================== *)
(** ** Actors of a design brief (agents/requirements_structurer.ts) *)
(* ===================================================================== *)

(** An element of [DesignBrief['useCases']]. *)
Module UseCase.
Record t : Type := mk {
  id : string;
  actor : string;
  action : string;
  outcome : string;
  linkedGoals : option (list string);
  preconditions : option (list string)
}.
End UseCase.

(** An element of [DesignBrief['actors']]. *)
Module Actor.
Record t : Type := mk {
  id : string;
  name : string;
  type : string;
  responsibilities : option (list string)
}.
End Actor.

Module RequirementsStructurerAgent.

(** [new Set(items)], iterated: the distinct items in the order of their
    first occurrence. *)
Definition Set_of (items : list string) : list string :=
  foldl (fun seen x => if bool_decide (x ∈ seen) then seen else seen ++ [x]) [] items.

(** The [for (const actorName of actorNames)] loop of [extractActors],
    from [aIndex]. *)
Fixpoint actors_from (aIndex : nat) (actorNames : list string)
    (useCases : list UseCase.t) : list Actor.t :=
  match actorNames with
  | [] => []
  | actorName :: rest =>
      Actor.mk ("A-" +:+ padStart0 (pretty (Z.of_nat aIndex)) 3) actorName
        (if JS.includes (JS.toLowerCase actorName) "admin" then "admin"
         else if JS.includes (JS.toLowerCase actorName) "system" then "system"
         else "user")
        (Some (UseCase.action <$>
               List.filter (fun uc => String.eqb (UseCase.actor uc) actorName)
                           useCases))
      :: actors_from (S aIndex) rest useCases
  end.

Definition extractActors (useCases : list UseCase.t) : list Actor.t :=
  actors_from 1 (Set_of (UseCase.actor <$> useCases)) useCases.

End RequirementsStructurerAgent.

(* ===================================================================== *)
(** ** Vocabulary of the properties *)
(* ===================================================================== *)

(** Stage ids are unique in a pipeline definition. *)
Definition unique_ids (stages : list PipelineStage) : Prop :=
  NoDup (agentId <$> stages).

(** Every [dependsOn] id is the id of a declared stage. *)
Definition deps_declared (stages : list PipelineStage) : Prop :=
  Forall (fun s => Forall (fun d => d ∈ agentId <$> stages) (dependsOn s)) stages.

(** [depends_on stages a b]: the stage [a] names [b] in its [dependsOn]. *)
Definition depends_on (stages : list PipelineStage) (a b : string) : Prop :=
  exists s, s ∈ stages /\ agentId s = a /\ b ∈ dependsOn s.

(** No stage depends on itself through a chain of [dependsOn]. *)
Definition acyclic (stages : list PipelineStage) : Prop :=
  forall x, ~ tc (depends_on stages) x x.

(** In [order], every stage comes after the stages it depends on. *)
Definition respects_dependencies (order : list PipelineStage) : Prop :=
  forall pre s post, order = pre ++ s :: post ->
    forall d, d ∈ dependsOn s -> d ∈ agentId <$> pre.

(** Number of occurrences of [x] in [l]. *)
Definition occ (x : string) (l : list string) : nat :=
  length (List.filter (String.eqb x) l).

(** What [graph.get(d)] holds once the graph is built: the ids of the
    stages that name [d], once per mention, in declaration order. *)
Definition dependents_of (stages : list PipelineStage) (d : string) : list string :=
  flat_map (fun s => repeat (agentId s) (occ d (dependsOn s))) stages.

(** Dependencies of [s] not yet in [sorted]. *)
Definition unresolved (sorted : list PipelineStage) (s : PipelineStage) : nat :=
  length (List.filter (fun d => negb (bool_decide (d ∈ agentId <$> sorted)))
                      (dependsOn s)).

(** Termination measure of the scheduler's loop: the ids whose in-degree
    is still positive. *)
Definition positive_keys (m : gmap string Z) : nat :=
  size (filter (fun kv : string * Z => 0 < snd kv) m).

(** Invariant of the scheduler's [while] loop over [stages]. *)
Record Inv (stages : list PipelineStage) (inDegree : gmap string Z)
    (queue sorted : list PipelineStage) : Prop := mkInv {
  inv_declared : forall s, s ∈ sorted ++ queue -> s ∈ stages;
  inv_nodup : NoDup (agentId <$> sorted ++ queue);
  inv_degree : forall s, s ∈ stages ->
    inDegree !! agentId s = Some (Z.of_nat (unresolved sorted s));
  inv_ready : forall s, s ∈ stages ->
    unresolved sorted s = 0%nat <-> agentId s ∈ agentId <$> sorted ++ queue;
  inv_order : respects_dependencies sorted
}.

(** Position of [x] in [ids] (their length when it is absent). *)
Fixpoint declaration_rank (ids : list string) (x : string) : nat :=
  match ids with
  | [] => 0%nat
  | y :: rest => if String.eqb x y then 0%nat else S (declaration_rank rest x)
  end.

(** The 'api-contract' stage of [AGENT_PIPELINE]. *)
Definition apiContractStage : PipelineStage :=
  mkStage "api-contract"
    ["requirements-structurer"; "system-architect"; "domain-model"]
    (Some [CrossChecks.apiUseCaseCoverageCheck]).

(** The guard the checks open with: the named artifact is missing from
    the map, or its named field is missing or falsy. *)
Definition lacks (ctx : GateContext) (artifact field : string) : Prop :=
  JS.truthy (JS.opt_prop (CrossChecks.get ctx artifact) field) = false.

(** The result the specification asks of a check without its data. *)
Definition insufficient_data (results : list GateCheckResult) : Prop :=
  exists r, results = [r] /\ passed r = true /\ severity r = SevInfo.

(** Every character of [s] satisfies [p]. *)
Fixpoint string_forall (p : ascii -> bool) (s : string) : bool :=
  match s with
  | EmptyString => true
  | String c s' => (p c && string_forall p s')%bool
  end.

(** A character kebab case leaves alone: neither an ASCII capital nor
    white space. *)
Definition kebab_char (c : ascii) : bool :=
  (negb (JS.is_upper c) && negb (JS.is_space c))%bool.

(** A character of the ASCII range, and a string made of such characters
    only.  On these strings [toLowerCase] and the class [\s] of JavaScript
    are [JS.toLowerCase] and [JS.is_space]. *)
Definition ascii_char (c : ascii) : bool := Nat.ltb (nat_of_ascii c) 128.

Definition ascii_only (s : string) : bool := string_forall ascii_char s.

Definition is_undefined (v : value) : bool :=
  match v with VUndefined => true | _ => false end.

(** An element of [BuildPlan['files']] as [generateFileList] writes it. *)
Definition is_file (v : value) : Prop :=
  exists path type, v = ScaffoldBuilderAgent.file path type.

(** What a gate check named [checkName] reports: at least one result,
    each under the check's own name, a passed one with severity 'info'
    and a failed one with 'warning' or 'error'. *)
Definition well_reported (checkName : string) (results : list GateCheckResult) : Prop :=
  results <> [] /\
  Forall (fun r => name r = checkName /\
                   (passed r = true <-> severity r = SevInfo)) results.

(** What a check contributes to a list of results: its results, or
    nothing when it throws. *)
Definition contribution (ctx : GateContext) (check : GateCheckFn)
  : list GateCheckResult :=
  match check ctx with
  | Returns rs => rs
  | Throws _ => []
  end.

(** Does the check throw on [ctx]? *)
Definition faults (ctx : GateContext) (check : GateCheckFn) : bool :=
  match check ctx with
  | Returns _ => false
  | Throws _ => true
  end.

(** The first fault among the checks, if any throws on [ctx]. *)
Fixpoint first_fault (ctx : GateContext) (checks : list GateCheckFn) : option thrown :=
  match checks with
  | [] => None
  | check :: rest =>
      match check ctx with
      | Throws e => Some e
      | Returns _ => first_fault ctx rest
      end
  end.

(** The last dependency of [deps] whose key is [k]. *)
Definition last_with_key (k : string) (deps : list string) : option string :=
  last (List.filter (fun d => String.eqb (PipelineOrchestrator.dependencyToKey d) k)
                    deps).

(** [m] writes to neither audit file: the agents have no access to the
    audit logger. *)
Definition quiet {A} (m : M A) : Prop :=
  forall w, log (snd (m w)) = log w /\ runJson (snd (m w)) = runJson w.

Definition quiet_agents (this : PipelineOrchestrator.t) : Prop :=
  forall id agent input context,
    PipelineOrchestrator.agents this !! id = Some agent ->
    quiet (Agent.run agent input context).

(** From [w] to [w'] the log has only grown, by records of the run
    [runId], and audit/run.json was not written. *)
Definition audit_extends (runId : string) (w w' : World) : Prop :=
  (exists entries, log w' = log w ++ entries /\
     Forall (fun entry => AuditLogEntry.runId entry = runId) entries) /\
  runJson w' = runJson w.

(** Every step of [m] extends the audit trail of the run [runId]. *)
Definition extending {A} (runId : string) (m : M A) : Prop :=
  forall w, audit_extends runId w (snd (m w)).

(** What the coverage gate compares for a use case: the first word of
    its action, in lower case. *)
Definition action_word (useCase : value) : string :=
  match JS.prop useCase "action" with
  | VStr action => JS.first_word (JS.toLowerCase action)
  | _ => ""
  end.



(** [!adr.alternatives || adr.alternatives.length === 0] does not hold. *)
Definition has_alternatives (adr : value) : bool :=
  let alternatives := JS.prop adr "alternatives" in
  (JS.truthy alternatives
   && negb (JS.strict_eq (JS.prop alternatives "length") (VNum 0)))%bool.

(** The stages the [checkToStage] table lists for a check name. *)
Definition stages_of_check (checkName : string) : list string :=
  default [] (ReviewerVerifierAgent.checkToStage_get
                ReviewerVerifierAgent.checkToStage checkName).

(** No check is named like a property every object inherits; the names
    of the five gate checks are not. *)
Definition plain_names (checks : list GateCheckResult) : Prop :=
  Forall (fun c => name c ∉ PipelineOrchestrator.inherited_names) checks.

(** The report [buildStageReports] pushes for a stage. *)
Definition report_of (checks : list GateCheckResult) (agentId : string)
  : ReviewerVerifierAgent.StageReport.t :=
  let stageChecks :=
    List.filter (fun c => bool_decide (agentId ∈ stages_of_check (name c))) checks in
  ReviewerVerifierAgent.StageReport.mk agentId
    (if existsb PipelineOrchestrator.is_gate_failure stageChecks
     then "failed" else "passed")
    ("sha256:" +:+ repeat_string "0" 64)
    (Some ("sha256:" +:+ repeat_string "1" 64))
    stageChecks (Some []).

(** The responsibilities of the actors, all together. *)
Definition all_responsibilities (actors : list Actor.t) : list string :=
  concat ((fun a => default [] (Actor.responsibilities a)) <$> actors).

(* ===================================================================== *)
(** ** Scenarios *)
(* ===================================================================== *)

Module Scenario.

(** A stand-in for SHA-256 in closed examples: the digest of a text is
    the text, so that distinct texts have distinct digests. *)
Definition digest : Crypto := {| sha256_hex := fun s => s |}.

(** A fresh environment: the clock answers 1000, 1001, ...; run ids are
    taken from [ids]. *)
Definition world (ids : nat -> string) : World :=
  mkWorld (fun n => 1000 + Z.of_nat n) 0 ids 0 [] [] [].

Definition world0 : World := world (fun n => "run-" +:+ pretty (Z.of_nat n)).

(** A validator that accepts everything. *)
Definition accept : SchemaValidator := fun _ _ => ret (ValidationResult.mk true None).

Definition cfg (id : string) : AgentConfig.t := AgentConfig.mk id id "" "1.0.0" "" "".

(** A stage whose logic returns its input. *)
Definition passThrough `{Crypto} (id : string) : Agent.t :=
  BaseAgent.make (cfg id) accept (fun input _ => ret input).

(** A stage whose logic raises. *)
Definition raising `{Crypto} (id : string) (msg : string) : Agent.t :=
  BaseAgent.make (cfg id) accept (fun _ _ => lift (Throws (ErrorObj msg))).

(** The linear pipeline A -> B -> C. *)
Definition ABC : list PipelineStage :=
  [ mkStage "A" [] None; mkStage "B" ["A"] None; mkStage "C" ["B"] None ].

Definition input1 : value := VObj [("n", VNum 1)].

(** Scenario A: every stage passes its input through. *)
Definition happy `{Crypto} : PipelineOrchestrator.t :=
  PipelineOrchestrator.mk
    {[ "A" := passThrough "A"; "B" := passThrough "B"; "C" := passThrough "C" ]}
    ABC.

(** Scenario B: the logic of B raises. *)
Definition failingB `{Crypto} : PipelineOrchestrator.t :=
  PipelineOrchestrator.mk
    {[ "A" := passThrough "A"; "B" := raising "B" "boom"; "C" := passThrough "C" ]}
    ABC.

(** A gate check that raises, and one that always reports an error. *)
Definition brokenCheck : GateCheckFn := fun _ => Throws (ErrorObj "check crashed").
Definition errorCheck : GateCheckFn := fun _ =>
  Returns [mkGateCheckResult "always" false SevError "always fails" None].

(** A -> B where A carries a gate check that raises. *)
Definition brokenGate `{Crypto} : PipelineOrchestrator.t :=
  PipelineOrchestrator.mk
    {[ "A" := passThrough "A"; "B" := passThrough "B" ]}
    [ mkStage "A" [] (Some [brokenCheck]); mkStage "B" ["A"] None ].

(** Scenario C: A carries a gate check that always fails. *)
Definition gateAbort `{Crypto} : PipelineOrchestrator.t :=
  PipelineOrchestrator.mk
    {[ "A" := passThrough "A"; "B" := passThrough "B" ]}
    [ mkStage "A" [] (Some [errorCheck]); mkStage "B" ["A"] None ].

(** A pipeline whose second stage has no agent. *)
Definition missingAgent `{Crypto} : PipelineOrchestrator.t :=
  PipelineOrchestrator.mk {[ "A" := passThrough "A" ]}
    [ mkStage "A" [] None; mkStage "B" ["A"] None ].

(** Two stages that depend on each other. *)
Definition cyclic : list PipelineStage :=
  [ mkStage "A" ["B"] None; mkStage "B" ["A"] None ].

(** A stage that names a stage nobody declared. *)
Definition dangling : list PipelineStage :=
  [ mkStage "A" [] None; mkStage "B" ["A"; "ghost"] None; mkStage "C" ["A"] None ].

(** The scaffold builder alone, fed the initial artifact. *)
Definition scaffoldOnly `{Crypto} : PipelineOrchestrator.t :=
  PipelineOrchestrator.mk
    {[ "scaffold-builder" := ScaffoldBuilderAgent.create accept ]}
    [ mkStage "scaffold-builder" [] None ].

Definition scaffoldInput : value :=
  VObj [("designBrief", VObj [("meta", VObj [("name", VStr "Todo App")])]);
        ("domainModel", VObj [("entities", VArr [VObj [("name", VStr "Task")]])])].

Definition runIdA : string := "46d7bd9c-afd4-45da-9923-51e627bed82f".
Definition runIdB : string := "0b5c1e6a-7d2f-4c3b-8a9e-1f2d3c4b5a69".

(** The run of [scaffoldOnly] on [scaffoldInput] that draws the run id
    [id]. *)
Definition scaffoldRun `{Crypto} (id : string) : outcome PipelineResult.t * World :=
  PipelineOrchestrator.run scaffoldOnly scaffoldInput (PipelineConfig.mk None)
    (world (fun _ => id)).

(** What the scaffold builder's logic computes in that run. *)
Definition scaffoldPlan (id : string) : outcome value :=
  ScaffoldBuilderAgent.execute_pure scaffoldInput
    (AgentContext.mk id 1000 {[ "input" := scaffoldInput ]} None).

(** Observations of a run: did it succeed, what did a stage store, which
    output hashes does the audit list. *)
Definition succeeded (r : outcome PipelineResult.t * World) : bool :=
  match fst r with
  | Returns x => PipelineResult.success x
  | Throws _ => false
  end.

Definition stored (id : string) (r : outcome PipelineResult.t * World)
  : option value :=
  match fst r with
  | Returns x => PipelineResult.outputs x !! id
  | Throws _ => None
  end.

Definition outputHashes (r : outcome PipelineResult.t * World)
  : list (option string) :=
  match fst r with
  | Returns x => StageAudit.outputHash <$> RunAudit.stages (PipelineResult.audit x)
  | Throws _ => []
  end.

Definition returned (o : outcome value) : option value :=
  match o with
  | Returns v => Some v
  | Throws _ => None
  end.

(** The [id] of a returned object. *)
Definition idOf (o : outcome value) : option value :=
  match o with
  | Returns v => Some (JS.prop v "id")
  | Throws _ => None
  end.

(** The text [computeHash] digests for a value. *)
Definition jsonOf (o : outcome value) : string :=
  match o with
  | Returns v => default "" (JS.stringify v)
  | Throws _ => ""
  end.


(** An agent configuration with both contracts declared. *)
Definition contractCfg (id : string) : AgentConfig.t :=
  AgentConfig.mk id id "" "1.0.0" "in.json" "out.json".

(** A validator that rejects the data of the schema [schemaId] and
    accepts everything else. *)
Definition rejecting (schemaId : string) : SchemaValidator := fun schema _ =>
  ret (if String.eqb schema schemaId
       then ValidationResult.mk false (Some ["/: must be object"; "/id: is required"])
       else ValidationResult.mk true None).

End Scenario.

(* ===================================================================== *)
(** * Properties *)
(* ===================================================================== *)

Import Scheduler.

(* ===================================================================== *)
(** ** The scheduler terminates *)
(* ===================================================================== *)

(** One relaxation does not increase the measure: an id enters the queue
    only when its in-degree leaves the positive ones. *)
Lemma relax_measure stages m q d :
  (positive_keys (fst (relax stages (m, q) d)) + length (snd (relax stages (m, q) d))
   <= positive_keys m + length q)%nat.
Proof.
  unfold relax; cbn [fst snd].
  destruct (m !! d) as [v|] eqn:Hlk; [|cbn; lia].
  set (deg := v - 1).
  destruct (Z.eqb_spec deg 0) as [H0|H0].
  - assert (Hpos : (S (positive_keys (<[d:=deg]> m)) <= positive_keys m)%nat).
    { unfold positive_keys. rewrite map_filter_insert_False by (cbn; lia).
      rewrite map_filter_delete, map_size_delete.
      assert (Hin : filter (fun kv : string * Z => 0 < snd kv) m !! d = Some v).
      { apply map_lookup_filter_Some. split; [done | cbn; lia]. }
      rewrite Hin. cbn.
      assert (size (filter (fun kv : string * Z => 0 < snd kv) m) ≠ 0%nat).
      { intros Hs. apply map_size_empty_inv in Hs. rewrite Hs in Hin.
        by rewrite lookup_empty in Hin. }
      lia. }
    destruct (find_stage stages d); cbn [fst snd]; rewrite ?length_app; cbn; lia.
  - cbn [fst snd].
    destruct (Z.lt_ge_cases 0 deg) as [Hp|Hn].
    + unfold positive_keys. rewrite map_filter_insert_True by (cbn; lia).
      rewrite map_size_insert.
      assert (Hin : filter (fun kv : string * Z => 0 < snd kv) m !! d = Some v).
      { apply map_lookup_filter_Some. split; [done | cbn; lia]. }
      rewrite Hin. cbn. lia.
    + unfold positive_keys at 1. rewrite map_filter_insert_False by (cbn; lia).
      rewrite map_filter_delete.
      rewrite map_size_delete. unfold positive_keys.
      destruct (filter _ m !! d); unfold id; cbn; lia.
Qed.

(** Nor does relaxing all the dependents of a stage. *)
Lemma foldl_relax_measure stages ds : forall m q,
  (positive_keys (fst (foldl (relax stages) (m, q) ds))
   + length (snd (foldl (relax stages) (m, q) ds))
   <= positive_keys m + length q)%nat.
Proof.
  induction ds as [|d ds IH]; intros m q; cbn [foldl fst snd]; [lia|].
  pose proof (relax_measure stages m q d) as H1.
  destruct (relax stages (m, q) d) as [m1 q1] eqn:E. cbn [fst snd] in H1.
  specialize (IH m1 q1). lia.
Qed.

(** With fuel for the measure, the loop ends with an empty queue. *)
Lemma kahn_loop_terminates fuel : forall stages graph m q sorted,
  (positive_keys m + length q <= fuel)%nat ->
  is_Some (kahn_loop fuel stages graph m q sorted).
Proof.
  induction fuel as [|fuel IH]; intros stages graph m q sorted Hle.
  - destruct q; cbn in *; [eauto | lia].
  - destruct q as [|s q]; cbn [kahn_loop]; [eauto|].
    apply IH.
    pose proof (foldl_relax_measure stages (default [] (graph !! agentId s)) m q).
    cbn [length] in Hle. lia.
Qed.

(** The in-degree map has at most one key per stage. *)
Lemma build_graph_size stages : forall m g,
  (size (fst (foldl build_step (m, g) stages)) <= size m + length stages)%nat.
Proof.
  induction stages as [|s l IH]; intros m g; cbn [foldl length fst]; [lia|].
  unfold build_step at 2. cbn [fst snd].
  etrans; [apply IH|]. rewrite map_size_insert. destruct (m !! _); cbn; lia.
Qed.

(** The fuel [topologicalSort] gives the loop is enough for every stage
    list: the scheduler always returns an order. *)
Lemma kahn_total stages : is_Some (kahn stages).
Proof.
  unfold kahn. apply kahn_loop_terminates.
  assert (positive_keys (fst (build_graph stages)) <= length stages)%nat.
  { unfold positive_keys. etrans; [apply map_subseteq_size, map_filter_subseteq|].
    pose proof (build_graph_size stages ∅ ∅) as H. rewrite map_size_empty in H.
    apply H. }
  assert (length (initial_queue stages) <= length stages)%nat.
  { unfold initial_queue. apply List.filter_length_le. }
  lia.
Qed.

(* ===================================================================== *)
(** ** What the two loops of the scheduler compute *)
(* ===================================================================== *)

(** Counting occurrences. *)
Lemma occ_cons x d l :
  occ x (d :: l) = if String.eqb x d then S (occ x l) else occ x l.
Proof. unfold occ. cbn. by destruct (String.eqb x d). Qed.

Lemma occ_app x l1 l2 : occ x (l1 ++ l2) = (occ x l1 + occ x l2)%nat.
Proof. unfold occ. by rewrite List.filter_app, length_app. Qed.

Lemma occ_repeat x y n :
  occ x (repeat y n) = if String.eqb x y then n else 0%nat.
Proof.
  induction n as [|n IH]; cbn [repeat].
  - by destruct (String.eqb x y).
  - rewrite occ_cons, IH. by destruct (String.eqb x y).
Qed.

Lemma occ_pos x l : (0 < occ x l)%nat <-> x ∈ l.
Proof.
  induction l as [|d l IH].
  - cbn. split; [lia | by intros ?%elem_of_nil].
  - rewrite occ_cons, elem_of_cons.
    destruct (String.eqb_spec x d); [split; [by left | lia]|].
    rewrite IH. split; [by right | by intros [?|?]].
Qed.

(** The inner loop of the graph construction adds [id] to the dependents
    of [d] once per mention of [d]. *)
Lemma graph_push_all id d deps : forall g,
  default [] (foldl (fun g dep => graph_push g dep id) g deps !! d)
  = default [] (g !! d) ++ repeat id (occ d deps).
Proof.
  induction deps as [|dep deps IH]; intros g; cbn [foldl].
  - cbn. by rewrite app_nil_r.
  - rewrite IH, occ_cons. unfold graph_push.
    destruct (String.eqb_spec d dep) as [->|Hne].
    + rewrite lookup_insert_eq. cbn.
      by rewrite <- app_assoc.
    + by rewrite lookup_insert_ne.
Qed.

(** The graph built from [stages] holds [dependents_of stages d] under [d]. *)
Lemma build_graph_dependents stages d : forall m g,
  default [] (snd (foldl build_step (m, g) stages) !! d)
  = default [] (g !! d) ++ dependents_of stages d.
Proof.
  induction stages as [|s l IH]; intros m g; cbn [foldl dependents_of flat_map snd].
  - by rewrite app_nil_r.
  - unfold build_step at 2. cbn [fst snd].
    rewrite IH, graph_push_all. by rewrite <- app_assoc.
Qed.

(** [find] returns a declared stage with the id asked for. *)
Lemma find_stage_Some stages x s :
  find_stage stages x = Some s -> s ∈ stages /\ agentId s = x.
Proof.
  unfold find_stage. intros [Hin Heq]%List.find_some.
  split; [by apply list_elem_of_In | by apply String.eqb_eq].
Qed.

(** Relaxing the dependents [ds]: every in-degree drops by the number of
    times its id occurs in [ds], and the stages enqueued are those whose
    in-degree reaches zero on the way, each once. *)
Lemma foldl_relax_spec stages ds : forall m q,
  (forall x, fst (foldl (relax stages) (m, q) ds) !! x
             = (fun v => v - Z.of_nat (occ x ds)) <$> (m !! x)) /\
  exists p, snd (foldl (relax stages) (m, q) ds) = q ++ p /\
    (forall s, s ∈ p <-> exists x v, find_stage stages x = Some s /\
                           m !! x = Some v /\ 1 <= v <= Z.of_nat (occ x ds)) /\
    NoDup (agentId <$> p).
Proof.
  induction ds as [|d ds IH]; intros m q; cbn [foldl].
  - split.
    + intros x. cbn. destruct (m !! x); cbn; [f_equal; lia | done].
    + exists []. rewrite app_nil_r. split; [done|]. split; [|constructor].
      intros s. split; [by intros ?%elem_of_nil|].
      intros (x & v & _ & _ & Hv). cbn in Hv. lia.
  - unfold relax at 2 4. cbn [fst snd].
    destruct (m !! d) as [v0|] eqn:Hd.
    + set (m1 := <[d:=v0 - 1]> m).
      assert (Hm1 : forall x, m1 !! x = if String.eqb x d then Some (v0 - 1) else m !! x).
      { intros x. subst m1. destruct (String.eqb_spec x d) as [->|Hne].
        - by rewrite lookup_insert_eq.
        - by rewrite lookup_insert_ne. }
      set (p0 := if v0 - 1 =? 0 then
                   match find_stage stages d with Some s => [s] | None => [] end
                 else []).
      assert (Hst : (if v0 - 1 =? 0 then
                match find_stage stages d with
                | Some depStage => (m1, q ++ [depStage])
                | None => (m1, q)
                end else (m1, q)) = (m1, q ++ p0)).
      { subst p0. destruct (v0 - 1 =? 0); [|by rewrite app_nil_r].
        destruct (find_stage stages d); [done | by rewrite app_nil_r]. }
      rewrite Hst. destruct (IH m1 (q ++ p0)) as (IHm & p & IHq & IHp & IHnd).
      split.
      * intros x. rewrite IHm, Hm1, occ_cons.
        destruct (String.eqb_spec x d) as [->|Hne]; [|done].
        rewrite Hd. cbn. f_equal. lia.
      * exists (p0 ++ p). split; [by rewrite IHq, app_assoc|].
        assert (Hp0 : forall s, s ∈ p0 <-> v0 = 1 /\ find_stage stages d = Some s).
        { intros s. subst p0. destruct (Z.eqb_spec (v0 - 1) 0).
          - destruct (find_stage stages d) as [s'|].
            + rewrite list_elem_of_singleton. split; [intros ->; split; [lia|done]|].
              by intros [_ [= ->]].
            + split; [by intros ?%elem_of_nil | by intros [_ ?]].
          - split; [by intros ?%elem_of_nil | intros [? _]; lia]. }
        split.
        -- intros s. rewrite elem_of_app, Hp0, IHp. split.
           ++ intros [[-> Hf] | (x & v & Hf & Hx & Hv)].
              ** exists d, 1. rewrite occ_cons, String.eqb_refl. repeat split; try done; lia.
              ** exists x. rewrite Hm1 in Hx. rewrite occ_cons.
                 destruct (String.eqb_spec x d) as [->|Hne].
                 --- injection Hx as <-. exists v0. repeat split; try done; lia.
                 --- exists v. repeat split; try done; lia.
           ++ intros (x & v & Hf & Hx & Hv). rewrite occ_cons in Hv.
              destruct (String.eqb_spec x d) as [->|Hne].
              ** rewrite Hd in Hx. injection Hx as ->.
                 destruct (decide (v = 1)) as [->|Hv1]; [by left|].
                 right. exists d, (v - 1). rewrite Hm1, String.eqb_refl.
                 repeat split; try done; lia.
              ** right. exists x, v. rewrite Hm1.
                 destruct (String.eqb_spec x d); [done|]. repeat split; try done; lia.
        -- rewrite fmap_app. apply NoDup_app. split; [|split; [|done]].
           ++ subst p0. destruct (v0 - 1 =? 0); [|constructor].
              destruct (find_stage stages d); [apply NoDup_singleton | constructor].
           ++ intros i (s & -> & Hs)%list_elem_of_fmap (s' & Hi & Hs')%list_elem_of_fmap.
              apply Hp0 in Hs as [-> Hf]. apply IHp in Hs' as (x & v & Hf' & Hx & Hv).
              apply find_stage_Some in Hf as [_ Hid], Hf' as [_ Hid'].
              assert (x = d) as -> by congruence.
              rewrite Hm1, String.eqb_refl in Hx. injection Hx as <-. lia.
    + destruct (IH m q) as (IHm & p & IHq & IHp & IHnd).
      split.
      * intros x. rewrite IHm, occ_cons.
        destruct (String.eqb_spec x d) as [->|Hne]; [|done]. by rewrite Hd.
      * exists p. split; [done|]. split; [|done].
        intros s. rewrite IHp. split; intros (x & v & Hf & Hx & Hv); exists x, v;
          (split; [done|]); (split; [done|]); rewrite occ_cons in *;
          destruct (String.eqb_spec x d) as [->|Hne]; try done; congruence.
Qed.

(* ===================================================================== *)
(** ** Invariant of the scheduler's main loop *)
(* ===================================================================== *)

(** Unresolved dependencies before anything is sorted, when all are
    sorted, and after one more stage is sorted. *)
Lemma unresolved_nil s : unresolved [] s = length (dependsOn s).
Proof.
  unfold unresolved. induction (dependsOn s) as [|d l IH]; [done|].
  cbn [List.filter]. rewrite bool_decide_eq_false_2 by apply not_elem_of_nil.
  cbn [negb length]. by rewrite IH.
Qed.

Lemma unresolved_zero sorted s :
  unresolved sorted s = 0%nat <-> forall d, d ∈ dependsOn s -> d ∈ agentId <$> sorted.
Proof.
  unfold unresolved. induction (dependsOn s) as [|d l IH]; cbn.
  - split; [by intros _ d ?%elem_of_nil | done].
  - destruct (bool_decide_reflect (d ∈ agentId <$> sorted)) as [Hin|Hnin]; cbn.
    + rewrite IH. split.
      * intros H x [->|Hx]%elem_of_cons; auto.
      * intros H x Hx. apply H. by right.
    + split; [lia|]. intros H. exfalso. apply Hnin, H. by left.
Qed.

Lemma unresolved_snoc sorted st s :
  agentId st ∉ agentId <$> sorted ->
  (unresolved (sorted ++ [st]) s + occ (agentId st) (dependsOn s))%nat
  = unresolved sorted s.
Proof.
  intros Hfresh. unfold unresolved.
  induction (dependsOn s) as [|d l IH]; [done|].
  rewrite occ_cons. cbn [List.filter].
  rewrite fmap_app. cbn [fmap list_fmap].
  destruct (String.eqb_spec (agentId st) d) as [<-|Hne].
  - rewrite (bool_decide_eq_true_2 (agentId st ∈ _ ++ [agentId st]))
      by (apply elem_of_app; right; apply list_elem_of_singleton; done).
    rewrite (bool_decide_eq_false_2 (agentId st ∈ agentId <$> sorted)) by done.
    cbn [negb length]. rewrite fmap_app in IH. cbn [fmap list_fmap] in IH. lia.
  - rewrite fmap_app in IH. cbn [fmap list_fmap] in IH.
    destruct (bool_decide_reflect (d ∈ agentId <$> sorted)) as [Hin|Hnin].
    + rewrite bool_decide_eq_true_2 by (apply elem_of_app; by left).
      cbn [negb]. lia.
    + rewrite bool_decide_eq_false_2.
      * cbn [negb length]. lia.
      * intros [?|?%list_elem_of_singleton]%elem_of_app; [done | by subst].
Qed.

Section Invariant.
Variable stages : list PipelineStage.
Hypothesis Hnd : NoDup (agentId <$> stages).

(** With unique ids a stage is found by its id. *)
Lemma find_stage_unique s : s ∈ stages -> find_stage stages (agentId s) = Some s.
Proof.
  unfold find_stage. revert Hnd. induction stages as [|a l IH]; intros Hnd' Hin.
  - by apply elem_of_nil in Hin.
  - cbn. rewrite fmap_cons in Hnd'. apply NoDup_cons in Hnd' as [Ha Hl].
    apply elem_of_cons in Hin as [->|Hin]; [by rewrite String.eqb_refl|].
    destruct (String.eqb_spec (agentId a) (agentId s)) as [Heq|Hne]; [|by apply IH].
    exfalso. apply Ha. rewrite Heq. by apply list_elem_of_fmap_2.
Qed.

(** Two declared stages with the same id are the same stage. *)
Lemma stage_of_id s1 s2 :
  s1 ∈ stages -> s2 ∈ stages -> agentId s1 = agentId s2 -> s1 = s2.
Proof.
  intros H1 H2 Heq. apply find_stage_unique in H1, H2.
  rewrite Heq in H1. congruence.
Qed.

(** The in-degree map after the graph construction. *)
Lemma inDegree_untouched x l : forall m g,
  x ∉ agentId <$> l -> fst (foldl build_step (m, g) l) !! x = m !! x.
Proof.
  induction l as [|b l IH]; intros m g Hfresh; [done|].
  cbn [foldl]. unfold build_step at 2. cbn [fst snd].
  rewrite fmap_cons in Hfresh. apply not_elem_of_cons in Hfresh as [Hne Hfresh].
  rewrite IH by done. by rewrite lookup_insert_ne.
Qed.

(** With unique ids every stage has its number of dependencies as
    in-degree. *)
Lemma inDegree_foldl s l : forall m g,
  NoDup (agentId <$> l) -> s ∈ l ->
  fst (foldl build_step (m, g) l) !! agentId s
  = Some (Z.of_nat (length (dependsOn s))).
Proof.
  induction l as [|a l IH]; intros m g Hl Hin.
  - by apply elem_of_nil in Hin.
  - rewrite fmap_cons in Hl. apply NoDup_cons in Hl as [Ha Hl].
    cbn [foldl]. unfold build_step at 2. cbn [fst snd].
    apply elem_of_cons in Hin as [->|Hin]; [|by apply IH].
    rewrite inDegree_untouched by done. by rewrite lookup_insert_eq.
Qed.

Lemma inDegree_initial s :
  s ∈ stages ->
  fst (build_graph stages) !! agentId s = Some (Z.of_nat (length (dependsOn s))).
Proof. intros Hin. by apply inDegree_foldl. Qed.

(** The graph after its construction. *)
Lemma graph_initial d :
  default [] (snd (build_graph stages) !! d) = dependents_of stages d.
Proof.
  unfold build_graph. rewrite build_graph_dependents. by rewrite lookup_empty.
Qed.

(** A stage is among the dependents of [d] as often as it names [d]. *)
Lemma occ_dependents s d :
  s ∈ stages ->
  occ (agentId s) (dependents_of stages d) = occ d (dependsOn s).
Proof.
  unfold dependents_of. revert Hnd.
  induction stages as [|a l IH]; intros Hl Hin.
  - by apply elem_of_nil in Hin.
  - rewrite fmap_cons in Hl. apply NoDup_cons in Hl as [Ha Hl].
    cbn [flat_map]. rewrite occ_app, occ_repeat.
    apply elem_of_cons in Hin as [->|Hin].
    + rewrite String.eqb_refl.
      assert (Hz : forall l', agentId a ∉ agentId <$> l' ->
        occ (agentId a)
            (flat_map (fun s => repeat (agentId s) (occ d (dependsOn s))) l') = 0%nat).
      { clear. induction l' as [|b l' IH']; intros Hf; [done|].
        rewrite fmap_cons in Hf. apply not_elem_of_cons in Hf as [Hne Hf].
        cbn [flat_map]. rewrite occ_app, occ_repeat, IH' by done.
        by destruct (String.eqb_spec (agentId a) (agentId b)). }
      rewrite Hz by done. lia.
    + destruct (String.eqb_spec (agentId s) (agentId a)) as [Heq|Hne].
      * exfalso. apply Ha. rewrite <- Heq. by apply list_elem_of_fmap_2.
      * by rewrite IH.
Qed.

(** [filter] keeps a sublist. *)
Lemma filter_sublist {A} (p : A -> bool) (l : list A) : sublist (List.filter p l) l.
Proof.
  induction l as [|a l IH]; cbn; [constructor|].
  destruct (p a); by constructor.
Qed.

(** The invariant holds when the loop is entered. *)
Lemma Inv_initial : Inv stages (fst (build_graph stages)) (initial_queue stages) [].
Proof.
  split.
  - intros s Hs. apply list_elem_of_In in Hs.
    apply List.filter_In in Hs as [Hs _]. by apply list_elem_of_In.
  - rewrite app_nil_l. eapply sublist_NoDup; [exact Hnd|].
    apply fmap_sublist, filter_sublist.
  - intros s Hs. rewrite unresolved_nil. by apply inDegree_initial.
  - intros s Hs. rewrite unresolved_nil. split.
    + intros Hz. apply list_elem_of_fmap_2, list_elem_of_In, List.filter_In.
      split; [by apply list_elem_of_In | by apply Nat.eqb_eq].
    + intros (s' & Heq & Hs')%list_elem_of_fmap.
      apply list_elem_of_In, List.filter_In in Hs' as [Hs' Hz].
      apply list_elem_of_In in Hs'.
      assert (s = s') as <- by by apply stage_of_id.
      by apply Nat.eqb_eq.
  - intros pre s post Heq. by destruct pre.
Qed.

(** One turn of the loop preserves the invariant. *)
Lemma Inv_step inDegree st queue sorted :
  Inv stages inDegree (st :: queue) sorted ->
  let r := foldl (relax stages) (inDegree, queue)
                 (default [] (snd (build_graph stages) !! agentId st)) in
  Inv stages (fst r) (snd r) (sorted ++ [st]).
Proof.
  intros [Hdecl Hnodup Hdeg Hready Hord] r. subst r.
  rewrite graph_initial.
  destruct (foldl_relax_spec stages (dependents_of stages (agentId st)) inDegree queue)
    as (Hm & p & Hq & Hp & Hpnd).
  rewrite Hq.
  assert (Hst : st ∈ stages) by (apply Hdecl, elem_of_app; right; by left).
  assert (Hfresh : agentId st ∉ agentId <$> sorted).
  { rewrite fmap_app, fmap_cons in Hnodup.
    apply NoDup_app in Hnodup as (_ & Hdisj & _).
    intros Hin. apply (Hdisj _ Hin). by left. }
  assert (Hp' : forall s, s ∈ p <->
            s ∈ stages /\ unresolved (sorted ++ [st]) s = 0%nat
            /\ (0 < unresolved sorted s)%nat).
  { intros s. rewrite Hp. split.
    - intros (x & v & Hf & Hx & Hv).
      apply find_stage_Some in Hf as [Hs <-].
      rewrite Hdeg in Hx by done. injection Hx as <-.
      rewrite occ_dependents in Hv by done.
      pose proof (unresolved_snoc sorted st s Hfresh). split; [done|]. lia.
    - intros (Hs & Hz & Hpos). exists (agentId s), (Z.of_nat (unresolved sorted s)).
      split; [by apply find_stage_unique|]. split; [by apply Hdeg|].
      rewrite occ_dependents by done.
      pose proof (unresolved_snoc sorted st s Hfresh). lia. }
  assert (Hre : (sorted ++ [st]) ++ queue ++ p = (sorted ++ st :: queue) ++ p).
  { by rewrite <- !app_assoc. }
  split.
  - intros s. rewrite Hre, elem_of_app. intros [Hs|Hs]; [by apply Hdecl|].
    by apply Hp' in Hs as [? _].
  - rewrite Hre, fmap_app. apply NoDup_app. split; [done|]. split; [|done].
    intros i Hi (s & -> & Hs)%list_elem_of_fmap.
    apply Hp' in Hs as (Hs & _ & Hpos).
    apply Hready in Hi; [lia | done].
  - intros s Hs. rewrite Hm, Hdeg by done. cbn. f_equal.
    rewrite occ_dependents by done.
    pose proof (unresolved_snoc sorted st s Hfresh). lia.
  - intros s Hs. rewrite Hre, fmap_app, elem_of_app.
    pose proof (unresolved_snoc sorted st s Hfresh) as Hsn. split.
    + intros Hz. destruct (decide (unresolved sorted s = 0%nat)) as [Hz0|Hnz].
      * left. by apply Hready.
      * right. apply list_elem_of_fmap_2, Hp'. split; [done|]. lia.
    + intros [Hi|(s' & Heq & Hs')%list_elem_of_fmap].
      * apply Hready in Hi; [lia | done].
      * apply Hp' in Hs' as (Hs' & Hz & _).
        assert (s = s') as <- by by apply stage_of_id. done.
  - intros pre s post Heq d Hd.
    destruct post as [|x post _] using rev_ind.
    + apply app_inj_tail in Heq as [<- <-].
      assert (Hz : unresolved sorted st = 0%nat).
      { apply Hready; [done|]. apply list_elem_of_fmap_2, elem_of_app.
        right; by left. }
      by apply (proj1 (unresolved_zero sorted st)).
    + rewrite app_comm_cons, app_assoc in Heq.
      apply app_inj_tail in Heq as [Heq _].
      by apply (Hord pre s post).
Qed.

(** Hence it holds of the order the loop returns. *)
Lemma kahn_loop_Inv fuel : forall inDegree queue sorted res,
  Inv stages inDegree queue sorted ->
  kahn_loop fuel stages (snd (build_graph stages)) inDegree queue sorted = Some res ->
  exists inDegree', Inv stages inDegree' [] res.
Proof.
  induction fuel as [|fuel IH]; intros m q sorted res HI Hrun.
  - destruct q; [|done]. injection Hrun as <-. eauto.
  - destruct q as [|st q]; cbn [kahn_loop] in Hrun.
    + injection Hrun as <-. eauto.
    + eapply IH; [|exact Hrun]. by apply Inv_step.
Qed.

(** And of the order [topologicalSort] returns. *)
Lemma topologicalSort_Inv :
  exists inDegree, Inv stages inDegree [] (topologicalSort stages).
Proof.
  unfold topologicalSort. destruct (kahn_total stages) as [res Hres].
  rewrite Hres. cbn [default]. unfold kahn in Hres.
  eapply kahn_loop_Inv; [apply Inv_initial | exact Hres].
Qed.

End Invariant.

(* ===================================================================== *)
(** ** A dependency graph whose order is incomplete has a cycle *)
(* ===================================================================== *)

Section Cycle.
Context {A : Type} `{EqDecision A} (R : relation A) (universe : list A).
Variable U : A -> Prop.
Hypothesis U_universe : forall u, U u -> u ∈ universe.
Hypothesis U_step : forall u, U u -> exists v, R u v /\ U v.

(** Walking along [R] inside [U] from [u], with [visited] the vertices
    passed so far (each reaches [u]): within [n] more steps, [n] the
    number of vertices not yet visited, a vertex is met again. *)
Lemma cycle_search n : forall visited u,
  NoDup visited -> (forall v, v ∈ visited -> v ∈ universe) ->
  (length universe <= n + length visited)%nat ->
  U u -> (forall v, v ∈ visited -> tc R v u) ->
  exists x, tc R x x.
Proof.
  induction n as [|n IH]; intros visited u Hnd Hsub Hlen Hu Hreach;
    (destruct (decide (u ∈ visited)) as [Hin|Hnin]; [by exists u; apply Hreach|]).
  - exfalso.
    assert (Hle : (length (u :: visited) <= length universe)%nat).
    { apply submseteq_length, NoDup_submseteq; [by constructor|].
      intros x [->|Hx]%elem_of_cons; auto. }
    cbn in Hle. lia.
  - destruct (U_step u Hu) as (v & Huv & Hv).
    apply (IH (u :: visited) v); [by constructor| | |done|].
    + intros x [->|Hx]%elem_of_cons; auto.
    + cbn [length]. lia.
    + intros x [->|Hx]%elem_of_cons; [by apply tc_once|].
      eapply tc_r; [by apply Hreach | done].
Qed.

(** A set inside a finite universe each of whose members has a successor
    in the set contains a cycle. *)
Lemma closed_set_has_cycle u : U u -> exists x, tc R x x.
Proof.
  intros Hu. apply (cycle_search (length universe) [] u); try done.
  - constructor.
  - by intros v ?%elem_of_nil.
  - cbn. lia.
  - by intros v ?%elem_of_nil.
Qed.
End Cycle.

(** A stage with unresolved dependencies names an id that is not sorted. *)
Lemma unresolved_pos sorted s :
  unresolved sorted s ≠ 0%nat ->
  exists d, d ∈ dependsOn s /\ d ∉ agentId <$> sorted.
Proof.
  unfold unresolved. induction (dependsOn s) as [|d l IH]; [done|].
  cbn [List.filter].
  destruct (bool_decide_reflect (d ∈ agentId <$> sorted)) as [Hin|Hnin]; cbn [negb].
  - intros (d' & Hd' & Hn)%IH. exists d'. split; [by right | done].
  - intros _. exists d. split; [by left | done].
Qed.

Section Results.
Variable stages : list PipelineStage.
Hypothesis Hnd : unique_ids stages.

(** With unique ids: the order consists of declared stages, has no id
    twice, and respects the dependencies, complete or not. *)
Lemma topologicalSort_sound :
  (forall s, s ∈ topologicalSort stages -> s ∈ stages) /\
  NoDup (agentId <$> topologicalSort stages) /\
  respects_dependencies (topologicalSort stages).
Proof.
  destruct (topologicalSort_Inv stages Hnd) as [m [Hdecl Hnodup _ _ Hord]].
  rewrite app_nil_r in *. auto.
Qed.

(** Without cycle and with every dependency declared, every stage is in
    the order. *)
Lemma topologicalSort_complete :
  deps_declared stages -> acyclic stages ->
  forall s, s ∈ stages -> s ∈ topologicalSort stages.
Proof.
  intros Hdecl Hacyc.
  destruct (topologicalSort_Inv stages Hnd) as [m [Hsub Hnodup _ Hready _]].
  set (sorted := topologicalSort stages) in *.
  assert (Hids : forall s, s ∈ stages -> agentId s ∈ agentId <$> sorted).
  { intros s0 Hs0. destruct (decide (agentId s0 ∈ agentId <$> sorted)) as [|Hn0]; [done|].
    exfalso.
    destruct (closed_set_has_cycle (depends_on stages) (agentId <$> stages)
                (fun x => x ∈ agentId <$> stages /\ x ∉ agentId <$> sorted))
      with (u := agentId s0) as [x Hx].
    - by intros u [? _].
    - intros u [(s & -> & Hs)%list_elem_of_fmap Hu].
      assert (Hnz : unresolved sorted s ≠ 0%nat).
      { intros Hz. apply Hu. apply Hready in Hz; [|done].
        by rewrite app_nil_r in Hz. }
      apply unresolved_pos in Hnz as (d & Hd & Hdn).
      exists d. split; [by exists s|]. split; [|done].
      unfold deps_declared in Hdecl. rewrite Forall_forall in Hdecl.
      specialize (Hdecl s Hs). rewrite Forall_forall in Hdecl. by apply Hdecl.
    - split; [by apply list_elem_of_fmap_2 | done].
    - by apply (Hacyc x). }
  intros s Hs. specialize (Hids s Hs).
  apply list_elem_of_fmap in Hids as (s' & Heq & Hs').
  assert (s = s') as ->; [|done].
  apply (stage_of_id stages Hnd); [done| |done].
  apply Hsub. by rewrite app_nil_r.
Qed.

(** The order is never longer than the stage list. *)
Lemma topologicalSort_length_le :
  (length (topologicalSort stages) <= length stages)%nat.
Proof.
  destruct topologicalSort_sound as (Hsub & Hnodup & _).
  rewrite <- (length_fmap agentId (topologicalSort stages)).
  rewrite <- (length_fmap agentId stages).
  apply submseteq_length, NoDup_submseteq; [done|].
  intros x (s & -> & Hs)%list_elem_of_fmap. by apply list_elem_of_fmap_2, Hsub.
Qed.

(** It has the length of the stage list when the definition is well
    formed. *)
Lemma topologicalSort_length :
  deps_declared stages -> acyclic stages ->
  length (topologicalSort stages) = length stages.
Proof.
  intros Hdecl Hacyc. apply Nat.le_antisymm; [apply topologicalSort_length_le|].
  rewrite <- (length_fmap agentId (topologicalSort stages)).
  rewrite <- (length_fmap agentId stages).
  apply submseteq_length, NoDup_submseteq; [done|].
  intros x (s & -> & Hs)%list_elem_of_fmap.
  by apply list_elem_of_fmap_2, topologicalSort_complete.
Qed.
End Results.

(** A rank that decreases along [dependsOn] excludes cycles. *)
Lemma acyclic_ranked stages (rank : string -> nat) :
  Forall (fun s => Forall (fun d => (rank d < rank (agentId s))%nat) (dependsOn s)) stages ->
  acyclic stages.
Proof.
  intros Hr.
  assert (Hlt : forall x y, tc (depends_on stages) x y -> (rank y < rank x)%nat).
  { induction 1 as [x y (s & Hs & <- & Hd)|x y z (s & Hs & <- & Hd) _ IH].
    - rewrite Forall_forall in Hr. specialize (Hr s Hs).
      rewrite Forall_forall in Hr. by apply Hr.
    - rewrite Forall_forall in Hr. specialize (Hr s Hs).
      rewrite Forall_forall in Hr. specialize (Hr y Hd). lia. }
  intros x Hx. apply Hlt in Hx. lia.
Qed.

(** Positions in a list of ids. *)
Lemma declaration_rank_lt ids x : x ∈ ids -> (declaration_rank ids x < length ids)%nat.
Proof.
  induction ids as [|y ids IH]; [by intros ?%elem_of_nil|].
  cbn. destruct (String.eqb_spec x y); [lia|].
  intros [->|Hx]%elem_of_cons; [done|]. apply IH in Hx. lia.
Qed.

Lemma declaration_rank_app_l pre rest x :
  x ∈ pre -> declaration_rank (pre ++ rest) x = declaration_rank pre x.
Proof.
  induction pre as [|y pre IH]; [by intros ?%elem_of_nil|].
  cbn. destruct (String.eqb_spec x y); [done|].
  intros [->|Hx]%elem_of_cons; [done|]. by rewrite IH.
Qed.

Lemma declaration_rank_middle pre x post :
  x ∉ pre -> declaration_rank (pre ++ x :: post) x = length pre.
Proof.
  induction pre as [|y pre IH]; intros Hx; cbn.
  - by rewrite String.eqb_refl.
  - apply not_elem_of_cons in Hx as [Hne Hx].
    destruct (String.eqb_spec x y); [done|]. by rewrite IH.
Qed.

(** Conversely, an order as long as the stage list is only returned for
    a definition whose dependencies are all declared and free of cycles. *)
Lemma topologicalSort_complete_only_if_well_formed stages :
  unique_ids stages ->
  length (topologicalSort stages) = length stages ->
  deps_declared stages /\ acyclic stages.
Proof.
  intros Hnd Hlen.
  destruct (topologicalSort_sound stages Hnd) as (Hsub & Hnodup & Hord).
  set (sorted := topologicalSort stages) in *.
  assert (Hperm : agentId <$> sorted ≡ₚ agentId <$> stages).
  { apply submseteq_length_Permutation.
    - apply NoDup_submseteq; [done|].
      intros x (s & -> & Hs)%list_elem_of_fmap. by apply list_elem_of_fmap_2, Hsub.
    - rewrite !length_fmap. lia. }
  assert (Hall : forall s, s ∈ stages -> s ∈ sorted).
  { intros s Hs.
    assert (Hid : agentId s ∈ agentId <$> sorted).
    { rewrite Hperm. by apply list_elem_of_fmap_2. }
    apply list_elem_of_fmap in Hid as (s' & Heq & Hs').
    by rewrite (stage_of_id stages Hnd s s' Hs (Hsub _ Hs') Heq). }
  assert (Hdeps : forall s, s ∈ stages -> forall d, d ∈ dependsOn s ->
            d ∈ agentId <$> sorted /\
            (declaration_rank (agentId <$> sorted) d
             < declaration_rank (agentId <$> sorted) (agentId s))%nat).
  { intros s Hs d Hd. apply Hall in Hs.
    apply list_elem_of_split in Hs as (pre & post & Heq).
    pose proof (Hord pre s post Heq d Hd) as Hpre.
    rewrite Heq, fmap_app, fmap_cons in *.
    split; [apply elem_of_app; by left|].
    rewrite declaration_rank_app_l by done.
    rewrite declaration_rank_middle.
    - by apply declaration_rank_lt.
    - apply NoDup_app in Hnodup as (_ & Hdisj & _).
      intros Hin. apply (Hdisj _ Hin). by left. }
  split.
  - unfold deps_declared. apply Forall_forall. intros s Hs.
    apply Forall_forall. intros d Hd. rewrite <- Hperm.
    by destruct (Hdeps s Hs d Hd).
  - apply (acyclic_ranked _ (declaration_rank (agentId <$> sorted))).
    apply Forall_forall. intros s Hs. apply Forall_forall. intros d Hd.
    by destruct (Hdeps s Hs d Hd).
Qed.

(* ===================================================================== *)
(** ** Scheduler: order and length of the result *)
(* ===================================================================== *)

Ltac by_computation := refine (bool_decide_unpack _ _); vm_compute; exact I.

(** The pipeline of the registry is well formed. *)
Lemma AGENT_PIPELINE_unique_ids : unique_ids AGENT_PIPELINE.
Proof. unfold unique_ids. by_computation. Qed.

Lemma AGENT_PIPELINE_deps_declared : deps_declared AGENT_PIPELINE.
Proof. unfold deps_declared. by_computation. Qed.

Lemma AGENT_PIPELINE_acyclic : acyclic AGENT_PIPELINE.
Proof.
  apply (acyclic_ranked _ (declaration_rank (agentId <$> AGENT_PIPELINE))).
  by_computation.
Qed.

(** C9.  For every stage list with unique ids, no cycle and every
    [dependsOn] id declared, the order returned by [topologicalSort] is a
    rearrangement of the stage list: it holds every stage, each exactly
    once, and no id twice.  Wherever a stage stands in the order, every id
    named in its [dependsOn] is the id of a stage that stands before it;
    so each stage runs once, after all the stages it depends on. *)
Theorem topologicalSort_places_stage_after_dependencies
    (stages : list PipelineStage) :
  unique_ids stages -> deps_declared stages -> acyclic stages ->
  topologicalSort stages ≡ₚ stages /\
  NoDup (agentId <$> topologicalSort stages) /\
  respects_dependencies (topologicalSort stages) /\
  forall s, s ∈ stages ->
    exists pre post,
      topologicalSort stages = pre ++ s :: post /\
      (s ∉ pre) /\ (s ∉ post) /\
      forall d, d ∈ dependsOn s -> exists p, p ∈ pre /\ agentId p = d.
Proof.
  intros Hnd Hdecl Hacyc.
  destruct (topologicalSort_sound stages Hnd) as (Hsub & Hnodup & Hord).
  pose proof (topologicalSort_complete stages Hnd Hdecl Hacyc) as Hall.
  assert (Hsorted : NoDup (topologicalSort stages)) by by eapply NoDup_fmap_1.
  split; [|split; [done|split; [done|]]].
  - apply NoDup_Permutation; [done|by eapply NoDup_fmap_1|].
    intros s. split; [apply Hsub|apply Hall].
  - intros s Hs. specialize (Hall s Hs).
    apply list_elem_of_split in Hall as (pre & post & Heq).
    exists pre, post. split; [done|].
    rewrite Heq in Hsorted.
    apply NoDup_app in Hsorted as (_ & Hpre & Hpost%NoDup_cons).
    split; [|split; [by destruct Hpost|]].
    { intros Hin. apply (Hpre s Hin). by left. }
    intros d Hd. specialize (Hord pre s post Heq d Hd).
    apply list_elem_of_fmap in Hord as (p & -> & Hp). by exists p.
Qed.

Lemma topologicalSort_places_stage_after_dependencies_witness :
  unique_ids AGENT_PIPELINE /\ deps_declared AGENT_PIPELINE /\
  acyclic AGENT_PIPELINE /\ apiContractStage ∈ AGENT_PIPELINE /\
  topologicalSort AGENT_PIPELINE ≡ₚ AGENT_PIPELINE /\
  respects_dependencies (topologicalSort AGENT_PIPELINE) /\
  exists pre post,
    topologicalSort AGENT_PIPELINE = pre ++ apiContractStage :: post /\
    (apiContractStage ∉ pre) /\ (apiContractStage ∉ post) /\
    forall d, d ∈ dependsOn apiContractStage -> exists p, p ∈ pre /\ agentId p = d.
Proof.
  assert (Hu : unique_ids AGENT_PIPELINE).
  { unfold unique_ids. refine (bool_decide_unpack _ _). vm_compute. exact I. }
  assert (Hd : deps_declared AGENT_PIPELINE).
  { unfold deps_declared. refine (bool_decide_unpack _ _). vm_compute. exact I. }
  assert (Ha : acyclic AGENT_PIPELINE).
  { apply (acyclic_ranked _ (declaration_rank (agentId <$> AGENT_PIPELINE))).
    refine (bool_decide_unpack _ _). vm_compute. exact I. }
  assert (Hs : apiContractStage ∈ AGENT_PIPELINE).
  { unfold AGENT_PIPELINE, apiContractStage. do 3 apply list_elem_of_further.
    apply list_elem_of_here. }
  split; [exact Hu|]. split; [exact Hd|]. split; [exact Ha|]. split; [exact Hs|].
  destruct (topologicalSort_places_stage_after_dependencies AGENT_PIPELINE Hu Hd Ha)
    as (Hperm & _ & Hord & Hall).
  split; [exact Hperm|]. split; [exact Hord|].
  exact (Hall apiContractStage Hs).
Defined.

(** Why the ids must be unique: [find] picks the first stage of an id
    while the in-degree recorded for that id is the one of the last.  Here
    the first "B" is scheduled before "X", which it depends on. *)
Example duplicate_ids_break_order :
  let stages := [ mkStage "B" ["X"; "A"] None; mkStage "A" [] None;
                  mkStage "X" ["A"] None; mkStage "B" ["A"] None ] in
  deps_declared stages /\ acyclic stages /\
  topologicalSort stages
  = [ mkStage "A" [] None; mkStage "B" ["X"; "A"] None; mkStage "X" ["A"] None ].
Proof.
  intros stages. split; [by_computation|]. split.
  - apply (acyclic_ranked _ (declaration_rank ["A"; "X"; "B"])). by_computation.
  - by vm_compute.
Qed.

(** C3, as the code has it.  The scheduler has no way to signal a
    defect: it returns an order for every stage list.  With unique ids the
    order never has more entries than there are stages, and it has exactly
    as many if and only if every [dependsOn] id is declared and no stage
    is on a cycle: a cycle or an undeclared dependency makes the returned
    order shorter than the stage list. *)
Theorem topologicalSort_length_iff_well_formed (stages : list PipelineStage) :
  is_Some (kahn stages) /\
  (unique_ids stages ->
   (length (topologicalSort stages) <= length stages)%nat /\
   (length (topologicalSort stages) = length stages <->
    deps_declared stages /\ acyclic stages)).
Proof.
  split; [apply kahn_total|]. intros Hnd. split.
  - by apply topologicalSort_length_le.
  - split.
    + by apply topologicalSort_complete_only_if_well_formed.
    + intros [Hdecl Hacyc]. by apply topologicalSort_length.
Qed.

Lemma topologicalSort_length_iff_well_formed_witness :
  unique_ids AGENT_PIPELINE /\ deps_declared AGENT_PIPELINE /\
  acyclic AGENT_PIPELINE /\
  length (topologicalSort AGENT_PIPELINE) = length AGENT_PIPELINE.
Proof.
  assert (Hu : unique_ids AGENT_PIPELINE).
  { unfold unique_ids. refine (bool_decide_unpack _ _). vm_compute. exact I. }
  assert (Hd : deps_declared AGENT_PIPELINE).
  { unfold deps_declared. refine (bool_decide_unpack _ _). vm_compute. exact I. }
  assert (Ha : acyclic AGENT_PIPELINE).
  { apply (acyclic_ranked _ (declaration_rank (agentId <$> AGENT_PIPELINE))).
    refine (bool_decide_unpack _ _). vm_compute. exact I. }
  split; [exact Hu|]. split; [exact Hd|]. split; [exact Ha|].
  exact (proj2 (proj2 (proj2 (topologicalSort_length_iff_well_formed AGENT_PIPELINE) Hu))
               (conj Hd Ha)).
Defined.

(** C3, counterexample.  Two stages that depend on each other: the
    scheduler returns the empty order, shorter than the stage list, and
    the run that uses it reports success without having run a stage. *)
Lemma topologicalSort_silently_truncates_cycle :
  topologicalSort Scenario.cyclic = [] /\
  length (topologicalSort Scenario.cyclic) <> length Scenario.cyclic /\
  exists r w,
    PipelineOrchestrator.run (H := Scenario.digest)
      (PipelineOrchestrator.mk ∅ Scenario.cyclic) Scenario.input1
      (PipelineConfig.mk None) Scenario.world0 = (Returns r, w) /\
    PipelineResult.success r = true /\
    RunAudit.stages (PipelineResult.audit r) = [].
Proof.
  split; [by vm_compute|]. split; [by vm_compute|].
  eexists _, _. split; [vm_compute; reflexivity|]. by split.
Qed.

(** An undeclared dependency truncates the order in the same silent way:
    the stage that names it, and whatever depends on that stage, is left
    out. *)
Lemma topologicalSort_silently_drops_dangling :
  agentId <$> topologicalSort Scenario.dangling = ["A"; "C"].
Proof. by vm_compute. Qed.

(* ===================================================================== *)
(** ** Gate aggregation *)
(* ===================================================================== *)

(** A filter is non-empty when some element passes. *)
Lemma filter_nonempty {A} (p : A -> bool) (l : list A) :
  (0 < length (List.filter p l))%nat <-> exists x, x ∈ l /\ p x = true.
Proof.
  induction l as [|a l IH]; cbn.
  - split; [lia | by intros (x & ?%elem_of_nil & _)].
  - destruct (p a) eqn:Ha; cbn.
    + split; [intros _; exists a; split; [by left | done] | lia].
    + rewrite IH. split.
      * intros (x & Hx & Hp). exists x. split; [by right | done].
      * intros (x & [->|Hx]%elem_of_cons & Hp); [congruence | by exists x].
Qed.

Lemma Severity_eqb_eq a b : Severity_eqb a b = true <-> a = b.
Proof. destruct a, b; cbn; split; congruence. Qed.

(** C8.  [computeSummary] reports 'failed' exactly when some result has
    severity 'error' and [passed] false; otherwise 'passed-with-warnings'
    exactly when some result has severity 'warning' and [passed] false;
    otherwise 'passed'. *)
Theorem computeSummary_overallStatus (checks : list GateCheckResult) :
  let status := ReviewerVerifierAgent.overallStatus
                  (ReviewerVerifierAgent.computeSummary checks) in
  let failing sev := exists r, r ∈ checks /\ severity r = sev /\ passed r = false in
  (status = "failed" <-> failing SevError) /\
  (status = "passed-with-warnings" <-> ~ failing SevError /\ failing SevWarning) /\
  (status = "passed" <-> ~ failing SevError /\ ~ failing SevWarning).
Proof.
  intros status failing.
  assert (Hcount : forall sev,
    (0 < length (List.filter
                   (fun c => (negb (passed c) && Severity_eqb (severity c) sev)%bool)
                   checks))%nat <-> failing sev).
  { intros sev. rewrite filter_nonempty. unfold failing.
    split; intros (r & Hr & Hp); exists r; (split; [done|]).
    - apply andb_prop in Hp as [Hp Hs]. apply Severity_eqb_eq in Hs.
      apply negb_true_iff in Hp. done.
    - destruct Hp as [-> ->]. by destruct sev. }
  subst status. unfold ReviewerVerifierAgent.computeSummary.
  cbn [ReviewerVerifierAgent.overallStatus].
  pose proof (Hcount SevError) as He. pose proof (Hcount SevWarning) as Hw.
  destruct (Nat.ltb_spec 0 (length (List.filter
    (fun c => (negb (passed c) && Severity_eqb (severity c) SevError)%bool) checks)))
    as [Hpos|Hzero].
  - assert (failing SevError) by by apply He. repeat split; try done; tauto.
  - assert (~ failing SevError) by (rewrite <- He; lia).
    destruct (Nat.ltb_spec 0 (length (List.filter
      (fun c => (negb (passed c) && Severity_eqb (severity c) SevWarning)%bool) checks)))
      as [Hposw|Hzerow].
    + assert (failing SevWarning) by by apply Hw. repeat split; try done; tauto.
    + assert (~ failing SevWarning) by (rewrite <- Hw; lia).
      repeat split; try done; tauto.
Qed.

(** The counts of the summary, as the source computes them. *)
Lemma computeSummary_counts (checks : list GateCheckResult) :
  ReviewerVerifierAgent.totalChecks (ReviewerVerifierAgent.computeSummary checks)
  = length checks /\
  (ReviewerVerifierAgent.errors (ReviewerVerifierAgent.computeSummary checks)
   = length (List.filter PipelineOrchestrator.is_gate_failure checks)).
Proof. done. Qed.

(** Scenario D: a warning and no error gives 'passed-with-warnings'. *)
Example computeSummary_warning_only :
  ReviewerVerifierAgent.overallStatus
    (ReviewerVerifierAgent.computeSummary
       [ mkGateCheckResult "a" true SevInfo "fine" None;
         mkGateCheckResult "b" false SevWarning "hm" None ])
  = "passed-with-warnings".
Proof. reflexivity. Qed.

(* ===================================================================== *)
(** ** Input resolution *)
(* ===================================================================== *)

(** Setting a property the object does not have appends it. *)
Lemma obj_set_fresh (fields : list (string * value)) k v :
  k ∉ fields.*1 -> JS.obj_set fields k v = fields ++ [(k, v)].
Proof.
  induction fields as [|[k' v'] fields IH]; intros Hk; [done|].
  cbn in *. apply not_elem_of_cons in Hk as [Hne Hk].
  destruct (String.eqb_spec k' k); [congruence|]. by rewrite IH.
Qed.

(** The loop of [resolveInputs] over dependencies with distinct keys. *)
Lemma assemble_distinct_keys (outputs : gmap string value) (deps : list string) :
  forall acc : list (string * value),
    NoDup (acc.*1 ++ (PipelineOrchestrator.dependencyToKey <$> deps)) ->
    foldl (fun input depId =>
             JS.obj_set input (PipelineOrchestrator.dependencyToKey depId)
                        (PipelineOrchestrator.outputs_get outputs depId))
          acc deps
    = acc ++ ((fun d => (PipelineOrchestrator.dependencyToKey d,
                         PipelineOrchestrator.outputs_get outputs d)) <$> deps).
Proof.
  induction deps as [|d deps IH]; intros acc Hnd; cbn [foldl fmap list_fmap].
  - by rewrite app_nil_r.
  - rewrite fmap_cons in Hnd.
    rewrite obj_set_fresh.
    + rewrite IH.
      * by rewrite <- app_assoc.
      * rewrite fmap_app. cbn. by rewrite <- app_assoc.
    + apply NoDup_app in Hnd as (_ & Hdisj & _).
      intros Hin. apply (Hdisj _ Hin). by left.
Qed.

(** Two dependencies or more. *)
Lemma resolveInputs_many (stage : PipelineStage) (artifacts : gmap string value) :
  (2 <= length (dependsOn stage))%nat ->
  NoDup (PipelineOrchestrator.dependencyToKey <$> dependsOn stage) ->
  PipelineOrchestrator.resolveInputs stage artifacts
  = VObj ((fun d => (PipelineOrchestrator.dependencyToKey d,
                     PipelineOrchestrator.outputs_get artifacts d))
          <$> dependsOn stage).
Proof.
  intros Hlen Hnd. unfold PipelineOrchestrator.resolveInputs.
  destruct (dependsOn stage) as [|a [|b rest]] eqn:Hdeps; cbn in Hlen; try lia.
  f_equal. by apply (assemble_distinct_keys artifacts (a :: b :: rest) []).
Qed.

(** C10.  [resolveInputs] gives: with no dependency, what is stored under
    "input"; with one dependency, that dependency's stored output itself;
    with several (their ids not being names a plain object inherits, and
    their keys distinct), the object that maps, in the order of
    [dependsOn], the key of each dependency id to that dependency's
    stored output and has no other property. *)
Theorem resolveInputs_by_arity (stage : PipelineStage)
    (artifacts : gmap string value) :
  let stored := PipelineOrchestrator.outputs_get artifacts in
  let key := PipelineOrchestrator.dependencyToKey in
  (dependsOn stage = [] ->
   PipelineOrchestrator.resolveInputs stage artifacts = stored "input") /\
  (forall a, dependsOn stage = [a] ->
   PipelineOrchestrator.resolveInputs stage artifacts = stored a) /\
  ((2 <= length (dependsOn stage))%nat ->
   Forall (fun d => d ∉ PipelineOrchestrator.inherited_names) (dependsOn stage) ->
   NoDup (key <$> dependsOn stage) ->
   PipelineOrchestrator.resolveInputs stage artifacts
   = VObj ((fun d => (key d, stored d)) <$> dependsOn stage)) /\
  (forall a b, dependsOn stage = [a; b] ->
   a ∉ PipelineOrchestrator.inherited_names ->
   b ∉ PipelineOrchestrator.inherited_names ->
   key a <> key b ->
   PipelineOrchestrator.resolveInputs stage artifacts
   = VObj [(key a, stored a); (key b, stored b)]).
Proof.
  intros stored key. subst stored key.
  split; [by unfold PipelineOrchestrator.resolveInputs; intros ->|].
  split; [by unfold PipelineOrchestrator.resolveInputs; intros a ->|].
  split; [by intros Hlen _ Hnd; apply resolveInputs_many|].
  intros a b Hdeps _ _ Hne. rewrite resolveInputs_many; rewrite Hdeps; cbn; try done.
  apply NoDup_cons. split; [by intros ?%list_elem_of_singleton|].
  apply NoDup_singleton.
Qed.

Lemma resolveInputs_by_arity_witness :
  let stage := mkStage "system-architect"
                 ["requirements-structurer"; "domain-model"] None in
  let artifacts : gmap string value :=
    {[ "input" := VNum 0; "requirements-structurer" := VStr "brief";
       "domain-model" := VStr "model" ]} in
  (2 <= length (dependsOn stage))%nat /\
  Forall (fun d => d ∉ PipelineOrchestrator.inherited_names) (dependsOn stage) /\
  NoDup (PipelineOrchestrator.dependencyToKey <$> dependsOn stage) /\
  PipelineOrchestrator.resolveInputs stage artifacts
  = VObj [("designBrief", VStr "brief"); ("domainModel", VStr "model")].
Proof.
  intros stage artifacts.
  assert (H2 : (2 <= length (dependsOn stage))%nat) by (vm_compute; lia).
  assert (Hi : Forall (fun d => d ∉ PipelineOrchestrator.inherited_names)
                      (dependsOn stage)).
  { refine (bool_decide_unpack _ _). vm_compute. exact I. }
  assert (Hk : NoDup (PipelineOrchestrator.dependencyToKey <$> dependsOn stage)).
  { refine (bool_decide_unpack _ _). vm_compute. exact I. }
  split; [exact H2|]. split; [exact Hi|]. split; [exact Hk|].
  exact (proj1 (proj2 (proj2 (resolveInputs_by_arity stage artifacts))) H2 Hi Hk).
Defined.

(** Ids outside the table are their own key. *)
Example dependencyToKey_fallback :
  PipelineOrchestrator.dependencyToKey "reviewer-verifier" = "reviewer-verifier".
Proof. reflexivity. Qed.

(** When two dependencies share a key the later one overwrites the
    earlier: distinct keys are needed for the exact object. *)
Example resolveInputs_shared_key :
  PipelineOrchestrator.resolveInputs
    (mkStage "s" ["domain-model"; "domainModel"] None)
    {[ "domain-model" := VNum 1; "domainModel" := VNum 2 ]}
  = VObj [("domainModel", VNum 2)].
Proof. reflexivity. Qed.

(* ===================================================================== *)
(** ** The stage executor *)
(* ===================================================================== *)







(* ===================================================================== *)
(** ** The run loop *)
(* ===================================================================== *)

(** Running the stages [pre ++ rest] is running [pre] and, if no turn
    returned or threw, running [rest] from where [pre] ended. *)
Lemma run_loop_app this runId startTime inputHash config pre rest :
  forall outputs stageResults w,
    PipelineOrchestrator.run_loop this runId startTime inputHash config
      (pre ++ rest) outputs stageResults w
    = match PipelineOrchestrator.run_loop this runId startTime inputHash config
              pre outputs stageResults w with
      | (Returns (PipelineOrchestrator.Continue outputs' stageResults'), w') =>
          PipelineOrchestrator.run_loop this runId startTime inputHash config
            rest outputs' stageResults' w'
      | other => other
      end.
Proof.
  induction pre as [|s pre IH]; intros outputs stageResults w; [done|].
  cbn [app PipelineOrchestrator.run_loop]. unfold bind.
  destruct (PipelineOrchestrator.run_stage this runId startTime inputHash config s
              outputs stageResults w) as [[[o' r'|r]|e] w1]; [apply IH|done|done].
Qed.

(** What every [return this.buildFailureResult(...)] hands back. *)
Lemma buildFailureResult_returns runId startTime inputHash failedAt errors
    stageResults w :
  exists r w',
    PipelineOrchestrator.buildFailureResult runId startTime inputHash failedAt
      errors stageResults w = (Returns r, w') /\
    PipelineResult.success r = false /\
    PipelineResult.runId r = runId /\
    PipelineResult.outputs r = ∅ /\
    PipelineResult.failedAt r = Some failedAt /\
    PipelineResult.errors r = errors /\
    RunAudit.overallStatus (PipelineResult.audit r) = StatusFailed /\
    StageAudit.agentId <$> RunAudit.stages (PipelineResult.audit r)
    = StageResult.agentId <$> stageResults /\
    runJson w' = runJson w /\ log w' = log w.
Proof.
  eexists _, _. split; [reflexivity|]. cbn. repeat split.
  induction stageResults as [|sr l IH]; [done|]. cbn. by rewrite IH.
Qed.

(** The 'Starting' record and the clock reading cannot fail. *)
Lemma before_agent_returns runId stage w :
  exists t, PipelineOrchestrator.before_agent runId stage w
            = (Returns t, snd (PipelineOrchestrator.before_agent runId stage w)).
Proof. eexists. reflexivity. Qed.

(** Whenever a turn of the loop makes [run] return, the result is a
    failure with an empty [outputs] map and an audit marked failed;
    [failedAt] is the stage's id, or that id followed by ":gate". *)
Lemma run_stage_Return_shape this runId startTime inputHash config stage
    outputs stageResults w r w' :
  PipelineOrchestrator.run_stage this runId startTime inputHash config stage
    outputs stageResults w = (Returns (PipelineOrchestrator.Return r), w') ->
  PipelineResult.success r = false /\
  PipelineResult.outputs r = ∅ /\
  RunAudit.overallStatus (PipelineResult.audit r) = StatusFailed /\
  (PipelineResult.failedAt r = Some (agentId stage) \/
   PipelineResult.failedAt r = Some (agentId stage +:+ ":gate")).
Proof.
  unfold PipelineOrchestrator.run_stage.
  destruct (PipelineOrchestrator.agents this !! agentId stage) as [agent|].
  - unfold bind at 1. destruct (before_agent_returns runId stage w) as [t0 ->].
    unfold bind at 1.
    destruct (Agent.run agent _ _ _) as [[result|e] w1]; [|done].
    unfold bind at 1. cbn [Date_now].
    destruct (negb (AgentResult.success result)).
    + unfold bind. cbn. intros [= <- _]. cbn. auto.
    + destruct (gateChecks stage) as [checks|].
      * unfold bind at 1, lift.
        destruct (PipelineOrchestrator.runGateChecks checks _) as [gateResults|e];
          [|done].
        destruct (Nat.ltb 0 _).
        -- unfold bind. cbn. intros [= <- _]. cbn. auto.
        -- unfold bind. cbn. done.
      * unfold bind. cbn. done.
  - unfold bind. cbn. intros [= <- _]. cbn. auto.
Qed.

(** The same holds of the whole loop, for one of the scheduled stages. *)
Lemma run_loop_Return_shape this runId startTime inputHash config sortedStages :
  forall outputs stageResults w r w',
    PipelineOrchestrator.run_loop this runId startTime inputHash config
      sortedStages outputs stageResults w
    = (Returns (PipelineOrchestrator.Return r), w') ->
    PipelineResult.success r = false /\
    PipelineResult.outputs r = ∅ /\
    RunAudit.overallStatus (PipelineResult.audit r) = StatusFailed /\
    exists stage, stage ∈ sortedStages /\
      (PipelineResult.failedAt r = Some (agentId stage) \/
       PipelineResult.failedAt r = Some (agentId stage +:+ ":gate")).
Proof.
  induction sortedStages as [|s rest IH]; intros outputs stageResults w r w';
    cbn [PipelineOrchestrator.run_loop]; [done|].
  unfold bind.
  destruct (PipelineOrchestrator.run_stage this runId startTime inputHash config s
              outputs stageResults w) as [[[o1 r1|r1]|e] w1] eqn:Hstage; [| |done].
  - intros Hrest. apply IH in Hrest as (Hs & Ho & Ha & stage & Hin & Hf).
    repeat split; try done. exists stage. split; [by right | done].
  - unfold ret. intros [= <- <-].
    apply run_stage_Return_shape in Hstage as (Hs & Ho & Ha & Hf).
    repeat split; try done. exists s. split; [by left | done].
Qed.

(** The turn of a stage whose agent reports failure. *)
Lemma run_stage_agent_failure this runId startTime inputHash config stage
    outputs stageResults w agent result w1 :
  PipelineOrchestrator.agents this !! agentId stage = Some agent ->
  Agent.run agent (PipelineOrchestrator.resolveInputs stage outputs)
    (AgentContext.mk runId startTime outputs (PipelineConfig.verbose config))
    (snd (PipelineOrchestrator.before_agent runId stage w)) = (Returns result, w1) ->
  AgentResult.success result = false ->
  exists r w',
    PipelineOrchestrator.run_stage this runId startTime inputHash config stage
      outputs stageResults w = (Returns (PipelineOrchestrator.Return r), w') /\
    PipelineResult.failedAt r = Some (agentId stage) /\
    PipelineResult.errors r = AgentResult.errors result /\
    StageAudit.agentId <$> RunAudit.stages (PipelineResult.audit r)
    = (StageResult.agentId <$> stageResults) ++ [agentId stage] /\
    runJson w' = runJson w1.
Proof.
  intros Hagent Hrun Hfail. unfold PipelineOrchestrator.run_stage.
  rewrite Hagent. unfold bind at 1.
  destruct (before_agent_returns runId stage w) as [t0 ->].
  unfold bind at 1. rewrite Hrun. unfold bind at 1. cbn [Date_now].
  rewrite Hfail. cbn [negb]. unfold bind at 1. cbn [AuditLogger.error].
  match goal with
  | |- context [PipelineOrchestrator.buildFailureResult ?a ?b ?c ?d ?e ?f] =>
      set (sr := f)
  end.
  unfold bind, AuditLogger.error, AuditLogger.log_entry, bind, Date_now,
    AuditLogger.appendJsonLine. cbn [fst snd].
  match goal with
  | |- context [PipelineOrchestrator.buildFailureResult ?a ?b ?c ?d ?e ?f ?w0] =>
      destruct (buildFailureResult_returns a b c d e f w0)
        as (r & w' & -> & _ & _ & _ & Hf & He & _ & Hst & Hj & _)
  end.
  exists r, w'. split; [done|]. split; [done|]. split; [done|].
  split; [|done]. rewrite Hst. subst sr. by rewrite fmap_app.
Qed.

(* ===================================================================== *)
(** ** Fail-fast *)
(* ===================================================================== *)

(** C1, as the code has it.  Let the scheduled order be
    [pre ++ s :: post], let the stages of [pre] complete, and let the
    agent of [s] report failure.  Then [run] returns [success: false]
    with [failedAt] the id of [s], the errors of that stage, and an
    [outputs] map that is empty: it holds no entry at all, neither
    "input" nor the output of a stage that completed. *)
Theorem run_fail_fast `{Crypto} (this : PipelineOrchestrator.t)
    (initialInput : value) (config : PipelineConfig.t) (w : World)
    (runId : string) (startTime : Z) (inputHash : string) (w0 : World)
    (pre : list PipelineStage) (s : PipelineStage) (post : list PipelineStage)
    (artifacts : gmap string value) (stageResults : list StageResult.t)
    (wk : World) (agent : Agent.t) (result : AgentResult.t) (w1 : World) :
  PipelineOrchestrator.run_start initialInput w
  = (Returns (runId, startTime, inputHash), w0) ->
  topologicalSort (PipelineOrchestrator.stages this) = pre ++ s :: post ->
  PipelineOrchestrator.run_loop this runId startTime inputHash config pre
    {[ "input" := initialInput ]} [] w0
  = (Returns (PipelineOrchestrator.Continue artifacts stageResults), wk) ->
  PipelineOrchestrator.agents this !! agentId s = Some agent ->
  Agent.run agent (PipelineOrchestrator.resolveInputs s artifacts)
    (AgentContext.mk runId startTime artifacts (PipelineConfig.verbose config))
    (snd (PipelineOrchestrator.before_agent runId s wk)) = (Returns result, w1) ->
  AgentResult.success result = false ->
  exists r w',
    PipelineOrchestrator.run this initialInput config w = (Returns r, w') /\
    PipelineResult.success r = false /\
    PipelineResult.failedAt r = Some (agentId s) /\
    PipelineResult.errors r = AgentResult.errors result /\
    PipelineResult.outputs r = ∅ /\
    forall id, PipelineResult.outputs r !! id = None.
Proof.
  intros Hstart Horder Hpre Hagent Hrun Hfail.
  destruct (run_stage_agent_failure this runId startTime inputHash config s
              artifacts stageResults wk agent result w1 Hagent Hrun Hfail)
    as (r & w' & Hstage & Hat & Herr & _ & _).
  exists r, w'.
  assert (Hloop :
    PipelineOrchestrator.run_loop this runId startTime inputHash config
      (pre ++ s :: post) {[ "input" := initialInput ]} [] w0
    = (Returns (PipelineOrchestrator.Return r), w')).
  { rewrite run_loop_app, Hpre. cbn [PipelineOrchestrator.run_loop].
    unfold bind. by rewrite Hstage. }
  destruct (run_loop_Return_shape _ _ _ _ _ _ _ _ _ _ _ Hloop) as (Hs & Ho & _).
  split.
  - unfold PipelineOrchestrator.run. unfold bind at 1. rewrite Hstart.
    cbn [fst snd]. unfold bind at 1. by rewrite Horder, Hloop.
  - repeat split; try done. intros id. by rewrite Ho, lookup_empty.
Qed.

Lemma run_fail_fast_witness :
  exists r w',
    PipelineOrchestrator.run (H := Scenario.digest)
      (Scenario.failingB (H := Scenario.digest)) Scenario.input1
      (PipelineConfig.mk None) Scenario.world0 = (Returns r, w') /\
    PipelineResult.success r = false /\
    PipelineResult.failedAt r = Some "B" /\
    PipelineResult.errors r = Some ["boom"] /\
    PipelineResult.outputs r = ∅ /\
    forall id, PipelineResult.outputs r !! id = None.
Proof.
  pose (H := Scenario.digest).
  pose (w0 := snd (PipelineOrchestrator.run_start Scenario.input1 Scenario.world0)).
  pose (startK := PipelineOrchestrator.run_loop Scenario.failingB "run-0" 1000
                    ("sha256:{" +:+ String JS.dquote "n" +:+ String JS.dquote ":1}")
                    (PipelineConfig.mk None) [mkStage "A" [] None]
                    {[ "input" := Scenario.input1 ]} [] w0).
  pose (wk := snd startK).
  pose (called := Agent.run (Scenario.raising "B" "boom") Scenario.input1
                    (AgentContext.mk "run-0" 1000
                       {[ "input" := Scenario.input1; "A" := Scenario.input1 ]} None)
                    (snd (PipelineOrchestrator.before_agent "run-0"
                            (mkStage "B" ["A"] None) wk))).
  destruct (run_fail_fast Scenario.failingB Scenario.input1 (PipelineConfig.mk None)
              Scenario.world0 "run-0" 1000
              ("sha256:{" +:+ String JS.dquote "n" +:+ String JS.dquote ":1}") w0
              [mkStage "A" [] None] (mkStage "B" ["A"] None) [mkStage "C" ["B"] None]
              {[ "input" := Scenario.input1; "A" := Scenario.input1 ]}
              (match fst startK with
               | Returns (PipelineOrchestrator.Continue _ rs) => rs
               | _ => []
               end)
              wk (Scenario.raising "B" "boom")
              (match fst called with
               | Returns res => res
               | Throws _ => AgentResult.mk true None None (AgentMetadata.mk 0 "" None)
               end)
              (snd called))
    as (r & w' & Hrun & Hs & Hat & Herr & Ho & Hnone).
  - vm_compute. reflexivity.
  - vm_compute. reflexivity.
  - vm_compute. reflexivity.
  - vm_compute. reflexivity.
  - vm_compute. reflexivity.
  - vm_compute. reflexivity.
  - exists r, w'. split; [exact Hrun|]. split; [exact Hs|].
    split; [exact Hat|]. split; [exact Herr|]. split; [exact Ho | exact Hnone].
Defined.

(** C1, counterexample (Scenario B).  A -> B -> C with B raising: the
    run fails at "B", stage A has completed (it is in the audit with
    [success: true]), and yet the returned map has neither "input" nor
    "A". *)
Lemma failed_run_returns_no_artifacts :
  exists r w',
    PipelineOrchestrator.run (H := Scenario.digest)
      (Scenario.failingB (H := Scenario.digest)) Scenario.input1
      (PipelineConfig.mk None) Scenario.world0 = (Returns r, w') /\
    PipelineResult.success r = false /\
    PipelineResult.failedAt r = Some "B" /\
    (fun sa => (StageAudit.agentId sa, StageAudit.success sa))
      <$> RunAudit.stages (PipelineResult.audit r) = [("A", true); ("B", false)] /\
    PipelineResult.outputs r !! "input" = None /\
    PipelineResult.outputs r !! "A" = None.
Proof. eexists _, _. split; [vm_compute; reflexivity|]. by repeat split. Qed.

(** Scenario A: the happy path keeps every artifact. *)
Example happy_path_keeps_artifacts :
  exists r w',
    PipelineOrchestrator.run (H := Scenario.digest)
      (Scenario.happy (H := Scenario.digest)) Scenario.input1
      (PipelineConfig.mk None) Scenario.world0 = (Returns r, w') /\
    PipelineResult.success r = true /\
    PipelineResult.outputs r !! "C" = Some Scenario.input1 /\
    RunAudit.overallStatus (PipelineResult.audit r) = StatusSuccess /\
    runJson w' = [PipelineResult.audit r].
Proof. eexists _, _. split; [vm_compute; reflexivity|]. by repeat split. Qed.

(* ===================================================================== *)
(** ** Faults raised by gate checks *)
(* ===================================================================== *)

(** In the orchestrator a check that raises ends [runGateChecks] with
    that fault, whatever the checks before it returned. *)
Lemma runGateChecks_propagates (before : list GateCheckFn) (check : GateCheckFn)
    (after : list GateCheckFn) (ctx : GateContext) (e : thrown) :
  Forall (fun c => exists rs, c ctx = Returns rs) before ->
  check ctx = Throws e ->
  forall results,
    PipelineOrchestrator.runGateChecks_from results (before ++ check :: after) ctx
    = Throws e.
Proof.
  intros Hbefore Hcheck. induction Hbefore as [|c before [rs Hc] _ IH];
    intros results; cbn.
  - by rewrite Hcheck.
  - rewrite Hc. apply IH.
Qed.

(** In the reviewer each check runs in its own [try]: a check that
    raises contributes no result and the others still run. *)
Lemma push_isolated_contains_fault label check ctx allChecks e w :
  check ctx = Throws e ->
  exists w', ReviewerVerifierAgent.push_isolated label check ctx allChecks w
             = (Returns allChecks, w').
Proof.
  intros Hcheck. unfold ReviewerVerifierAgent.push_isolated, try_catch, bind, lift.
  rewrite Hcheck. eexists. reflexivity.
Qed.

(** A gate check that raises makes the turn of its stage raise. *)
Lemma run_stage_gate_fault this runId startTime inputHash config stage
    outputs stageResults w agent result w1 before check after e :
  PipelineOrchestrator.agents this !! agentId stage = Some agent ->
  Agent.run agent (PipelineOrchestrator.resolveInputs stage outputs)
    (AgentContext.mk runId startTime outputs (PipelineConfig.verbose config))
    (snd (PipelineOrchestrator.before_agent runId stage w)) = (Returns result, w1) ->
  AgentResult.success result = true ->
  gateChecks stage = Some (before ++ check :: after) ->
  let ctx := mkGateContext
               (<[agentId stage := default VUndefined (AgentResult.output result)]>
                  outputs) in
  Forall (fun c => exists rs, c ctx = Returns rs) before ->
  check ctx = Throws e ->
  exists w',
    PipelineOrchestrator.run_stage this runId startTime inputHash config stage
      outputs stageResults w = (Throws e, w') /\
    log w' = log w1 /\ runJson w' = runJson w1.
Proof.
  intros Hagent Hrun Hok Hgate ctx Hbefore Hcheck.
  unfold PipelineOrchestrator.run_stage.
  rewrite Hagent. unfold bind at 1.
  destruct (before_agent_returns runId stage w) as [t0 ->].
  unfold bind at 1. rewrite Hrun. unfold bind at 1. cbn [Date_now].
  rewrite Hok. cbn [negb]. rewrite Hgate.
  unfold bind at 1, lift, PipelineOrchestrator.runGateChecks.
  rewrite (runGateChecks_propagates before check after ctx e Hbefore Hcheck).
  eexists. split; [reflexivity|]. by split.
Qed.

(** C2 at its failing input.  A -> B where A carries a gate check that
    raises: [run] does not return a result, the fault leaves it; the audit
    log ends with the 'Starting' record of A, stage B never starts, and
    no run audit is written. *)
Theorem gate_check_fault_aborts_run :
  exists w',
    PipelineOrchestrator.run (H := Scenario.digest)
      (Scenario.brokenGate (H := Scenario.digest)) Scenario.input1
      (PipelineConfig.mk None) Scenario.world0
    = (Throws (ErrorObj "check crashed"), w') /\
    (fun entry => (AuditLogEntry.agentId entry, AuditLogEntry.message entry))
      <$> log w' = [(None, "Pipeline started"); (Some "A", "Starting")] /\
    runJson w' = [].
Proof. eexists. split; [vm_compute; reflexivity|]. by split. Qed.

(* ===================================================================== *)
(** ** The run audit *)
(* ===================================================================== *)

(** Every result with [success: false] that [run] returns comes with an
    audit marked failed and an empty [outputs] map, and names in
    [failedAt] a scheduled stage, or that stage followed by ":gate". *)
Lemma run_failure_shape `{Crypto} this initialInput config w r w' :
  PipelineOrchestrator.run this initialInput config w = (Returns r, w') ->
  PipelineResult.success r = false ->
  PipelineResult.outputs r = ∅ /\
  RunAudit.overallStatus (PipelineResult.audit r) = StatusFailed /\
  exists stage, stage ∈ topologicalSort (PipelineOrchestrator.stages this) /\
    (PipelineResult.failedAt r = Some (agentId stage) \/
     PipelineResult.failedAt r = Some (agentId stage +:+ ":gate")).
Proof.
  unfold PipelineOrchestrator.run. unfold bind at 1.
  destruct (PipelineOrchestrator.run_start initialInput w)
    as [[[[runId startTime] inputHash]|e] w0]; [|done].
  cbn [fst snd]. unfold bind at 1.
  destruct (PipelineOrchestrator.run_loop _ _ _ _ _ _ _ _ _)
    as [[[o rs|r0]|e] w1] eqn:Hloop; [| |done].
  - unfold PipelineOrchestrator.run_success, bind. cbn.
    by intros [= <- _] Hs.
  - unfold ret. intros [= <- <-] _.
    apply run_loop_Return_shape in Hloop as (_ & Ho & Ha & Hst). done.
Qed.

(** C5 at its failing inputs.  The three abort paths (a stage fails, a
    gate check reports an error, an agent is missing) each return an
    audit marked failed that covers the stages executed so far, with
    [failedAt] as specified; but none of them writes the run audit, which
    only the success path does. *)
Theorem failed_run_audit_not_persisted :
  (exists r w',
     PipelineOrchestrator.run (H := Scenario.digest)
       (Scenario.failingB (H := Scenario.digest)) Scenario.input1
       (PipelineConfig.mk None) Scenario.world0 = (Returns r, w') /\
     PipelineResult.failedAt r = Some "B" /\
     RunAudit.overallStatus (PipelineResult.audit r) = StatusFailed /\
     StageAudit.agentId <$> RunAudit.stages (PipelineResult.audit r) = ["A"; "B"] /\
     runJson w' = []) /\
  (exists r w',
     PipelineOrchestrator.run (H := Scenario.digest)
       (Scenario.gateAbort (H := Scenario.digest)) Scenario.input1
       (PipelineConfig.mk None) Scenario.world0 = (Returns r, w') /\
     PipelineResult.failedAt r = Some "A:gate" /\
     RunAudit.overallStatus (PipelineResult.audit r) = StatusFailed /\
     StageAudit.agentId <$> RunAudit.stages (PipelineResult.audit r) = ["A"] /\
     runJson w' = []) /\
  (exists r w',
     PipelineOrchestrator.run (H := Scenario.digest)
       (Scenario.missingAgent (H := Scenario.digest)) Scenario.input1
       (PipelineConfig.mk None) Scenario.world0 = (Returns r, w') /\
     PipelineResult.failedAt r = Some "B" /\
     RunAudit.overallStatus (PipelineResult.audit r) = StatusFailed /\
     StageAudit.agentId <$> RunAudit.stages (PipelineResult.audit r) = ["A"] /\
     runJson w' = []) /\
  (exists r w',
     PipelineOrchestrator.run (H := Scenario.digest)
       (Scenario.happy (H := Scenario.digest)) Scenario.input1
       (PipelineConfig.mk None) Scenario.world0 = (Returns r, w') /\
     PipelineResult.failedAt r = None /\
     RunAudit.overallStatus (PipelineResult.audit r) = StatusSuccess /\
     runJson w' = [PipelineResult.audit r]).
Proof.
  repeat split;
    (eexists _, _; split; [vm_compute; reflexivity|]; by repeat split).
Qed.

(* ===================================================================== *)
(** ** Gate checks without their data *)
(* ===================================================================== *)

(** An artifact that is not in the map lacks every field. *)
Lemma absent_artifact_lacks (ctx : GateContext) (artifact field : string) :
  outputs ctx !! artifact = None -> lacks ctx artifact field.
Proof. unfold lacks, CrossChecks.get. by intros ->. Qed.

(** C4, as the code has it.  Without the data they need, the use-case
    coverage check and the domain alignment check return the single
    result [passed: true], [severity: info], 'Insufficient data ...'; the
    ADR, prompt coverage and scaffold integrity checks return a single
    result with [passed: false] and [severity: error]. *)
Theorem gate_checks_without_data (ctx : GateContext) :
  (lacks ctx "requirements-structurer" "useCases" \/ lacks ctx "api-contract" "paths" ->
   CrossChecks.apiUseCaseCoverageCheck ctx
   = Returns [mkGateCheckResult "api-usecase-coverage" true SevInfo
                "Insufficient data for use case coverage check" None]) /\
  (lacks ctx "domain-model" "entities" \/ lacks ctx "system-architect" "components" ->
   CrossChecks.componentDomainAlignmentCheck ctx
   = Returns [mkGateCheckResult "component-domain-alignment" true SevInfo
                "Insufficient data for domain alignment check" None]) /\
  (lacks ctx "system-architect" "adrs" ->
   CrossChecks.adrCompletenessCheck ctx
   = Returns [mkGateCheckResult "adr-completeness" false SevError
                "No ADRs found in architecture output" None]) /\
  (lacks ctx "prompt-pack-designer" "packs" ->
   CrossChecks.promptCoverageCheck ctx
   = Returns [mkGateCheckResult "prompt-coverage" false SevError
                "No prompt packs generated" None]) /\
  (lacks ctx "scaffold-builder" "files" ->
   CrossChecks.scaffoldIntegrityCheck ctx
   = Returns [mkGateCheckResult "scaffold-integrity" false SevError
                "No scaffold files generated" None]).
Proof.
  unfold lacks. repeat split.
  - unfold CrossChecks.apiUseCaseCoverageCheck. intros [-> | ->]; [done|].
    by rewrite orb_true_r.
  - unfold CrossChecks.componentDomainAlignmentCheck. intros [-> | ->]; [done|].
    by rewrite orb_true_r.
  - unfold CrossChecks.adrCompletenessCheck. by intros ->.
  - unfold CrossChecks.promptCoverageCheck. by intros ->.
  - unfold CrossChecks.scaffoldIntegrityCheck. by intros ->.
Qed.

Lemma gate_checks_without_data_witness :
  let ctx := mkGateContext ∅ in
  lacks ctx "system-architect" "adrs" /\
  lacks ctx "requirements-structurer" "useCases" /\
  CrossChecks.adrCompletenessCheck ctx
  = Returns [mkGateCheckResult "adr-completeness" false SevError
               "No ADRs found in architecture output" None] /\
  CrossChecks.apiUseCaseCoverageCheck ctx
  = Returns [mkGateCheckResult "api-usecase-coverage" true SevInfo
               "Insufficient data for use case coverage check" None].
Proof.
  intros ctx.
  assert (Hadr : lacks ctx "system-architect" "adrs") by reflexivity.
  assert (Huc : lacks ctx "requirements-structurer" "useCases") by reflexivity.
  split; [exact Hadr|]. split; [exact Huc|]. split.
  - exact (proj1 (proj2 (proj2 (gate_checks_without_data ctx))) Hadr).
  - exact (proj1 (gate_checks_without_data ctx) (or_introl Huc)).
Defined.

(** C4, counterexample.  With an empty artifact map the ADR check does
    not answer 'insufficient data': its single result is an error that
    did not pass.  So do the prompt coverage and scaffold integrity
    checks. *)
Lemma missing_artifact_reported_as_error :
  let ctx := mkGateContext ∅ in
  (forall id, outputs ctx !! id = None) /\
  ~ (exists rs, CrossChecks.adrCompletenessCheck ctx = Returns rs /\
                insufficient_data rs) /\
  ~ (exists rs, CrossChecks.promptCoverageCheck ctx = Returns rs /\
                insufficient_data rs) /\
  ~ (exists rs, CrossChecks.scaffoldIntegrityCheck ctx = Returns rs /\
                insufficient_data rs) /\
  exists r, CrossChecks.adrCompletenessCheck ctx = Returns [r] /\
            passed r = false /\ severity r = SevError.
Proof.
  intros ctx. split; [intros id; apply lookup_empty|].
  repeat split.
  - intros (rs & [= <-] & r & [= <-] & Hp & _). discriminate Hp.
  - intros (rs & [= <-] & r & [= <-] & Hp & _). discriminate Hp.
  - intros (rs & [= <-] & r & [= <-] & Hp & _). discriminate Hp.
  - eexists. split; [reflexivity|]. by split.
Qed.

(** Past the guard the checks do their work: three ADRs with
    alternatives pass, a single one is a warning. *)
Example adrCompletenessCheck_examples :
  let adr := VObj [("id", VStr "ADR-1"); ("alternatives", VArr [VStr "other"])] in
  CrossChecks.adrCompletenessCheck
    (mkGateContext {[ "system-architect" := VObj [("adrs", VArr [adr; adr; adr])] ]})
  = Returns [mkGateCheckResult "adr-completeness" true SevInfo
               "3 ADRs with alternatives documented" None] /\
  CrossChecks.adrCompletenessCheck
    (mkGateContext {[ "system-architect" := VObj [("adrs", VArr [adr])] ]})
  = Returns [mkGateCheckResult "adr-completeness" false SevWarning
               "Only 1 ADRs found, expected at least 3"
               (Some (VObj [("adrCount", VNum 1); ("minimum", VNum 3)]))].
Proof. split; reflexivity. Qed.

(* ===================================================================== *)
(** ** Reproducibility of the output hashes *)
(* ===================================================================== *)

(** [computeHash] is a function of the serialized content alone. *)
Lemma computeHash_content `{Crypto} (a b : value) :
  JS.stringify a = JS.stringify b -> computeHash a = computeHash b.
Proof. unfold computeHash. by intros ->. Qed.

(** Whatever the input, the build plan carries the run id. *)
Lemma scaffold_builder_output_carries_runId (input : value)
    (context : AgentContext.t) (plan : value) :
  ScaffoldBuilderAgent.execute_pure input context = Returns plan ->
  JS.prop plan "id"
  = VStr ("buildplan-" +:+ ScaffoldBuilderAgent.planId (AgentContext.runId context)).
Proof.
  unfold ScaffoldBuilderAgent.execute_pure.
  destruct (JS.is_nullish input); [done|]. unfold obind.
  destruct (JS.member _ "meta") as [meta|]; [|done].
  destruct (JS.member meta "name") as [metaName|]; [|done].
  destruct (ScaffoldBuilderAgent.toKebabCase metaName) as [projectName|]; [|done].
  destruct (ScaffoldBuilderAgent.extractResources _) as [resources|]; [|done].
  destruct (ScaffoldBuilderAgent.generateFileList _ _) as [files|]; [|done].
  by intros [= <-].
Qed.

(** C6 at its failing input.  The pipeline made of the scaffold builder
    alone is run twice on the same initial artifact; the two runs draw
    the run ids [runIdA] and [runIdB].  Both succeed; what the stage
    stores carries an [id] derived from the run id, so the two outputs
    serialize to different texts, and the stage's [outputHash] is the
    digest of the one text in the first run and of the other in the
    second: the two hashes are equal only if SHA-256 collides on them. *)
Theorem scaffold_builder_hash_depends_on_runId `{Crypto} :
  let runA := Scenario.scaffoldRun Scenario.runIdA in
  let runB := Scenario.scaffoldRun Scenario.runIdB in
  let planA := Scenario.scaffoldPlan Scenario.runIdA in
  let planB := Scenario.scaffoldPlan Scenario.runIdB in
  Scenario.succeeded runA = true /\ Scenario.succeeded runB = true /\
  Scenario.stored "input" runA = Scenario.stored "input" runB /\
  Scenario.stored "scaffold-builder" runA = Scenario.returned planA /\
  Scenario.stored "scaffold-builder" runB = Scenario.returned planB /\
  Scenario.idOf planA = Some (VStr "buildplan-46d7bd9cafd445da992351e627bed82f") /\
  Scenario.idOf planB = Some (VStr "buildplan-0b5c1e6a7d2f4c3b8a9e1f2d3c4b5a69") /\
  Scenario.jsonOf planA <> Scenario.jsonOf planB /\
  Scenario.outputHashes runA
  = [Some ("sha256:" +:+ sha256_hex (Scenario.jsonOf planA))] /\
  Scenario.outputHashes runB
  = [Some ("sha256:" +:+ sha256_hex (Scenario.jsonOf planB))] /\
  (Scenario.outputHashes runA = Scenario.outputHashes runB ->
   sha256_hex (Scenario.jsonOf planA) = sha256_hex (Scenario.jsonOf planB)).
Proof.
  intros runA runB planA planB.
  assert (HA : Scenario.outputHashes runA
               = [Some ("sha256:" +:+ sha256_hex (Scenario.jsonOf planA))])
    by (vm_compute; reflexivity).
  assert (HB : Scenario.outputHashes runB
               = [Some ("sha256:" +:+ sha256_hex (Scenario.jsonOf planB))])
    by (vm_compute; reflexivity).
  split; [vm_compute; reflexivity|]. split; [vm_compute; reflexivity|].
  split; [vm_compute; reflexivity|]. split; [vm_compute; reflexivity|].
  split; [vm_compute; reflexivity|]. split; [vm_compute; reflexivity|].
  split; [vm_compute; reflexivity|].
  split; [apply String.eqb_neq; vm_compute; reflexivity|].
  split; [exact HA|]. split; [exact HB|].
  rewrite HA, HB.
  generalize (sha256_hex (Scenario.jsonOf planA)) (sha256_hex (Scenario.jsonOf planB)).
  intros a b Heq. injection Heq as Heq. exact Heq.
Qed.

(** With a digest that does not collide on the two texts, the two
    [outputHash] values differ. *)
Lemma scaffold_builder_hashes_differ :
  Scenario.outputHashes (Scenario.scaffoldRun (H := Scenario.digest) Scenario.runIdA)
  <> Scenario.outputHashes (Scenario.scaffoldRun (H := Scenario.digest) Scenario.runIdB).
Proof.
  intros Heq.
  assert (Hb : bool_decide
            (Scenario.outputHashes (Scenario.scaffoldRun (H := Scenario.digest)
                                      Scenario.runIdA)
             = Scenario.outputHashes (Scenario.scaffoldRun (H := Scenario.digest)
                                        Scenario.runIdB)) = true)
    by by apply bool_decide_eq_true_2.
  vm_compute in Hb. discriminate Hb.
Qed.

(* ===================================================================== *)
(** * Further properties of the sources *)
(* ===================================================================== *)

(* ===================================================================== *)
(** ** Lists, strings and the array walks of the sources *)
(* ===================================================================== *)

(** A walk that returned has called [f] on every element, and each call returned. *)
Lemma omapM_Forall2 {A B} (f : A -> outcome B) (l : list A) : forall bs,
  omapM f l = Returns bs -> Forall2 (fun a b => f a = Returns b) l bs.
Proof.
  induction l as [|a l IH]; intros bs; cbn [omapM].
  - intros [= <-]. constructor.
  - destruct (f a) as [b|e] eqn:Ea; cbn [obind]; [|discriminate].
    destruct (omapM f l) as [bs'|e]; cbn [obind]; [|discriminate].
    intros [= <-]. constructor; [exact Ea|]. now apply IH.
Qed.

(** When no call throws, [omapM] is [map]. *)
Lemma omapM_pure {A B} (f : A -> outcome B) (g : A -> B) (l : list A) :
  Forall (fun a => f a = Returns (g a)) l -> omapM f l = Returns (map g l).
Proof.
  induction 1 as [|a l Ha _ IH]; [reflexivity|].
  cbn [omapM map]. now rewrite Ha, IH.
Qed.

(** When no call throws, [ofilterM] is [filter]. *)
Lemma ofilterM_pure {A} (p : A -> outcome bool) (q : A -> bool) (l : list A) :
  Forall (fun a => p a = Returns (q a)) l -> ofilterM p l = Returns (List.filter q l).
Proof.
  induction 1 as [|a l Ha _ IH]; [reflexivity|].
  cbn [ofilterM List.filter]. rewrite Ha, IH. cbn [obind]. now destruct (q a).
Qed.

(** A filter keeps nothing exactly when the predicate fails everywhere. *)
Lemma filter_nil_iff {A} (p : A -> bool) (l : list A) :
  List.filter p l = [] <-> forall x, x ∈ l -> p x = false.
Proof.
  induction l as [|a l IH]; cbn [List.filter].
  - split; [intros _ x Hx; now apply elem_of_nil in Hx|reflexivity].
  - destruct (p a) eqn:Ea.
    + split; [discriminate|]. intros Hall.
      rewrite (Hall a) in Ea by apply list_elem_of_here. discriminate.
    + rewrite IH. split.
      * intros Hall x [->|Hx]%elem_of_cons; [exact Ea|now apply Hall].
      * intros Hall x Hx. apply Hall. now apply list_elem_of_further.
Qed.

Lemma existsb_Exists {A} (p : A -> bool) (l : list A) :
  existsb p l = true <-> Exists (fun x => p x = true) l.
Proof.
  rewrite existsb_exists, Exists_exists. split; intros (x & Hx & Hp); exists x.
  - split; [now apply list_elem_of_In|exact Hp].
  - split; [now apply list_elem_of_In|exact Hp].
Qed.

Lemma existsb_eqb_elem (x : string) (l : list string) :
  existsb (String.eqb x) l = bool_decide (x ∈ l).
Proof.
  induction l as [|y l IH]; cbn [existsb].
  - symmetry. apply bool_decide_eq_false. apply not_elem_of_nil.
  - rewrite IH. destruct (String.eqb x y) eqn:E; cbn [orb].
    + apply String.eqb_eq in E as ->. symmetry. apply bool_decide_eq_true.
      apply list_elem_of_here.
    + apply String.eqb_neq in E. apply bool_decide_ext.
      rewrite elem_of_cons. tauto.
Qed.

(** Only the string itself is identical to a string. *)
Lemma strict_eq_VStr (s : string) (v : value) :
  JS.strict_eq (VStr s) v = true <-> v = VStr s.
Proof.
  destruct v; cbn; try (split; discriminate).
  rewrite String.eqb_eq. split; [now intros ->|now intros [= ->]].
Qed.

Lemma existsb_strict_eq (s : string) (vs : list value) :
  existsb (JS.strict_eq (VStr s)) vs = true <-> VStr s ∈ vs.
Proof.
  rewrite existsb_exists. split.
  - intros (v & Hin & Heq). apply strict_eq_VStr in Heq as ->.
    now apply list_elem_of_In.
  - intros Hin. exists (VStr s). split; [now apply list_elem_of_In|].
    now apply strict_eq_VStr.
Qed.

(** Counting the pairs related by [r] row by row or column by column. *)
Lemma double_count {A B} (r : A -> B -> bool) (ids : list B) (checks : list A) :
  length (concat (map (fun id => List.filter (fun c => r c id) checks) ids))
  = sum_list_with (fun c => length (List.filter (r c) ids)) checks.
Proof.
  induction checks as [|c checks IH].
  - cbn. induction ids; [reflexivity|exact IHids].
  - cbn [sum_list_with]. rewrite <- IH. clear IH.
    induction ids as [|id ids IH]; [reflexivity|].
    cbn [map concat List.filter] in *. rewrite !length_app.
    destruct (r c id); cbn [length] in *; lia.
Qed.

Lemma concat_filter_le {A B} (f : B -> list A) (p : B -> bool) (l : list B) :
  (length (concat (map f (List.filter p l))) <= length (concat (map f l)))%nat.
Proof.
  induction l as [|b l IH]; [reflexivity|].
  cbn [List.filter map concat]. rewrite length_app.
  destruct (p b); cbn [map concat]; rewrite ?length_app; lia.
Qed.

(** An element of a duplicate-free list occurs in it once. *)
Lemma count_once (x : string) (names : list string) :
  NoDup names -> x ∈ names ->
  length (List.filter (String.eqb x) names) = 1%nat.
Proof.
  induction 1 as [|n names Hn Hnd IH]; intros Hin; [now apply elem_of_nil in Hin|].
  cbn [List.filter]. destruct (String.eqb x n) eqn:E.
  - apply String.eqb_eq in E as ->. cbn [length]. f_equal.
    destruct (List.filter _ names) as [|y l] eqn:Ef; [reflexivity|].
    assert (Hy : In y (List.filter (String.eqb n) names)) by (rewrite Ef; now left).
    apply filter_In in Hy as [Hy ->%String.eqb_eq]. apply list_elem_of_In in Hy.
    contradiction.
  - apply IH. apply elem_of_cons in Hin as [->|Hin]; [|exact Hin].
    rewrite String.eqb_refl in E. discriminate.
Qed.

Lemma substring_all (s : string) : String.substring 0 (String.length s) s = s.
Proof. induction s; simpl; congruence. Qed.

Lemma string_length_app (a b : string) :
  String.length (a +:+ b) = (String.length a + String.length b)%nat.
Proof. induction a as [|c a IH]; cbn; [reflexivity|]. now rewrite <- IH. Qed.

Lemma substring_app_suffix (a b : string) :
  String.substring (String.length a) (String.length b) (a +:+ b) = b.
Proof. induction a as [|c a IH]; cbn; [apply substring_all|exact IH]. Qed.

(** The last [length b] characters of [a +:+ b] are [b]. *)
Lemma app_suffix (a b c : string) :
  a +:+ b = c ->
  String.substring (String.length c - String.length b) (String.length b) c = b.
Proof.
  intros <-. rewrite string_length_app.
  replace (String.length a + String.length b - String.length b)%nat
    with (String.length a) by lia.
  apply substring_app_suffix.
Qed.

Lemma substring_0_length (n : nat) (s : string) :
  (String.length (String.substring 0 n s) <= n)%nat.
Proof.
  revert s. induction n as [|n IH]; intros [|c s]; simpl; try lia.
  specialize (IH s). lia.
Qed.

Lemma substring_0_forall (p : ascii -> bool) (n : nat) (s : string) :
  string_forall p s = true -> string_forall p (String.substring 0 n s) = true.
Proof.
  revert s. induction n as [|n IH]; intros [|c s]; simpl; try reflexivity.
  intros [Hc Hs]%andb_true_iff. rewrite Hc. now apply IH.
Qed.

Lemma substring_0_short (n : nat) (s : string) :
  (String.length s <= n)%nat -> String.substring 0 n s = s.
Proof.
  revert s. induction n as [|n IH]; intros [|c s]; simpl; try reflexivity; try lia.
  intros Hl. f_equal. apply IH. lia.
Qed.

(* ===================================================================== *)
(** ** Content fingerprint: verification and the digest part *)
(* ===================================================================== *)

(** [JSON.stringify] answers [undefined] for [undefined] only. *)
Lemma stringify_None (v : value) : JS.stringify v = None <-> v = VUndefined.
Proof.
  destruct v as [| |[]| | | |]; simpl; split; intros E; try discriminate; reflexivity.
Qed.

(** Hence [computeHash] returns for every other value. *)
Lemma computeHash_returns `{Crypto} (data : value) :
  data <> VUndefined ->
  exists json, JS.stringify data = Some json /\
               computeHash data = Returns ("sha256:" +:+ sha256_hex json).
Proof.
  intros Hd. unfold computeHash.
  destruct (JS.stringify data) as [json|] eqn:E.
  - eauto.
  - apply stringify_None in E. contradiction.
Qed.

(** A string is never equal to itself behind a non-empty prefix. *)
Lemma prefixed_differs (p s : string) :
  p <> "" -> String.eqb (p +:+ s) s = false.
Proof.
  intros Hp. apply String.eqb_neq. intros E.
  apply (f_equal String.length) in E. rewrite string_length_app in E.
  destruct p; [done|]. simpl in E. lia.
Qed.

(** [extractHashHex] gives back what stands behind the prefix. *)
Lemma extractHashHex_prefixed (hex : string) :
  extractHashHex ("sha256:" +:+ hex) = hex.
Proof.
  unfold extractHashHex, substring_from.
  change ("sha256:" +:+ hex) with
    (String "s" (String "h" (String "a" (String "2" (String "5" (String "6"
       (String ":" hex))))))).
  cbn. replace (String.prefix "" hex) with true by (now destruct hex).
  rewrite Nat.sub_0_r. apply substring_all.
Qed.

(** X1.  For data whose [JSON.stringify] is the text [json], [verifyHash]
    returns, and answers true for one expected hash only: 'sha256:'
    followed by the digest of [json], which is [computeStringHash(json)].
    So the bare digest without the prefix is refused, [extractHashHex] of
    an accepted hash is the digest of [json], and two data with the same
    JSON text are verified by the same hashes. *)
Theorem verifyHash_accepts_hash_of_json_text `{Crypto}
    (data : value) (json : string) :
  JS.stringify data = Some json ->
  verifyHash data (computeStringHash json) = Returns true /\
  verifyHash data (sha256_hex json) = Returns false /\
  (forall expectedHash, exists b,
     verifyHash data expectedHash = Returns b /\
     (b = true <-> expectedHash = "sha256:" +:+ sha256_hex json)) /\
  (forall expectedHash, verifyHash data expectedHash = Returns true ->
     extractHashHex expectedHash = sha256_hex json) /\
  (forall other, JS.stringify other = Some json ->
     forall expectedHash,
       verifyHash other expectedHash = verifyHash data expectedHash).
Proof.
  intros Hjson.
  assert (Hv : forall d, JS.stringify d = Some json -> forall h,
    verifyHash d h = Returns (String.eqb ("sha256:" +:+ sha256_hex json) h)).
  { intros d Hd h. unfold verifyHash, computeHash. now rewrite Hd. }
  split; [|split; [|split; [|split]]].
  - rewrite (Hv data Hjson). unfold computeStringHash. now rewrite String.eqb_refl.
  - rewrite (Hv data Hjson). now rewrite prefixed_differs.
  - intros h. eexists. split; [apply (Hv data Hjson)|].
    rewrite String.eqb_eq. split; congruence.
  - intros h Hh. rewrite (Hv data Hjson) in Hh.
    assert (E : String.eqb ("sha256:" +:+ sha256_hex json) h = true) by congruence.
    apply String.eqb_eq in E. subst h. apply extractHashHex_prefixed.
  - intros other Ho h. now rewrite (Hv other Ho), (Hv data Hjson).
Qed.

Lemma verifyHash_accepts_hash_of_json_text_witness :
  JS.stringify (VArr [VNum 1; VNum 2]) = Some "[1,2]" /\
  verifyHash (H := Scenario.digest) (VArr [VNum 1; VNum 2]) "sha256:[1,2]" = Returns true /\
  verifyHash (H := Scenario.digest) (VArr [VNum 1; VNum 2]) "[1,2]" = Returns false.
Proof.
  assert (Hj : JS.stringify (VArr [VNum 1; VNum 2]) = Some "[1,2]")
    by (vm_compute; reflexivity).
  destruct (verifyHash_accepts_hash_of_json_text (H := Scenario.digest) _ _ Hj)
    as (Hyes & Hno & _).
  split; [exact Hj|]. split; [exact Hyes|exact Hno].
Defined.

(** X2.  [extractHashHex] removes the 'sha256:' prefix and nothing else: it
    gives back the hex digest of a computed hash, leaves a string without
    the prefix as it is, and prefixing its result again restores any hash
    that [computeHash] returned. *)
Theorem extractHashHex_strips_prefix `{Crypto} :
  (forall hex, extractHashHex ("sha256:" +:+ hex) = hex) /\
  (forall str, extractHashHex (computeStringHash str) = sha256_hex str) /\
  (forall hash, String.prefix "sha256:" hash = false -> extractHashHex hash = hash) /\
  (forall data hash, computeHash data = Returns hash ->
     "sha256:" +:+ extractHashHex hash = hash).
Proof.
  assert (Hstrip : forall hex, extractHashHex ("sha256:" +:+ hex) = hex).
  { intros hex. unfold extractHashHex, substring_from.
    change ("sha256:" +:+ hex) with
      (String "s" (String "h" (String "a" (String "2" (String "5" (String "6"
         (String ":" hex))))))).
    cbn. replace (String.prefix "" hex) with true by (now destruct hex).
    rewrite Nat.sub_0_r. apply substring_all. }
  repeat split.
  - exact Hstrip.
  - intros str. apply Hstrip.
  - intros hash E. unfold extractHashHex. now rewrite E.
  - intros data hash. unfold computeHash.
    destruct (JS.stringify data); intros [= <-]. now rewrite Hstrip.
Qed.

Lemma stringify_fields_filter (fields : list (string * value)) :
  omap (fun kv => match JS.stringify (snd kv) with
                  | Some j => Some (JS.json_quote (fst kv) +:+ ":" +:+ j)
                  | None => None
                  end) (List.filter (fun kv => negb (is_undefined (snd kv))) fields)
  = omap (fun kv => match JS.stringify (snd kv) with
                  | Some j => Some (JS.json_quote (fst kv) +:+ ":" +:+ j)
                  | None => None
                  end) fields.
Proof.
  induction fields as [|[k v] fields IH]; [reflexivity|].
  cbn [List.filter snd fst].
  destruct v as [| |[]| | | |]; cbn [is_undefined negb omap list_omap JS.stringify snd fst];
    try (f_equal; exact IH); exact IH.
Qed.

(** X3.  The fingerprint is taken of the JSON text, so it does not see
    [undefined]: an object hashes like the same object without its
    properties whose value is [undefined], and an array like the same array
    with [null] in the place of each [undefined]. *)
Theorem computeHash_blind_to_undefined `{Crypto} :
  (forall fields,
     computeHash (VObj (List.filter (fun kv => negb (is_undefined (snd kv))) fields))
     = computeHash (VObj fields)) /\
  (forall items,
     computeHash (VArr (map (fun x => if is_undefined x then VNull else x) items))
     = computeHash (VArr items)).
Proof.
  split.
  - intros fields. apply computeHash_content. cbn [JS.stringify].
    now rewrite stringify_fields_filter.
  - intros items. apply computeHash_content. cbn [JS.stringify].
    rewrite map_map.
    rewrite (map_ext _ (fun x => default "null" (JS.stringify x))); [reflexivity|].
    intros [| |[]| | | |]; reflexivity.
Qed.

(* ===================================================================== *)
(** ** The stage executor: the two contracts *)
(* ===================================================================== *)

(** X4.  When the input contract is declared and the validator rejects the
    input, [BaseAgent.run] returns a failure whose single error is 'Input
    validation failed: ' followed by the validator's messages joined by ', ',
    with no output and no output hash but with the hash of the input; the
    result and the environment are the same whatever the stage logic is:
    the logic is not called. *)
Theorem BaseAgent_input_contract `{Crypto} (config : AgentConfig.t)
    (validator : SchemaValidator) (input : value) (context : AgentContext.t)
    (w : World) (verdict : ValidationResult.t) :
  input <> VUndefined ->
  BaseAgent.has_schema (AgentConfig.inputSchema config) = true ->
  (forall w0, exists w1,
     validator (AgentConfig.inputSchema config) input w0 = (Returns verdict, w1)) ->
  ValidationResult.success verdict = false ->
  exists r w',
    (forall execute,
       BaseAgent.run config validator execute input context w = (Returns r, w')) /\
    AgentResult.success r = false /\
    AgentResult.output r = None /\
    AgentResult.errors r
    = Some ["Input validation failed: "
            +:+ BaseAgent.joined_errors (ValidationResult.errors verdict)] /\
    computeHash input = Returns (AgentMetadata.inputHash (AgentResult.metadata r)) /\
    AgentMetadata.outputHash (AgentResult.metadata r) = None.
Proof.
  intros Hdef Hschema Hv Hrej.
  destruct (computeHash_returns input Hdef) as (json & _ & Hh).
  assert (Hearly : exists r w',
            BaseAgent.before_try config validator input context w
            = (Returns (inl r), w') /\
            AgentResult.success r = false /\ AgentResult.output r = None /\
            AgentResult.errors r
            = Some ["Input validation failed: "
                    +:+ BaseAgent.joined_errors (ValidationResult.errors verdict)] /\
            AgentMetadata.inputHash (AgentResult.metadata r)
            = "sha256:" +:+ sha256_hex json /\
            AgentMetadata.outputHash (AgentResult.metadata r) = None).
  { unfold BaseAgent.before_try. rewrite Hschema, Hh.
    unfold bind, Date_now, lift.
    destruct (BaseAgent.is_verbose context); unfold console_log, ret;
      match goal with
      | |- context [validator _ input ?w0] => destruct (Hv w0) as [w1 ->]
      end; rewrite Hrej; cbn; eexists _, _; (split; [reflexivity|]); cbn; auto. }
  destruct Hearly as (r & w' & Hbt & Hs & Ho & He & Hi & Hoh).
  exists r, w'. split; [|rewrite Hh, Hi; auto].
  intros execute. unfold BaseAgent.run, bind. now rewrite Hbt.
Qed.

Lemma BaseAgent_input_contract_witness :
  exists r w',
    (forall execute,
       BaseAgent.run (H := Scenario.digest) (Scenario.contractCfg "A")
         (Scenario.rejecting "in.json") execute Scenario.input1
         (AgentContext.mk "run-0" 1000 ∅ None) Scenario.world0 = (Returns r, w')) /\
    AgentResult.success r = false /\
    AgentResult.errors r
    = Some ["Input validation failed: /: must be object, /id: is required"].
Proof.
  destruct (BaseAgent_input_contract (H := Scenario.digest) (Scenario.contractCfg "A")
              (Scenario.rejecting "in.json") Scenario.input1
              (AgentContext.mk "run-0" 1000 ∅ None) Scenario.world0
              (ValidationResult.mk false
                 (Some ["/: must be object"; "/id: is required"])))
    as (r & w' & Hrun & Hs & _ & He & _).
  - discriminate.
  - reflexivity.
  - intros w0. eexists. reflexivity.
  - reflexivity.
  - exists r, w'. split; [exact Hrun|]. split; [exact Hs|exact He].
Defined.

(** X5.  When the stage logic returned and the validator rejects its output
    against the declared output contract, [BaseAgent.run] returns a failure
    whose single error is 'Output validation failed: ' followed by the
    validator's messages; the output is dropped and no output hash is
    recorded. *)
Theorem BaseAgent_output_contract `{Crypto} (config : AgentConfig.t)
    (validator : SchemaValidator) (execute : value -> AgentContext.t -> M value)
    (input : value) (context : AgentContext.t) (w : World)
    (startTime : Z) (inputHash : string) (w1 : World)
    (output : value) (w2 : World) (verdict : ValidationResult.t) (w3 : World) :
  BaseAgent.before_try config validator input context w
  = (Returns (inr (startTime, inputHash)), w1) ->
  execute input context w1 = (Returns output, w2) ->
  BaseAgent.has_schema (AgentConfig.outputSchema config) = true ->
  validator (AgentConfig.outputSchema config) output w2 = (Returns verdict, w3) ->
  ValidationResult.success verdict = false ->
  exists r w',
    BaseAgent.run config validator execute input context w = (Returns r, w') /\
    AgentResult.success r = false /\
    AgentResult.output r = None /\
    AgentResult.errors r
    = Some ["Output validation failed: "
            +:+ BaseAgent.joined_errors (ValidationResult.errors verdict)] /\
    AgentMetadata.inputHash (AgentResult.metadata r) = inputHash /\
    AgentMetadata.outputHash (AgentResult.metadata r) = None.
Proof.
  intros Hbt Hexec Hschema Hv Hrej.
  unfold BaseAgent.run, bind at 1. rewrite Hbt.
  unfold try_catch, BaseAgent.try_block, bind at 1. rewrite Hexec.
  rewrite Hschema. unfold bind at 1. rewrite Hv, Hrej. cbn.
  eexists _, _. split; [reflexivity|]. cbn. auto.
Qed.

Lemma BaseAgent_output_contract_witness :
  exists r w',
    BaseAgent.run (H := Scenario.digest) (Scenario.contractCfg "A")
      (Scenario.rejecting "out.json") (fun input _ => ret input) Scenario.input1
      (AgentContext.mk "run-0" 1000 ∅ None) Scenario.world0 = (Returns r, w') /\
    AgentResult.success r = false /\
    AgentResult.output r = None /\
    AgentResult.errors r
    = Some ["Output validation failed: /: must be object, /id: is required"].
Proof.
  edestruct (BaseAgent_output_contract (H := Scenario.digest)) with
    (config := Scenario.contractCfg "A") (validator := Scenario.rejecting "out.json")
    (execute := fun (input : value) (_ : AgentContext.t) => ret (A := value) input)
    (input := Scenario.input1) (context := AgentContext.mk "run-0" 1000 ∅ None)
    (w := Scenario.world0)
    as (r & w' & Hrun & Hs & Ho & He & _).
  - vm_compute. reflexivity.
  - reflexivity.
  - reflexivity.
  - reflexivity.
  - reflexivity.
  - exists r, w'. split; [exact Hrun|]. split; [exact Hs|]. split; [exact Ho|exact He].
Defined.

(** X6.  When the stage logic returned [output] and the output contract is
    absent or accepts it, [BaseAgent.run] succeeds exactly when [output] is
    not [undefined].  It then hands back the output with its hash and no
    errors.  On [undefined] the hash cannot be taken: that fault, an
    [Error], is caught like one of the logic, and the result is a failure
    whose [errors] holds the message of that [Error] and nothing else. *)
Theorem BaseAgent_result_of_output `{Crypto} (config : AgentConfig.t)
    (validator : SchemaValidator) (execute : value -> AgentContext.t -> M value)
    (input : value) (context : AgentContext.t) (w : World)
    (startTime : Z) (inputHash : string) (w1 : World)
    (output : value) (w2 : World) (verdict : ValidationResult.t) (w3 : World) :
  BaseAgent.before_try config validator input context w
  = (Returns (inr (startTime, inputHash)), w1) ->
  execute input context w1 = (Returns output, w2) ->
  (if BaseAgent.has_schema (AgentConfig.outputSchema config)
   then validator (AgentConfig.outputSchema config) output
   else ret (ValidationResult.mk true None)) w2 = (Returns verdict, w3) ->
  ValidationResult.success verdict = true ->
  exists r w',
    BaseAgent.run config validator execute input context w = (Returns r, w') /\
    AgentMetadata.inputHash (AgentResult.metadata r) = inputHash /\
    (AgentResult.success r = true <-> output <> VUndefined) /\
    (output <> VUndefined ->
     AgentResult.output r = Some output /\
     AgentResult.errors r = None /\
     exists outputHash,
       computeHash output = Returns outputHash /\
       AgentMetadata.outputHash (AgentResult.metadata r) = Some outputHash) /\
    (output = VUndefined ->
     AgentResult.output r = None /\
     AgentMetadata.outputHash (AgentResult.metadata r) = None /\
     exists message,
       computeHash output = Throws (ErrorObj message) /\
       AgentResult.errors r = Some [message]).
Proof.
  intros Hbt Hexec Hv Hacc.
  unfold BaseAgent.run, bind at 1. rewrite Hbt.
  unfold try_catch, BaseAgent.try_block, bind at 1. rewrite Hexec.
  unfold bind at 1. rewrite Hv, Hacc. cbn [negb].
  unfold bind at 1, lift.
  destruct (computeHash output) as [outputHash|e] eqn:Eh.
  - assert (Hdef : output <> VUndefined).
    { intros ->. unfold computeHash in Eh. discriminate. }
    destruct (BaseAgent.is_verbose context); unfold bind, Date_now, console_log, ret;
      cbn; eexists _, _; (split; [reflexivity|]); cbn;
      (split; [reflexivity|]); (split; [tauto|]); split; [eauto|tauto|eauto|tauto].
  - assert (Hundef : output = VUndefined).
    { unfold computeHash in Eh. destruct (JS.stringify output) eqn:Ej; [discriminate|].
      now apply stringify_None in Ej. }
    subst output. unfold computeHash in Eh. cbn in Eh. injection Eh as <-.
    unfold BaseAgent.failure, bind, Date_now, ret. cbn.
    eexists _, _. split; [reflexivity|]. cbn. split; [reflexivity|].
    split; [split; [discriminate|tauto]|]. split; [tauto|]. intros _.
    split; [reflexivity|]. split; [reflexivity|]. eexists. split; reflexivity.
Qed.

Lemma BaseAgent_result_of_output_witness :
  exists r w',
    BaseAgent.run (H := Scenario.digest) (Scenario.cfg "A") Scenario.accept
      (fun _ _ => ret VUndefined) Scenario.input1
      (AgentContext.mk "run-0" 1000 ∅ None) Scenario.world0 = (Returns r, w') /\
    AgentResult.success r = false /\
    AgentResult.output r = None.
Proof.
  edestruct (BaseAgent_result_of_output (H := Scenario.digest)) with
    (config := Scenario.cfg "A") (validator := Scenario.accept)
    (execute := fun (_ : value) (_ : AgentContext.t) => ret (A := value) VUndefined)
    (input := Scenario.input1) (context := AgentContext.mk "run-0" 1000 ∅ None)
    (w := Scenario.world0)
    as (r & w' & Hrun & _ & Hs & _ & Hu).
  - vm_compute. reflexivity.
  - reflexivity.
  - reflexivity.
  - reflexivity.
  - exists r, w'. split; [exact Hrun|]. split.
    + destruct (AgentResult.success r); [|reflexivity].
      now destruct (proj1 Hs eq_refl).
    + now destruct (Hu eq_refl).
Defined.

(* ===================================================================== *)
(** ** Scheduler: the queue is first in, first out *)
(* ===================================================================== *)

Lemma relax_queue_extends stages acc depId :
  exists added, snd (relax stages acc depId) = snd acc ++ added.
Proof.
  unfold relax. destruct (fst acc !! depId) as [d|]; [|exists []; now rewrite app_nil_r].
  cbv zeta. destruct (d - 1 =? 0); [|exists []; cbn; now rewrite app_nil_r].
  destruct (find_stage stages depId); [eexists; reflexivity|].
  exists []. cbn. now rewrite app_nil_r.
Qed.

Lemma foldl_relax_queue_extends stages deps : forall acc,
  exists added, snd (foldl (relax stages) acc deps) = snd acc ++ added.
Proof.
  induction deps as [|d deps IH]; intros acc; cbn [foldl].
  - exists []. now rewrite app_nil_r.
  - destruct (IH (relax stages acc d)) as [added2 ->].
    destruct (relax_queue_extends stages acc d) as [added1 ->].
    exists (added1 ++ added2). now rewrite app_assoc.
Qed.

(** The loop emits what is already sorted, then the queue in its order, then what it enqueues later. *)
Lemma kahn_loop_fifo fuel : forall stages graph inDegree queue sorted result,
  kahn_loop fuel stages graph inDegree queue sorted = Some result ->
  exists rest, result = sorted ++ queue ++ rest.
Proof.
  induction fuel as [|fuel IH]; intros stages graph inDegree queue sorted result.
  - destruct queue; cbn; [|discriminate]. intros [= <-]. exists [].
    now rewrite !app_nil_r.
  - destruct queue as [|stage queue']; cbn [kahn_loop].
    + intros [= <-]. exists []. now rewrite !app_nil_r.
    + intros Hr. apply IH in Hr as [rest ->].
      destruct (foldl_relax_queue_extends stages
                  (default [] (graph !! agentId stage)) (inDegree, queue'))
        as [added ->].
      cbn [snd]. exists (added ++ rest). now rewrite <- !app_assoc.
Qed.

(** X7.  The scheduler's queue is first in, first out: the order starts with
    the stages that depend on nothing, in declaration order.  For the
    pipeline of the registry this puts 'prompt-pack-designer' third, before
    'system-architect', although it is declared fifth. *)
Theorem topologicalSort_roots_first (stages : list PipelineStage) :
  (exists rest, topologicalSort stages = initial_queue stages ++ rest) /\
  agentId <$> topologicalSort AGENT_PIPELINE
  = [ "requirements-structurer"; "domain-model"; "prompt-pack-designer";
      "system-architect"; "api-contract"; "scaffold-builder"; "reviewer-verifier" ].
Proof.
  split; [|vm_compute; reflexivity].
  unfold topologicalSort. destruct (kahn stages) as [result|] eqn:Hk.
  - unfold kahn in Hk. apply kahn_loop_fifo in Hk as [rest ->]. cbn. eauto.
  - pose proof (kahn_total stages) as [? Hs]. congruence.
Qed.

(** X8.  With unique stage ids the scheduler never schedules a stage twice,
    and schedules declared stages only. *)
Theorem topologicalSort_schedules_once (stages : list PipelineStage) :
  unique_ids stages ->
  NoDup (agentId <$> topologicalSort stages) /\
  (forall s, s ∈ topologicalSort stages -> s ∈ stages).
Proof.
  intros Hnd. destruct (topologicalSort_sound stages Hnd) as (Hsub & Hnodup & _).
  split; [exact Hnodup|exact Hsub].
Qed.

Lemma topologicalSort_schedules_once_witness :
  NoDup (agentId <$> topologicalSort Scenario.dangling) /\
  (forall s, s ∈ topologicalSort Scenario.dangling -> s ∈ Scenario.dangling).
Proof.
  destruct (topologicalSort_schedules_once Scenario.dangling) as (Hn & Hs).
  - unfold unique_ids. refine (bool_decide_unpack _ _). vm_compute. exact I.
  - split; [exact Hn|exact Hs].
Defined.

(* ===================================================================== *)
(** ** Input resolution when dependencies share a key *)
(* ===================================================================== *)

(** Reading a property after an assignment. *)
Lemma assoc_obj_set (fields : list (string * value)) (k k' : string) (v : value) :
  JS.assoc k (JS.obj_set fields k' v)
  = if String.eqb k' k then Some v else JS.assoc k fields.
Proof.
  induction fields as [|[k0 v0] fields IH]; cbn [JS.obj_set JS.assoc].
  - reflexivity.
  - destruct (String.eqb k0 k') eqn:E0; cbn [JS.assoc].
    + apply String.eqb_eq in E0. subst k0. now destruct (String.eqb k' k).
    + destruct (String.eqb k0 k) eqn:E1; [|exact IH].
      apply String.eqb_eq in E1. subst k0. now rewrite String.eqb_sym, E0.
Qed.

(** The composite object of [resolveInputs], read at a key. *)
Lemma assemble_lookup (outputs : gmap string value) (k : string) (deps : list string) :
  forall acc : list (string * value),
    JS.assoc k
      (foldl (fun input depId =>
                JS.obj_set input (PipelineOrchestrator.dependencyToKey depId)
                           (PipelineOrchestrator.outputs_get outputs depId))
             acc deps)
    = match last_with_key k deps with
      | Some d => Some (PipelineOrchestrator.outputs_get outputs d)
      | None => JS.assoc k acc
      end.
Proof.
  unfold last_with_key.
  induction deps as [|d deps IH]; intros acc; [reflexivity|].
  cbn [foldl List.filter]. rewrite IH, assoc_obj_set.
  destruct (String.eqb (PipelineOrchestrator.dependencyToKey d) k) eqn:E.
  - destruct (List.filter _ deps) as [|d' l] eqn:Ef; [reflexivity|].
    rewrite last_cons_cons. destruct (last (d' :: l)) eqn:El; [reflexivity|].
    apply last_None in El. discriminate.
  - reflexivity.
Qed.

(** X9.  In the composite input of a stage with two or more dependencies,
    the property for a dependency's key holds the stored output of the last
    dependency that has this key: dependencies that share a key overwrite
    each other.  (Ids that name an inherited property are excluded as in
    C10.) *)
Theorem resolveInputs_last_wins (stage : PipelineStage)
    (artifacts : gmap string value) (dep : string) :
  (2 <= length (dependsOn stage))%nat ->
  Forall (fun d => d ∉ PipelineOrchestrator.inherited_names) (dependsOn stage) ->
  dep ∈ dependsOn stage ->
  exists winner,
    last_with_key (PipelineOrchestrator.dependencyToKey dep) (dependsOn stage)
    = Some winner /\
    JS.prop (PipelineOrchestrator.resolveInputs stage artifacts)
            (PipelineOrchestrator.dependencyToKey dep)
    = PipelineOrchestrator.outputs_get artifacts winner.
Proof.
  intros Hlen _ Hdep.
  assert (Hsome : is_Some (last_with_key (PipelineOrchestrator.dependencyToKey dep)
                             (dependsOn stage))).
  { unfold last_with_key.
    assert (Hin : dep ∈ List.filter
              (fun d => String.eqb (PipelineOrchestrator.dependencyToKey d)
                          (PipelineOrchestrator.dependencyToKey dep))
              (dependsOn stage)).
    { apply list_elem_of_In, filter_In. split; [now apply list_elem_of_In|].
      apply String.eqb_refl. }
    destruct (List.filter _ _) as [|x l] using rev_ind;
      [now apply elem_of_nil in Hin|].
    rewrite last_snoc. eauto. }
  destruct Hsome as [winner Hw]. exists winner. split; [exact Hw|].
  unfold PipelineOrchestrator.resolveInputs.
  destruct (dependsOn stage) as [|a [|b deps]] eqn:Ed; cbn [length] in Hlen; try lia.
  cbn [JS.prop]. rewrite assemble_lookup, Hw. reflexivity.
Qed.

Lemma resolveInputs_last_wins_witness :
  let stage := mkStage "s" ["domain-model"; "domainModel"] None in
  let artifacts : gmap string value :=
    {[ "domain-model" := VNum 1; "domainModel" := VNum 2 ]} in
  JS.prop (PipelineOrchestrator.resolveInputs stage artifacts) "domainModel" = VNum 2.
Proof.
  cbv zeta.
  destruct (resolveInputs_last_wins
              (mkStage "s" ["domain-model"; "domainModel"] None)
              {[ "domain-model" := VNum 1; "domainModel" := VNum 2 ]}
              "domain-model") as (winner & Hw & Hp).
  - cbn. lia.
  - repeat constructor; refine (bool_decide_unpack _ _); vm_compute; exact I.
  - apply list_elem_of_here.
  - vm_compute in Hw. injection Hw as <-. exact Hp.
Defined.

(* ===================================================================== *)
(** ** The gate runner of the orchestrator *)
(* ===================================================================== *)

(** The accumulating loop of [runGateChecks], from [results]. *)
Lemma runGateChecks_from_spec (ctx : GateContext) (checks : list GateCheckFn) :
  forall results,
    PipelineOrchestrator.runGateChecks_from results checks ctx
    = match first_fault ctx checks with
      | Some e => Throws e
      | None => Returns (results ++ flat_map (contribution ctx) checks)
      end.
Proof.
  induction checks as [|check rest IH]; intros results.
  - cbn. now rewrite app_nil_r.
  - cbn [PipelineOrchestrator.runGateChecks_from first_fault flat_map].
    unfold contribution at 1.
    destruct (check ctx) as [rs|e]; [|reflexivity].
    rewrite IH. destruct (first_fault ctx rest); [reflexivity|].
    now rewrite app_assoc.
Qed.

(** X10.  [runGateChecks] returns the results of all checks in the order of
    the checks, unless one throws: then the first fault is thrown and the
    results gathered so far are lost. *)
Theorem runGateChecks_collects (checks : list GateCheckFn)
    (outputs : gmap string value) :
  let ctx := mkGateContext outputs in
  PipelineOrchestrator.runGateChecks checks outputs
  = match first_fault ctx checks with
    | Some e => Throws e
    | None => Returns (flat_map (contribution ctx) checks)
    end.
Proof.
  cbv zeta. unfold PipelineOrchestrator.runGateChecks.
  now rewrite runGateChecks_from_spec.
Qed.

(* ===================================================================== *)
(** ** Turns of the run loop *)
(* ===================================================================== *)

(** A turn that goes on has stored one output and appended one successful stage result. *)
Lemma run_stage_Continue_shape this runId startTime inputHash config stage
    outputs stageResults w outputs' stageResults' w' :
  PipelineOrchestrator.run_stage this runId startTime inputHash config stage
    outputs stageResults w
  = (Returns (PipelineOrchestrator.Continue outputs' stageResults'), w') ->
  exists v sr,
    outputs' = <[agentId stage := v]> outputs /\
    stageResults' = stageResults ++ [sr] /\
    StageResult.agentId sr = agentId stage /\
    StageResult.success sr = true.
Proof.
  unfold PipelineOrchestrator.run_stage.
  destruct (PipelineOrchestrator.agents this !! agentId stage) as [agent|].
  - unfold bind at 1. destruct (before_agent_returns runId stage w) as [t0 ->].
    unfold bind at 1.
    destruct (Agent.run agent _ _ _) as [[result|e] w1]; [|done].
    unfold bind at 1. cbn [Date_now].
    destruct (negb (AgentResult.success result)) eqn:Es.
    + unfold bind. cbn. done.
    + apply negb_false_iff in Es.
      destruct (gateChecks stage) as [checks|].
      * unfold bind at 1, lift.
        destruct (PipelineOrchestrator.runGateChecks checks _) as [gateResults|e];
          [|done].
        destruct (Nat.ltb 0 _).
        -- unfold bind. cbn. done.
        -- unfold bind. cbn. intros [= <- <- _]. eexists _, _. eauto.
      * unfold bind. cbn. intros [= <- <- _]. eexists _, _. eauto.
  - unfold bind. cbn. done.
Qed.

(** A loop that ends without returning has done so for every stage it was given. *)
Lemma run_loop_Continue_shape this runId startTime inputHash config sortedStages :
  forall outputs stageResults w outputs' stageResults' w',
    PipelineOrchestrator.run_loop this runId startTime inputHash config
      sortedStages outputs stageResults w
    = (Returns (PipelineOrchestrator.Continue outputs' stageResults'), w') ->
    exists completed,
      stageResults' = stageResults ++ completed /\
      StageResult.agentId <$> completed = agentId <$> sortedStages /\
      Forall (fun sr => StageResult.success sr = true) completed /\
      forall k, is_Some (outputs' !! k)
                <-> is_Some (outputs !! k) \/ k ∈ agentId <$> sortedStages.
Proof.
  induction sortedStages as [|s rest IH];
    intros outputs stageResults w outputs' stageResults' w';
    cbn [PipelineOrchestrator.run_loop].
  - unfold ret. intros [= <- <- _]. exists []. rewrite app_nil_r.
    split; [done|]. split; [done|]. split; [constructor|].
    intros k. cbn. rewrite elem_of_nil. tauto.
  - unfold bind.
    destruct (PipelineOrchestrator.run_stage this runId startTime inputHash config s
                outputs stageResults w) as [[[o1 r1|r1]|e] w1] eqn:Hstage;
      [| done | done].
    intros Hrest.
    apply run_stage_Continue_shape in Hstage as (v & sr & -> & -> & Hid & Hok).
    apply IH in Hrest as (completed & -> & Hids & Hall & Hkeys).
    exists (sr :: completed). rewrite <- app_assoc. split; [done|].
    split; [cbn; by rewrite Hid, Hids|]. split; [by constructor|].
    intros k. rewrite Hkeys. cbn [fmap list_fmap]. rewrite elem_of_cons.
    destruct (decide (k = agentId s)) as [->|Hne].
    + rewrite lookup_insert_eq. split; [auto|]. intros _. left. eauto.
    + rewrite lookup_insert_ne by done. tauto.
Qed.

(** X11.  Once the agent of a stage has succeeded and its gate checks have
    returned, the failed results of severity 'error' decide.  Without any,
    the turn stores the output, records the gate results with the stage and
    goes on (warnings do not stop the run).  With some, [run] returns a
    failure at '<stage id>:gate' whose errors are the messages of exactly
    those results, with an empty artifact map; the audit still lists the
    stage itself as succeeded.  audit/run.json is not written by the turn. *)
Theorem gate_verdict (this : PipelineOrchestrator.t) (runId : string)
    (startTime : Z) (inputHash : string) (config : PipelineConfig.t)
    (stage : PipelineStage) (outputs : gmap string value)
    (stageResults : list StageResult.t) (w : World)
    (agent : Agent.t) (result : AgentResult.t) (w1 : World)
    (checks : list GateCheckFn) (gateResults : list GateCheckResult) :
  PipelineOrchestrator.agents this !! agentId stage = Some agent ->
  Agent.run agent (PipelineOrchestrator.resolveInputs stage outputs)
    (AgentContext.mk runId startTime outputs (PipelineConfig.verbose config))
    (snd (PipelineOrchestrator.before_agent runId stage w)) = (Returns result, w1) ->
  AgentResult.success result = true ->
  gateChecks stage = Some checks ->
  let outputs' :=
    <[agentId stage := default VUndefined (AgentResult.output result)]> outputs in
  PipelineOrchestrator.runGateChecks checks outputs' = Returns gateResults ->
  let failures := List.filter PipelineOrchestrator.is_gate_failure gateResults in
  exists step w',
    PipelineOrchestrator.run_stage this runId startTime inputHash config stage
      outputs stageResults w = (Returns step, w') /\
    runJson w' = runJson w1 /\
    ((failures = [] /\
      exists sr, step = PipelineOrchestrator.Continue outputs' (stageResults ++ [sr]) /\
                 StageResult.gateResults sr = Some gateResults /\
                 StageResult.output sr = AgentResult.output result) \/
     (failures <> [] /\
      exists r, step = PipelineOrchestrator.Return r /\
                PipelineResult.success r = false /\
                PipelineResult.failedAt r = Some (agentId stage +:+ ":gate") /\
                PipelineResult.errors r = Some (message <$> failures) /\
                PipelineResult.outputs r = ∅ /\
                (fun sa => (StageAudit.agentId sa, StageAudit.success sa))
                  <$> RunAudit.stages (PipelineResult.audit r)
                = ((fun sr => (StageResult.agentId sr, StageResult.success sr))
                     <$> stageResults) ++ [(agentId stage, true)])).
Proof.
  intros Hagent Hrun Hok Hchecks outputs' Hgate failures.
  unfold PipelineOrchestrator.run_stage.
  rewrite Hagent. unfold bind at 1.
  destruct (before_agent_returns runId stage w) as [t0 ->].
  unfold bind at 1. rewrite Hrun. unfold bind at 1. cbn [Date_now].
  rewrite Hok, Hchecks. cbn [negb]. unfold bind at 1, lift.
  fold outputs'. rewrite Hgate. fold failures.
  destruct failures as [|f rest] eqn:Ef; cbn [length Nat.ltb Nat.leb].
  - unfold bind. cbn. eexists _, _. split; [reflexivity|]. split; [reflexivity|].
    left. split; [reflexivity|]. eexists. split; [reflexivity|]. split; reflexivity.
  - unfold bind. cbn. eexists _, _. split; [reflexivity|]. split; [reflexivity|].
    right. split; [discriminate|]. eexists. split; [reflexivity|]. cbn.
    repeat (split; [reflexivity|]).
    rewrite map_app, fmap_app. f_equal.
    clear. induction stageResults as [|sr l IH]; [reflexivity|]. cbn. now rewrite IH.
Qed.

Lemma gate_verdict_witness :
  let stage := mkStage "A" [] (Some [Scenario.errorCheck]) in
  exists r w',
    PipelineOrchestrator.run_stage (Scenario.gateAbort (H := Scenario.digest))
      "run-0" 1000 "sha256:0" (PipelineConfig.mk None) stage
      {[ "input" := Scenario.input1 ]} [] Scenario.world0
    = (Returns (PipelineOrchestrator.Return r), w') /\
    PipelineResult.failedAt r = Some "A:gate" /\
    PipelineResult.errors r = Some ["always fails"].
Proof.
  cbv zeta.
  edestruct (gate_verdict (Scenario.gateAbort (H := Scenario.digest))
               "run-0" 1000 "sha256:0" (PipelineConfig.mk None)
               (mkStage "A" [] (Some [Scenario.errorCheck]))
               {[ "input" := Scenario.input1 ]} [] Scenario.world0)
    as (step & w' & Hstep & _ & [[Hnil _]|[_ (r & -> & _ & Hf & He & _)]]).
  - reflexivity.
  - vm_compute. reflexivity.
  - reflexivity.
  - reflexivity.
  - vm_compute. reflexivity.
  - vm_compute in Hnil. discriminate.
  - exists r, w'. split; [exact Hstep|]. split; [exact Hf|exact He].
Defined.

(** X12.  When the stages before [s] have completed and no agent is
    registered for [s], [run] returns a failure at the id of [s] with the
    single error 'Agent not found: <id>' and an empty artifact map.  The
    audit lists the completed stages only: [s] has no entry.  The only
    record logged for [s] is that error (no 'Starting' record), and
    audit/run.json is not written. *)
Theorem missing_agent_aborts `{Crypto} (this : PipelineOrchestrator.t)
    (initialInput : value) (config : PipelineConfig.t) (w : World)
    (runId : string) (startTime : Z) (inputHash : string) (w0 : World)
    (pre : list PipelineStage) (s : PipelineStage) (post : list PipelineStage)
    (artifacts : gmap string value) (stageResults : list StageResult.t)
    (wk : World) :
  PipelineOrchestrator.run_start initialInput w
  = (Returns (runId, startTime, inputHash), w0) ->
  topologicalSort (PipelineOrchestrator.stages this) = pre ++ s :: post ->
  PipelineOrchestrator.run_loop this runId startTime inputHash config pre
    {[ "input" := initialInput ]} [] w0
  = (Returns (PipelineOrchestrator.Continue artifacts stageResults), wk) ->
  PipelineOrchestrator.agents this !! agentId s = None ->
  exists r w' entry,
    PipelineOrchestrator.run this initialInput config w = (Returns r, w') /\
    PipelineResult.success r = false /\
    PipelineResult.failedAt r = Some (agentId s) /\
    PipelineResult.errors r = Some ["Agent not found: " +:+ agentId s] /\
    PipelineResult.outputs r = ∅ /\
    StageAudit.agentId <$> RunAudit.stages (PipelineResult.audit r)
    = agentId <$> pre /\
    log w' = log wk ++ [entry] /\
    AuditLogEntry.level entry = LevelError /\
    AuditLogEntry.message entry = "Agent not found: " +:+ agentId s /\
    runJson w' = runJson wk.
Proof.
  intros Hstart Hsorted Hpre Hagent.
  unfold PipelineOrchestrator.run, bind at 1. rewrite Hstart. cbn [fst snd].
  rewrite Hsorted. unfold bind at 1. rewrite run_loop_app, Hpre.
  cbn [PipelineOrchestrator.run_loop]. unfold bind at 1.
  unfold PipelineOrchestrator.run_stage. rewrite Hagent.
  apply run_loop_Continue_shape in Hpre as (completed & -> & Hids & _ & _).
  unfold bind, ret. cbn.
  eexists _, _, _. split; [reflexivity|]. cbn.
  repeat (split; [reflexivity|]).
  split; [|repeat (split; [reflexivity|]); reflexivity].
  rewrite <- Hids. clear. induction completed as [|sr l IH]; [reflexivity|].
  cbn. now rewrite IH.
Qed.

Lemma missing_agent_aborts_witness :
  exists r w',
    PipelineOrchestrator.run (H := Scenario.digest)
      (Scenario.missingAgent (H := Scenario.digest)) Scenario.input1
      (PipelineConfig.mk None) Scenario.world0 = (Returns r, w') /\
    PipelineResult.failedAt r = Some "B" /\
    PipelineResult.errors r = Some ["Agent not found: B"] /\
    StageAudit.agentId <$> RunAudit.stages (PipelineResult.audit r) = ["A"].
Proof.
  edestruct (missing_agent_aborts (H := Scenario.digest)) with
    (this := Scenario.missingAgent (H := Scenario.digest))
    (initialInput := Scenario.input1) (config := PipelineConfig.mk None)
    (w := Scenario.world0) (pre := [mkStage "A" [] None])
    (s := mkStage "B" ["A"] None) (post := @nil PipelineStage)
    as (r & w' & entry & Hrun & _ & Hf & He & _ & Hst & _).
  - vm_compute. reflexivity.
  - vm_compute. reflexivity.
  - vm_compute. reflexivity.
  - reflexivity.
  - exists r, w'. split; [exact Hrun|]. split; [exact Hf|]. split; [exact He|exact Hst].
Defined.

(** X13.  A run that reports success has run every scheduled stage: its
    audit is marked 'success' and lists exactly the scheduled stages, in
    order, each as succeeded; [failedAt] and [errors] are absent; the
    artifact map has exactly the key 'input' and the ids of the scheduled
    stages; and the last content written to audit/run.json is the audit
    returned. *)
Theorem successful_run_is_complete `{Crypto} (this : PipelineOrchestrator.t)
    (initialInput : value) (config : PipelineConfig.t) (w : World)
    (r : PipelineResult.t) (w' : World) :
  PipelineOrchestrator.run this initialInput config w = (Returns r, w') ->
  PipelineResult.success r = true ->
  let ids := agentId <$> topologicalSort (PipelineOrchestrator.stages this) in
  PipelineResult.failedAt r = None /\
  PipelineResult.errors r = None /\
  RunAudit.overallStatus (PipelineResult.audit r) = StatusSuccess /\
  StageAudit.agentId <$> RunAudit.stages (PipelineResult.audit r) = ids /\
  Forall (fun sa => StageAudit.success sa = true)
         (RunAudit.stages (PipelineResult.audit r)) /\
  (forall k, is_Some (PipelineResult.outputs r !! k) <-> k = "input" \/ k ∈ ids) /\
  exists earlier, runJson w' = earlier ++ [PipelineResult.audit r].
Proof.
  intros Hrun Hok. cbv zeta. unfold PipelineOrchestrator.run in Hrun.
  remember (topologicalSort (PipelineOrchestrator.stages this)) as sorted eqn:Hsorted.
  clear Hsorted. unfold bind at 1 in Hrun.
  destruct (PipelineOrchestrator.run_start initialInput w)
    as [[[[runId startTime] inputHash]|e] w0]; [|done].
  cbn [fst snd] in Hrun. unfold bind at 1 in Hrun.
  destruct (PipelineOrchestrator.run_loop _ _ _ _ _ _ _ _ _)
    as [[[outputs stageResults|r1]|e] w1] eqn:Hloop; [| |done].
  - apply run_loop_Continue_shape in Hloop as (completed & -> & Hids & Hall & Hkeys).
    unfold PipelineOrchestrator.run_success, bind in Hrun. cbn in Hrun.
    injection Hrun as <- <-. cbn.
    split; [done|]. split; [done|]. split; [done|].
    split; [|split; [|split]].
    + rewrite <- Hids. clear. induction completed as [|sr l IH]; [done|].
      cbn. by rewrite IH.
    + clear -Hall. induction Hall as [|sr l Hs _ IH]; [constructor|].
      cbn. constructor; [exact Hs|exact IH].
    + intros k. rewrite Hkeys. split; (intros [Hs|Hin]; [left|by right]).
      * destruct Hs as [x Hx]. by apply lookup_singleton_Some in Hx as [<- _].
      * subst k. rewrite lookup_singleton_eq. eauto.
    + eexists. reflexivity.
  - unfold ret in Hrun. injection Hrun as <- <-.
    apply run_loop_Return_shape in Hloop as (Hfalse & _). congruence.
Qed.

Lemma successful_run_is_complete_witness :
  exists r w',
    PipelineOrchestrator.run (H := Scenario.digest)
      (Scenario.happy (H := Scenario.digest)) Scenario.input1
      (PipelineConfig.mk None) Scenario.world0 = (Returns r, w') /\
    PipelineResult.success r = true /\
    StageAudit.agentId <$> RunAudit.stages (PipelineResult.audit r) = ["A"; "B"; "C"] /\
    (forall k, is_Some (PipelineResult.outputs r !! k)
               <-> k = "input" \/ k ∈ ["A"; "B"; "C"]).
Proof.
  destruct (PipelineOrchestrator.run (H := Scenario.digest)
              (Scenario.happy (H := Scenario.digest)) Scenario.input1
              (PipelineConfig.mk None) Scenario.world0) as [[r|e] w'] eqn:Hrun.
  - assert (Hok : PipelineResult.success r = true).
    { vm_compute in Hrun. injection Hrun as <- _. reflexivity. }
    destruct (successful_run_is_complete (H := Scenario.digest) _ _ _ _ r w' Hrun Hok)
      as (_ & _ & _ & Hids & _ & Hkeys & _).
    exists r, w'. split; [reflexivity|]. split; [exact Hok|].
    split; [exact Hids|exact Hkeys].
  - vm_compute in Hrun. discriminate.
Defined.

(* ===================================================================== *)
(** ** The audit trail of a run *)
(* ===================================================================== *)

Lemma audit_extends_refl runId w : audit_extends runId w w.
Proof. split; [exists []; by rewrite app_nil_r|done]. Qed.

Lemma audit_extends_trans runId w1 w2 w3 :
  audit_extends runId w1 w2 -> audit_extends runId w2 w3 -> audit_extends runId w1 w3.
Proof.
  intros [(e1 & Hl1 & Hf1) Hj1] [(e2 & Hl2 & Hf2) Hj2]. split; [|congruence].
  exists (e1 ++ e2). rewrite Hl2, Hl1, app_assoc. split; [done|].
  by apply Forall_app.
Qed.

Lemma extending_bind {A B} runId (m : M A) (k : A -> M B) :
  extending runId m -> (forall a, extending runId (k a)) ->
  extending runId (bind m k).
Proof.
  intros Hm Hk w. unfold bind. specialize (Hm w).
  destruct (m w) as [[a|e] w1]; [|exact Hm].
  eapply audit_extends_trans; [exact Hm|apply Hk].
Qed.

Lemma extending_ret {A} runId (a : A) : extending runId (ret a).
Proof. intros w. apply audit_extends_refl. Qed.

Lemma extending_lift {A} runId (o : outcome A) : extending runId (lift o).
Proof. intros w. apply audit_extends_refl. Qed.

Lemma extending_Date_now runId : extending runId Date_now.
Proof. intros w. split; [exists []; cbn; by rewrite app_nil_r|done]. Qed.

Lemma extending_log_entry runId level agentId message data :
  extending runId (AuditLogger.log_entry runId level agentId message data).
Proof.
  intros w. split; [|done]. eexists [_]. split; [reflexivity|].
  by repeat constructor.
Qed.

Lemma extending_quiet {A} runId (m : M A) : quiet m -> extending runId m.
Proof.
  intros Hq w. destruct (Hq w) as [Hl Hj]. split; [|done].
  exists []. by rewrite app_nil_r.
Qed.

Lemma extending_buildFailureResult runId startTime inputHash failedAt errors srs :
  extending runId
    (PipelineOrchestrator.buildFailureResult runId startTime inputHash failedAt
       errors srs).
Proof.
  unfold PipelineOrchestrator.buildFailureResult.
  apply extending_bind; [apply extending_Date_now|]. intros t. apply extending_ret.
Qed.

Ltac extending_step :=
  first [ apply extending_ret
        | apply extending_lift
        | apply extending_Date_now
        | apply extending_log_entry
        | apply extending_buildFailureResult
        | apply extending_bind; [|intros ?] ].

(** A turn of the loop only appends records of the run to the log, when the agents are quiet. *)
Lemma extending_run_stage this runId startTime inputHash config stage
    outputs stageResults :
  quiet_agents this ->
  extending runId
    (PipelineOrchestrator.run_stage this runId startTime inputHash config stage
       outputs stageResults).
Proof.
  intros Hq. unfold PipelineOrchestrator.run_stage.
  destruct (PipelineOrchestrator.agents this !! agentId stage) as [agent|] eqn:Ha.
  - unfold PipelineOrchestrator.before_agent, AuditLogger.stage, AuditLogger.error.
    apply extending_bind; [repeat extending_step|]. intros t0.
    apply extending_bind; [eapply extending_quiet, Hq, Ha|]. intros result.
    apply extending_bind; [apply extending_Date_now|]. intros t1.
    destruct (negb (AgentResult.success result)); [repeat extending_step|].
    destruct (gateChecks stage) as [checks|]; [|repeat extending_step].
    apply extending_bind; [apply extending_lift|]. intros gateResults.
    destruct (Nat.ltb 0 _); repeat extending_step.
  - unfold AuditLogger.error. repeat extending_step.
Qed.

Lemma extending_run_loop this runId startTime inputHash config sortedStages :
  quiet_agents this ->
  forall outputs stageResults,
    extending runId
      (PipelineOrchestrator.run_loop this runId startTime inputHash config
         sortedStages outputs stageResults).
Proof.
  intros Hq. induction sortedStages as [|s rest IH]; intros outputs stageResults;
    cbn [PipelineOrchestrator.run_loop]; [apply extending_ret|].
  apply extending_bind; [by apply extending_run_stage|].
  intros [o' r'|r]; [apply IH|apply extending_ret].
Qed.

(** A failure result carries the run id. *)
Lemma run_stage_Return_runId this runId startTime inputHash config stage
    outputs stageResults w r w' :
  PipelineOrchestrator.run_stage this runId startTime inputHash config stage
    outputs stageResults w = (Returns (PipelineOrchestrator.Return r), w') ->
  PipelineResult.runId r = runId.
Proof.
  unfold PipelineOrchestrator.run_stage.
  destruct (PipelineOrchestrator.agents this !! agentId stage) as [agent|].
  - unfold bind at 1. destruct (before_agent_returns runId stage w) as [t0 ->].
    unfold bind at 1.
    destruct (Agent.run agent _ _ _) as [[result|e] w1]; [|done].
    unfold bind at 1. cbn [Date_now].
    destruct (negb (AgentResult.success result)).
    + unfold bind. cbn. by intros [= <- _].
    + destruct (gateChecks stage) as [checks|].
      * unfold bind at 1, lift.
        destruct (PipelineOrchestrator.runGateChecks checks _) as [gateResults|e];
          [|done].
        destruct (Nat.ltb 0 _).
        -- unfold bind. cbn. by intros [= <- _].
        -- unfold bind. cbn. done.
      * unfold bind. cbn. done.
  - unfold bind. cbn. by intros [= <- _].
Qed.

Lemma run_loop_Return_runId this runId startTime inputHash config sortedStages :
  forall outputs stageResults w r w',
    PipelineOrchestrator.run_loop this runId startTime inputHash config
      sortedStages outputs stageResults w
    = (Returns (PipelineOrchestrator.Return r), w') ->
    PipelineResult.runId r = runId.
Proof.
  induction sortedStages as [|s rest IH]; intros outputs stageResults w r w';
    cbn [PipelineOrchestrator.run_loop]; [done|].
  unfold bind.
  destruct (PipelineOrchestrator.run_stage this runId startTime inputHash config s
              outputs stageResults w) as [[[o1 r1|r1]|e] w1] eqn:Hstage; [| |done].
  - apply IH.
  - unfold ret. intros [= <- <-]. by apply run_stage_Return_runId in Hstage.
Qed.

(** X14.  If the agents do not write to the audit files themselves, a run
    only appends to audit/log.jsonl, and every record it appends carries the
    id drawn for the run.  It appends nothing exactly when the initial input
    is [undefined] (hashing it throws before anything is logged); otherwise
    its first record is 'Pipeline started'.  audit/run.json is written once
    when the run succeeds, with the audit returned, and not at all when it
    fails or throws. *)
Theorem run_audit_trail `{Crypto} (this : PipelineOrchestrator.t)
    (initialInput : value) (config : PipelineConfig.t) (w : World) :
  quiet_agents this ->
  let res := PipelineOrchestrator.run this initialInput config w in
  let runId := uuid w (uuidReads w) in
  exists entries,
    log (snd res) = log w ++ entries /\
    Forall (fun entry => AuditLogEntry.runId entry = runId) entries /\
    (entries = [] <-> initialInput = VUndefined) /\
    (initialInput <> VUndefined ->
     head (AuditLogEntry.message <$> entries) = Some "Pipeline started") /\
    runJson (snd res)
    = runJson w ++ match fst res with
                   | Returns r => if PipelineResult.success r
                                  then [PipelineResult.audit r] else []
                   | Throws _ => []
                   end /\
    match fst res with
    | Returns r => PipelineResult.runId r = runId
    | Throws _ => initialInput = VUndefined \/ entries <> []
    end.
Proof.
  intros Hq. cbv zeta.
  destruct (PipelineOrchestrator.run this initialInput config w) as [res w']
    eqn:Hrun.
  cbn [fst snd]. unfold PipelineOrchestrator.run in Hrun.
  remember (topologicalSort (PipelineOrchestrator.stages this)) as sorted eqn:Hsorted.
  clear Hsorted.
  unfold bind at 1, PipelineOrchestrator.run_start, bind at 1, randomUUID in Hrun.
  unfold bind at 1, Date_now in Hrun. unfold bind at 1, lift in Hrun.
  cbn [fst snd] in Hrun. unfold computeHash in Hrun.
  destruct (JS.stringify initialInput) as [json|] eqn:Ej.
  2:{ apply stringify_None in Ej as ->. injection Hrun as <- <-.
      exists []. cbn. rewrite !app_nil_r.
      repeat split; auto. intros Hx. by contradict Hx. }
  assert (Hdef : initialInput <> VUndefined).
  { intros ->. discriminate. }
  unfold bind at 1, AuditLogger.info, AuditLogger.log_entry, bind at 1, Date_now
    in Hrun.
  unfold AuditLogger.appendJsonLine, ret in Hrun.
  cbn [fst snd now clockReads uuid uuidReads log runJson console] in Hrun.
  set (runId := uuid w (uuidReads w)) in *.
  unfold bind at 1 in Hrun.
  match type of Hrun with
  | context [PipelineOrchestrator.run_loop this runId ?st ?ih config sorted ?o ?sr ?w0] =>
      set (startTime := st) in Hrun; set (inputHash := ih) in Hrun;
      pose proof (extending_run_loop this runId startTime inputHash config sorted
                    Hq o sr w0) as Hext
  end.
  destruct (PipelineOrchestrator.run_loop this runId startTime inputHash config sorted
              _ _ _) as [[[outputs stageResults|r]|e] w1] eqn:Hloop;
    cbn [snd] in Hext; destruct Hext as [(entries & Hl & Hall) Hj];
    cbn [log runJson] in Hl, Hj.
  - unfold PipelineOrchestrator.run_success, bind, Date_now, AuditLogger.info,
      AuditLogger.log_entry, bind, Date_now, AuditLogger.appendJsonLine,
      AuditLogger.saveRunAudit, ret in Hrun. cbn in Hrun.
    injection Hrun as <- <-. cbn.
    eexists (_ :: entries ++ [_]). rewrite Hl, Hj, <- !app_assoc. cbn.
    split; [reflexivity|]. split.
    { constructor; [reflexivity|]. apply Forall_app. split; [exact Hall|].
      by repeat constructor. }
    split; [split; [discriminate|done]|]. split; [done|]. split; reflexivity.
  - unfold ret in Hrun. injection Hrun as <- <-.
    pose proof Hloop as Hshape. apply run_loop_Return_shape in Hshape as (-> & _).
    apply run_loop_Return_runId in Hloop.
    eexists (_ :: entries). rewrite Hl, Hj, <- !app_assoc, app_nil_r. cbn.
    split; [reflexivity|]. split; [by constructor|].
    split; [split; [discriminate|done]|]. split; [done|]. split; done.
  - injection Hrun as <- <-.
    eexists (_ :: entries). rewrite Hl, Hj, <- !app_assoc, app_nil_r. cbn.
    split; [reflexivity|]. split; [by constructor|].
    split; [split; [discriminate|done]|]. split; [done|]. split; [done|].
    right. discriminate.
Qed.

Lemma quiet_bind {A B} (m : M A) (k : A -> M B) :
  quiet m -> (forall a, quiet (k a)) -> quiet (bind m k).
Proof.
  intros Hm Hk w. unfold bind. specialize (Hm w).
  destruct (m w) as [[a|e] w1]; [|exact Hm].
  destruct Hm as [Hl Hj]. destruct (Hk a w1) as [Hl' Hj']. cbn [snd] in *.
  split; congruence.
Qed.

Lemma quiet_try_catch {A} (m : M A) (handler : thrown -> M A) :
  quiet m -> (forall e, quiet (handler e)) -> quiet (try_catch m handler).
Proof.
  intros Hm Hh w. unfold try_catch. specialize (Hm w).
  destruct (m w) as [[a|e] w1]; [exact Hm|].
  destruct Hm as [Hl Hj]. destruct (Hh e w1) as [Hl' Hj']. cbn [snd] in *.
  split; congruence.
Qed.

Lemma quiet_ret {A} (a : A) : quiet (ret a).
Proof. by intros w. Qed.

Lemma quiet_lift {A} (o : outcome A) : quiet (lift o).
Proof. by intros w. Qed.

Lemma quiet_Date_now : quiet Date_now.
Proof. by intros w. Qed.

Lemma quiet_console_log line : quiet (console_log line).
Proof. by intros w. Qed.

Ltac quiet_step :=
  first [ apply quiet_ret
        | apply quiet_lift
        | apply quiet_Date_now
        | apply quiet_console_log
        | assumption
        | apply quiet_bind; [|intros ?]
        | apply quiet_try_catch; [|intros ?] ].

(** An agent built on [BaseAgent] writes to the audit files only if its validator or its logic does. *)
Lemma BaseAgent_run_quiet `{Crypto} (config : AgentConfig.t)
    (validator : SchemaValidator) (execute : value -> AgentContext.t -> M value) :
  (forall schema data, quiet (validator schema data)) ->
  (forall input context, quiet (execute input context)) ->
  forall input context, quiet (BaseAgent.run config validator execute input context).
Proof.
  intros Hv He input context.
  unfold BaseAgent.run, BaseAgent.before_try, BaseAgent.try_block, BaseAgent.failure.
  apply quiet_bind.
  - apply quiet_bind; [apply quiet_Date_now|]. intros startTime.
    apply quiet_bind; [apply quiet_lift|]. intros inputHash.
    apply quiet_bind; [destruct (BaseAgent.is_verbose context); repeat quiet_step|].
    intros _.
    apply quiet_bind; [destruct (BaseAgent.has_schema _); [apply Hv|apply quiet_ret]|].
    intros valid. destruct (negb _); repeat quiet_step.
  - intros [r|[startTime inputHash]]; [apply quiet_ret|].
    apply quiet_try_catch; [|intros e; repeat quiet_step].
    apply quiet_bind; [apply He|]. intros output.
    apply quiet_bind; [destruct (BaseAgent.has_schema _); [apply Hv|apply quiet_ret]|].
    intros valid. destruct (negb _); [repeat quiet_step|].
    apply quiet_bind; [apply quiet_lift|]. intros outputHash.
    apply quiet_bind; [destruct (BaseAgent.is_verbose context); repeat quiet_step|].
    intros _. repeat quiet_step.
Qed.

Lemma run_audit_trail_witness :
  let res := PipelineOrchestrator.run (H := Scenario.digest)
               (Scenario.failingB (H := Scenario.digest)) Scenario.input1
               (PipelineConfig.mk None) Scenario.world0 in
  exists entries,
    log (snd res) = entries /\
    Forall (fun entry => AuditLogEntry.runId entry = "run-0") entries /\
    runJson (snd res) = [].
Proof.
  cbv zeta.
  destruct (run_audit_trail (H := Scenario.digest)
              (Scenario.failingB (H := Scenario.digest)) Scenario.input1
              (PipelineConfig.mk None) Scenario.world0)
    as (entries & Hl & Hall & _ & _ & Hj & _).
  - intros id agent input context Hagent.
    unfold Scenario.failingB in Hagent. cbn [PipelineOrchestrator.agents] in Hagent.
    repeat (apply lookup_insert_Some in Hagent as [[_ <-]|[_ Hagent]];
            [apply (BaseAgent_run_quiet (H := Scenario.digest));
             intros; first [apply quiet_ret|apply quiet_lift]|]).
    apply lookup_singleton_Some in Hagent as [_ <-].
    apply (BaseAgent_run_quiet (H := Scenario.digest));
      intros; first [apply quiet_ret|apply quiet_lift].
  - exists entries. split; [exact Hl|]. split; [exact Hall|].
    rewrite Hj. vm_compute. reflexivity.
Defined.

(* ===================================================================== *)
(** ** What the gate checks report *)
(* ===================================================================== *)

Ltac check_cases H :=
  repeat match type of H with
         | context [obind ?o _] => destruct o eqn:?; cbn [obind] in H
         | context [if ?b then _ else _] => destruct b eqn:?
         end.

Ltac one_result :=
  split; [discriminate|];
  apply Forall_cons; split; [|constructor];
  split; [reflexivity|]; cbn; split; intros; congruence.

(** Whatever the loop body pushes is an error under the check's name. *)
Lemma component_alignment_results entityNames component rs :
  CrossChecks.component_alignment entityNames component = Returns rs ->
  Forall (fun r => name r = "component-domain-alignment" /\
                   passed r = false /\ severity r = SevError) rs.
Proof.
  unfold CrossChecks.component_alignment. intros H. check_cases H;
    try discriminate; injection H as <-; repeat constructor.
Qed.

(** The three shapes of what the alignment check returns. *)
Lemma componentDomainAlignmentCheck_results ctx rs :
  CrossChecks.componentDomainAlignmentCheck ctx = Returns rs ->
  rs = [mkGateCheckResult "component-domain-alignment" true SevInfo
          "Insufficient data for domain alignment check" None] \/
  rs = [mkGateCheckResult "component-domain-alignment" true SevInfo
          "All component entity references are valid" None] \/
  (rs <> [] /\
   Forall (fun r => name r = "component-domain-alignment" /\
                    passed r = false /\ severity r = SevError) rs).
Proof.
  unfold CrossChecks.componentDomainAlignmentCheck. intros H.
  destruct (_ || _)%bool; [injection H as <-; now left|].
  destruct (JS.array_method _ _ _) as [entities|]; cbn [obind] in H; [|discriminate].
  destruct (omapM _ entities) as [entityNames|]; cbn [obind] in H; [|discriminate].
  destruct (JS.iterate _ _) as [components|]; cbn [obind] in H; [|discriminate].
  destruct (omapM _ components) as [perComponent|] eqn:E; cbn [obind] in H;
    [|discriminate].
  destruct (Nat.eqb _ 0) eqn:El; injection H as <-; [right; now left|].
  right; right. split.
  - intros E0. rewrite E0 in El. discriminate.
  - apply omapM_Forall2 in E. clear El.
    induction E as [|c r cs rs' Hc _ IH]; [constructor|].
    cbn [concat]. apply Forall_app. split; [|exact IH].
    eapply component_alignment_results, Hc.
Qed.

(** Each of the five checks reports as [well_reported] says. *)
Lemma gate_check_discipline (ctx : GateContext) (checkName : string)
    (check : GateCheckFn) (rs : list GateCheckResult) :
  (checkName, check) ∈ CrossChecks.ALL_GATE_CHECKS ->
  check ctx = Returns rs -> well_reported checkName rs.
Proof.
  unfold CrossChecks.ALL_GATE_CHECKS. intros Hin H.
  repeat (apply elem_of_cons in Hin as [[= -> ->]|Hin]);
    [..|now apply elem_of_nil in Hin].
  - unfold CrossChecks.apiUseCaseCoverageCheck in H. check_cases H;
      try discriminate; injection H as <-; one_result.
  - apply componentDomainAlignmentCheck_results in H as [->|[->|[Hne Hall]]];
      [one_result|one_result|].
    split; [exact Hne|]. eapply Forall_impl; [exact Hall|].
    intros r (Hn & Hp & Hs). split; [exact Hn|]. rewrite Hp, Hs. split; discriminate.
  - unfold CrossChecks.adrCompletenessCheck in H. check_cases H;
      try discriminate; injection H as <-; one_result.
  - unfold CrossChecks.promptCoverageCheck in H. check_cases H;
      try discriminate; injection H as <-; one_result.
  - unfold CrossChecks.scaffoldIntegrityCheck in H. check_cases H;
      try discriminate; injection H as <-; one_result.
Qed.

(** X15.  Whenever one of the five gate checks returns, it returns at least
    one result, every result bears the check's own name, and a result has
    [passed: true] exactly when its severity is 'info'. *)
Theorem gate_checks_well_reported (ctx : GateContext) :
  Forall (fun entry =>
            forall rs, snd entry ctx = Returns rs -> well_reported (fst entry) rs)
         CrossChecks.ALL_GATE_CHECKS.
Proof.
  apply Forall_forall. intros [checkName check] Hin rs H.
  eapply gate_check_discipline; [exact Hin|exact H].
Qed.

(** The guard of a check, in terms of [lacks]. *)
Lemma lacks_guard (ctx : GateContext) (artifact field : string) (b : bool) :
  negb (JS.truthy (JS.opt_prop (CrossChecks.get ctx artifact) field)) = b ->
  (lacks ctx artifact field <-> b = true).
Proof.
  unfold lacks. destruct (JS.truthy _); cbn; intros <-; split; congruence.
Qed.

(** X16.  Which findings can stop the pipeline (a failed result of severity
    'error').  The use-case coverage check never produces one.  The ADR
    check and the prompt coverage check produce one exactly when the
    artifact's field ([adrs], [packs]) is missing; too few ADRs, ADRs
    without alternatives and missing prompt packs are warnings. *)
Theorem gate_abort_conditions (ctx : GateContext) :
  (forall rs, CrossChecks.apiUseCaseCoverageCheck ctx = Returns rs ->
     List.filter PipelineOrchestrator.is_gate_failure rs = []) /\
  (forall rs, CrossChecks.adrCompletenessCheck ctx = Returns rs ->
     (List.filter PipelineOrchestrator.is_gate_failure rs <> []
      <-> lacks ctx "system-architect" "adrs")) /\
  (forall rs, CrossChecks.promptCoverageCheck ctx = Returns rs ->
     (List.filter PipelineOrchestrator.is_gate_failure rs <> []
      <-> lacks ctx "prompt-pack-designer" "packs")).
Proof.
  split; [|split]; intros rs H.
  - unfold CrossChecks.apiUseCaseCoverageCheck in H. check_cases H;
      try discriminate; injection H as <-; reflexivity.
  - unfold CrossChecks.adrCompletenessCheck in H.
    destruct (negb _) eqn:Eg; apply lacks_guard in Eg; rewrite Eg.
    + injection H as <-. cbn. split; [reflexivity|discriminate].
    + check_cases H; try discriminate; injection H as <-; cbn;
        (split; [congruence|discriminate]).
  - unfold CrossChecks.promptCoverageCheck in H.
    destruct (negb _) eqn:Eg; apply lacks_guard in Eg; rewrite Eg.
    + injection H as <-. cbn. split; [reflexivity|discriminate].
    + check_cases H; try discriminate; injection H as <-; cbn;
        (split; [congruence|discriminate]).
Qed.

(** X17.  With its data present (use cases whose [action] is a string) and
    every action and every path of the contract written in ASCII
    characters, the use-case coverage check returns one result, which
    passes exactly when, for every use case, the first word of its action
    in lower case occurs in the lower-cased text of some path of the
    contract. *)
Theorem apiUseCaseCoverageCheck_passes_iff (ctx : GateContext)
    (useCases : list value) :
  JS.prop (CrossChecks.get ctx "requirements-structurer") "useCases" = VArr useCases ->
  Forall (fun useCase => exists action,
            JS.prop useCase "action" = VStr action /\ ascii_only action = true)
         useCases ->
  JS.truthy (JS.opt_prop (CrossChecks.get ctx "api-contract") "paths") = true ->
  let paths := JS.keys (JS.prop (CrossChecks.get ctx "api-contract") "paths") in
  Forall (fun path => ascii_only path = true) paths ->
  exists r,
    CrossChecks.apiUseCaseCoverageCheck ctx = Returns [r] /\
    (passed r = true
     <-> forall useCase, useCase ∈ useCases ->
           exists path, path ∈ paths /\
             JS.includes (JS.toLowerCase path) (action_word useCase) = true).
Proof.
  intros Hu Hact Hpaths paths _.
  assert (Hrs : JS.is_nullish (CrossChecks.get ctx "requirements-structurer") = false).
  { destruct (CrossChecks.get ctx "requirements-structurer");
      try reflexivity; discriminate. }
  unfold CrossChecks.apiUseCaseCoverageCheck.
  rewrite Hpaths. unfold JS.opt_prop at 1. rewrite Hrs, Hu.
  cbn [JS.truthy negb orb JS.array_method obind].
  rewrite (omapM_pure _ action_word); cycle 1.
  { eapply Forall_impl; [exact Hact|]. intros uc (action & Ha & _).
    assert (Hn : JS.is_nullish uc = false)
      by (destruct uc; try reflexivity; discriminate).
    unfold JS.member, action_word. rewrite Hn, Ha. reflexivity. }
  cbn [obind]. fold paths.
  set (uncovered := List.filter _ (map action_word useCases)).
  assert (Hcov : forall uc,
    existsb (fun path => JS.includes (JS.toLowerCase path) (action_word uc)) paths = true
    <-> exists path, path ∈ paths /\
          JS.includes (JS.toLowerCase path) (action_word uc) = true).
  { intros uc. rewrite existsb_exists. split; intros (path & Hin & Hp); exists path;
      (split; [now apply list_elem_of_In|exact Hp]). }
  destruct (Nat.ltb 0 (length uncovered)) eqn:El;
    eexists; (split; [reflexivity|]); cbn.
  - split; [discriminate|]. intros Hall. exfalso.
    apply Nat.ltb_lt, filter_nonempty in El as (word & Hin & Hno).
    change (map action_word useCases) with (action_word <$> useCases) in Hin.
    apply list_elem_of_fmap in Hin as (uc & -> & Huc).
    apply negb_true_iff in Hno.
    rewrite (proj2 (Hcov uc) (Hall uc Huc)) in Hno. discriminate.
  - split; [|reflexivity]. intros _ uc Huc. apply Hcov.
    apply Nat.ltb_ge in El.
    assert (Hnil : uncovered = []) by (destruct uncovered; [reflexivity|cbn in El; lia]).
    assert (Hin : action_word uc ∈ map action_word useCases).
    { change (map action_word useCases) with (action_word <$> useCases).
      now apply list_elem_of_fmap_2. }
    pose proof (proj1 (filter_nil_iff _ _) Hnil _ Hin) as Hno.
    now apply negb_false_iff in Hno.
Qed.

Lemma apiUseCaseCoverageCheck_passes_iff_witness :
  let ctx := mkGateContext
    {[ "requirements-structurer" :=
         VObj [("useCases", VArr [VObj [("action", VStr "Tasks are listed")]])];
       "api-contract" := VObj [("paths", VObj [("/tasks", VObj [])])] ]} in
  exists r, CrossChecks.apiUseCaseCoverageCheck ctx = Returns [r] /\ passed r = true.
Proof.
  cbv zeta.
  edestruct (apiUseCaseCoverageCheck_passes_iff
    (mkGateContext
       {[ "requirements-structurer" :=
            VObj [("useCases", VArr [VObj [("action", VStr "Tasks are listed")]])];
          "api-contract" := VObj [("paths", VObj [("/tasks", VObj [])])] ]}))
    as (r & Hr & Hpass).
  - reflexivity.
  - repeat constructor. eexists. split; reflexivity.
  - reflexivity.
  - repeat constructor.
  - exists r. split; [exact Hr|]. apply Hpass. intros uc Huc.
    apply list_elem_of_singleton in Huc as ->.
    exists "/tasks". split; [apply list_elem_of_here|reflexivity].
Defined.




(** X19.  With an array of ADRs, the ADR check returns one result, which
    passes exactly when there are at least three ADRs and every one has a
    non-empty [alternatives]; failing this never stops the pipeline. *)
Theorem adrCompletenessCheck_passes_iff (ctx : GateContext) (adrs : list value) :
  JS.prop (CrossChecks.get ctx "system-architect") "adrs" = VArr adrs ->
  Forall (fun adr => JS.is_nullish adr = false) adrs ->
  exists r,
    CrossChecks.adrCompletenessCheck ctx = Returns [r] /\
    (passed r = true
     <-> (3 <= length adrs)%nat /\ Forall (fun adr => has_alternatives adr = true) adrs) /\
    PipelineOrchestrator.is_gate_failure r = false.
Proof.
  intros Ha Hobj.
  assert (Hsa : JS.is_nullish (CrossChecks.get ctx "system-architect") = false).
  { destruct (CrossChecks.get ctx "system-architect"); try reflexivity; discriminate. }
  unfold CrossChecks.adrCompletenessCheck, JS.opt_prop. rewrite Hsa, Ha.
  cbn [JS.truthy negb JS.prop String.eqb Ascii.eqb Bool.eqb JS.lt_num JS.to_number].
  destruct (Z.of_nat (length adrs) <? 3) eqn:El.
  - apply Z.ltb_lt in El. eexists. split; [reflexivity|]. cbn.
    split; [|reflexivity]. split; [discriminate|]. intros [Hl _]. lia.
  - apply Z.ltb_ge in El. cbn [JS.array_method obind].
    rewrite (ofilterM_pure _ (fun adr => negb (has_alternatives adr))); cycle 1.
    { eapply Forall_impl; [exact Hobj|]. intros adr Hn.
      unfold JS.member. rewrite Hn. cbn [obind]. f_equal.
      unfold has_alternatives. now rewrite negb_andb, negb_involutive. }
    cbn [obind].
    destruct (Nat.ltb 0 _) eqn:Ef; eexists; (split; [reflexivity|]); cbn;
      (split; [|reflexivity]).
    + split; [discriminate|]. intros [_ Hall]. exfalso.
      apply Nat.ltb_lt, filter_nonempty in Ef as (adr & Hin & Hno).
      rewrite (proj1 (Forall_forall _ _) Hall adr Hin) in Hno. discriminate.
    + split; [|reflexivity]. intros _. split; [lia|].
      apply Nat.ltb_ge in Ef. apply Forall_forall. intros adr Hin.
      destruct (List.filter _ adrs) as [|x l] eqn:Efl; [|cbn in Ef; lia].
      pose proof (proj1 (filter_nil_iff _ _) Efl adr Hin) as Hno.
      now apply negb_false_iff in Hno.
Qed.

Lemma adrCompletenessCheck_passes_iff_witness :
  let adr := VObj [("id", VStr "ADR-1"); ("alternatives", VArr [VStr "other"])] in
  exists r,
    CrossChecks.adrCompletenessCheck
      (mkGateContext {[ "system-architect" := VObj [("adrs", VArr [adr; adr; adr])] ]})
    = Returns [r] /\ passed r = true.
Proof.
  cbv zeta.
  edestruct (adrCompletenessCheck_passes_iff
    (mkGateContext
       {[ "system-architect" :=
            VObj [("adrs",
                   VArr (replicate 3
                     (VObj [("id", VStr "ADR-1");
                            ("alternatives", VArr [VStr "other"])])))] ]}))
    as (r & Hr & Hpass & _).
  - reflexivity.
  - repeat constructor.
  - exists r. split; [exact Hr|]. apply Hpass. split; [cbn; lia|repeat constructor].
Defined.

(** X20.  With an array of packs, the prompt coverage check returns one
    result, which passes exactly when each of the seven agents of the
    pipeline has a pack; failing this never stops the pipeline. *)
Theorem promptCoverageCheck_passes_iff (ctx : GateContext) (packs : list value) :
  JS.opt_prop (CrossChecks.get ctx "prompt-pack-designer") "packs" = VArr packs ->
  Forall (fun pack => JS.is_nullish pack = false) packs ->
  exists r,
    CrossChecks.promptCoverageCheck ctx = Returns [r] /\
    (passed r = true <->
     forall id, id ∈ CrossChecks.expectedAgents ->
       exists pack, pack ∈ packs /\ JS.prop pack "agentId" = VStr id) /\
    PipelineOrchestrator.is_gate_failure r = false.
Proof.
  intros Hpacks Hobj.
  unfold CrossChecks.promptCoverageCheck.
  assert (Hprop : JS.prop (CrossChecks.get ctx "prompt-pack-designer") "packs"
                  = VArr packs).
  { unfold JS.opt_prop in Hpacks. now destruct (JS.is_nullish _). }
  rewrite Hpacks, Hprop. cbn [JS.truthy negb JS.array_method obind].
  rewrite (omapM_pure _ (fun pack => JS.prop pack "agentId")); cycle 1.
  { eapply Forall_impl; [exact Hobj|]. intros pack Hn. unfold JS.member. now rewrite Hn. }
  cbn [obind].
  set (ids := map (fun pack => JS.prop pack "agentId") packs).
  set (missing := List.filter _ CrossChecks.expectedAgents).
  assert (Hcovered : forall id,
    existsb (JS.strict_eq (VStr id)) ids = true
    <-> exists pack, pack ∈ packs /\ JS.prop pack "agentId" = VStr id).
  { intros id. rewrite existsb_strict_eq. unfold ids.
    change (map ?f packs) with (f <$> packs). rewrite list_elem_of_fmap. split.
    - intros (pack & Heq & Hin). eauto.
    - intros (pack & Hin & Heq). eauto. }
  destruct (Nat.ltb 0 (length missing)) eqn:El;
    eexists; (split; [reflexivity|]); cbn; (split; [|reflexivity]).
  - split; [discriminate|]. intros Hall. exfalso.
    apply Nat.ltb_lt, filter_nonempty in El as (id & Hid & Hno).
    apply negb_true_iff in Hno.
    rewrite (proj2 (Hcovered id) (Hall id Hid)) in Hno. discriminate.
  - split; [|reflexivity]. intros _ id Hid. apply Hcovered.
    apply Nat.ltb_ge in El.
    assert (Hnil : missing = []) by (destruct missing; [reflexivity|cbn in El; lia]).
    pose proof (proj1 (filter_nil_iff _ _) Hnil id Hid) as Hno.
    now apply negb_false_iff in Hno.
Qed.

Lemma promptCoverageCheck_passes_iff_witness :
  let packs := (fun id => VObj [("agentId", VStr id)]) <$> CrossChecks.expectedAgents in
  exists r,
    CrossChecks.promptCoverageCheck
      (mkGateContext {[ "prompt-pack-designer" := VObj [("packs", VArr packs)] ]})
    = Returns [r] /\ passed r = true.
Proof.
  cbv zeta.
  destruct (promptCoverageCheck_passes_iff
              (mkGateContext
                 {[ "prompt-pack-designer" :=
                      VObj [("packs",
                             VArr ((fun id => VObj [("agentId", VStr id)])
                                   <$> CrossChecks.expectedAgents))] ]})
              ((fun id => VObj [("agentId", VStr id)]) <$> CrossChecks.expectedAgents))
    as (r & Hr & Hpass & _).
  - reflexivity.
  - repeat constructor.
  - exists r. split; [exact Hr|]. apply Hpass.
    intros id Hid. exists (VObj [("agentId", VStr id)]). split; [|reflexivity].
    apply list_elem_of_fmap. eauto.
Defined.

(* ===================================================================== *)
(** ** The scaffold builder and its gate *)
(* ===================================================================== *)

Lemma baseFiles_are_files : Forall is_file ScaffoldBuilderAgent.baseFiles.
Proof. unfold ScaffoldBuilderAgent.baseFiles. repeat constructor; unfold is_file; eauto. Qed.

(** The file list is the seventeen base files followed by four files per resource. *)
Lemma generateFileList_shape (projectName : string) (resources files : list value) :
  ScaffoldBuilderAgent.generateFileList projectName resources = Returns files ->
  exists generated,
    files = ScaffoldBuilderAgent.baseFiles ++ generated /\
    Forall is_file generated /\
    length generated = (4 * length resources)%nat.
Proof.
  unfold ScaffoldBuilderAgent.generateFileList.
  destruct (omapM _ resources) as [perResource|e] eqn:E; cbn [obind]; [|discriminate].
  intros [= <-]. exists (concat perResource). split; [reflexivity|].
  apply omapM_Forall2 in E.
  induction E as [|resource four resources perResource Hr _ IH].
  - split; [constructor|reflexivity].
  - destruct IH as [IHf IHl].
    destruct (JS.call_toLowerCase _ _) as [n|e']; cbn [obind] in Hr; [|discriminate].
    injection Hr as <-. cbn [concat]. split.
    + repeat (apply Forall_cons; split; [unfold is_file; eauto|]). exact IHf.
    + cbn [length app] in *. lia.
Qed.

(** Reading the [path] of such files never throws. *)
Lemma paths_of_files (files : list value) :
  Forall is_file files ->
  omapM (fun f => JS.member f "path") files
  = Returns (map (fun f => JS.prop f "path") files).
Proof.
  intros Hf. apply omapM_pure. eapply Forall_impl; [exact Hf|].
  intros f (path & type & ->). reflexivity.
Qed.

(** The required files are among the base files. *)
Lemma required_among_base (f : string) (rest : list value) :
  f ∈ CrossChecks.requiredFiles ->
  existsb (JS.strict_eq (VStr f))
    (map (fun f => JS.prop f "path") ScaffoldBuilderAgent.baseFiles ++ rest) = true.
Proof.
  intros Hf. rewrite existsb_app. apply orb_true_iff. left.
  unfold CrossChecks.requiredFiles in Hf.
  repeat (apply elem_of_cons in Hf as [->|Hf]; [vm_compute; reflexivity|]).
  now apply elem_of_nil in Hf.
Qed.

(** X21.  Every build plan the scaffold builder's logic returns passes the
    scaffold gate: with the plan stored under 'scaffold-builder',
    [scaffoldIntegrityCheck] returns the single passed result, counting 17
    files plus 4 per resource of the plan. *)
Theorem scaffold_plan_passes_integrity (input : value) (context : AgentContext.t)
    (plan : value) (ctx : GateContext) :
  ScaffoldBuilderAgent.execute_pure input context = Returns plan ->
  outputs ctx !! "scaffold-builder" = Some plan ->
  exists resources,
    JS.prop plan "resources" = VArr resources /\
    CrossChecks.scaffoldIntegrityCheck ctx
    = Returns [mkGateCheckResult "scaffold-integrity" true SevInfo
                 ("Scaffold includes "
                  +:+ pretty (Z.of_nat (17 + 4 * length resources))
                  +:+ " files with required structure") None].
Proof.
  intros Hplan Hctx. unfold ScaffoldBuilderAgent.execute_pure in Hplan.
  destruct (JS.is_nullish input); [discriminate|].
  repeat match type of Hplan with
         | context [obind ?o _] =>
             destruct o eqn:?; cbn [obind] in Hplan; [|discriminate]
         end.
  injection Hplan as <-.
  match goal with
  | Hg : ScaffoldBuilderAgent.generateFileList _ ?rs = Returns ?fs |- _ =>
      exists rs; destruct (generateFileList_shape _ _ _ Hg) as (generated & -> & Hgen & Hlen)
  end.
  split; [reflexivity|].
  unfold CrossChecks.scaffoldIntegrityCheck, CrossChecks.get. rewrite Hctx.
  cbn [default from_option id JS.opt_prop JS.is_nullish JS.prop JS.assoc String.eqb
       Ascii.eqb Bool.eqb JS.truthy negb JS.array_method obind].
  rewrite paths_of_files by (apply Forall_app; split; [apply baseFiles_are_files|exact Hgen]).
  cbn [obind]. rewrite map_app.
  unfold CrossChecks.requiredFiles at 1. cbn [List.filter].
  rewrite !required_among_base
    by (unfold CrossChecks.requiredFiles; set_solver).
  cbn [negb length Nat.ltb Nat.leb].
  cbn [ScaffoldBuilderAgent.generateScripts JS.prop JS.assoc String.eqb Ascii.eqb
       Bool.eqb default from_option id JS.truthy negb orb].
  unfold CrossChecks.result. do 4 f_equal.
  rewrite length_app, !length_map, Hlen. reflexivity.
Qed.

Lemma scaffold_plan_passes_integrity_witness :
  match Scenario.scaffoldPlan Scenario.runIdA with
  | Returns plan =>
      exists r,
        CrossChecks.scaffoldIntegrityCheck
          (mkGateContext {[ "scaffold-builder" := plan ]}) = Returns [r] /\
        passed r = true
  | Throws _ => False
  end.
Proof.
  destruct (Scenario.scaffoldPlan Scenario.runIdA) as [plan|e] eqn:E.
  - unfold Scenario.scaffoldPlan in E.
    destruct (scaffold_plan_passes_integrity _ _ plan
                (mkGateContext {[ "scaffold-builder" := plan ]}) E)
      as (resources & _ & ->).
    + apply lookup_singleton_eq.
    + eexists. split; reflexivity.
  - vm_compute in E. discriminate.
Defined.

Lemma lower_char_kebab (c : ascii) :
  JS.is_space c = false -> kebab_char (JS.lower_char c) = true.
Proof.
  destruct c as [[] [] [] [] [] [] [] []]; vm_compute; intros; congruence.
Qed.

Lemma lower_char_fixed (c : ascii) : JS.is_upper c = false -> JS.lower_char c = c.
Proof. unfold JS.lower_char. now intros ->. Qed.

Lemma dash_not_space : JS.is_space "-"%char = false.
Proof. reflexivity. Qed.

Lemma dash_spaces_no_space (s : string) : forall inRun,
  string_forall (fun c => negb (JS.is_space c))
    (ScaffoldBuilderAgent.dash_spaces inRun s) = true.
Proof.
  induction s as [|c s IH]; intros inRun; [reflexivity|].
  cbn [ScaffoldBuilderAgent.dash_spaces].
  destruct (JS.is_space c) eqn:Ec.
  - destruct inRun; [apply IH|].
    cbn [string_forall]. rewrite dash_not_space. apply IH.
  - cbn [string_forall]. rewrite Ec. apply IH.
Qed.

Lemma toLowerCase_kebab (s : string) :
  string_forall (fun c => negb (JS.is_space c)) s = true ->
  string_forall kebab_char (JS.toLowerCase s) = true.
Proof.
  induction s as [|c s IH]; [reflexivity|].
  cbn [string_forall JS.toLowerCase].
  intros [Hc Hs]%andb_true_iff. apply negb_true_iff in Hc.
  rewrite (lower_char_kebab c Hc). now apply IH.
Qed.

Lemma kebab_split_camel (s : string) :
  string_forall kebab_char s = true -> ScaffoldBuilderAgent.split_camel s = s.
Proof.
  induction s as [|c s IH]; [reflexivity|].
  cbn [string_forall]. intros [Hc Hs]%andb_true_iff.
  cbn [ScaffoldBuilderAgent.split_camel].
  destruct s as [|c2 s']; [reflexivity|].
  cbn [string_forall] in Hs. apply andb_true_iff in Hs as [Hc2 Hs'].
  pose proof Hc2 as Hk2.
  unfold kebab_char in Hc2. apply andb_true_iff in Hc2 as [Hu _].
  apply negb_true_iff in Hu. rewrite Hu, andb_false_r.
  f_equal. apply IH. cbn [string_forall]. now rewrite Hk2, Hs'.
Qed.

Lemma kebab_dash_spaces (s : string) : forall inRun,
  string_forall kebab_char s = true -> ScaffoldBuilderAgent.dash_spaces inRun s = s.
Proof.
  induction s as [|c s IH]; intros inRun; [reflexivity|].
  cbn [string_forall]. intros [Hc Hs]%andb_true_iff.
  cbn [ScaffoldBuilderAgent.dash_spaces].
  unfold kebab_char in Hc. apply andb_true_iff in Hc as [_ Hsp].
  apply negb_true_iff in Hsp. rewrite Hsp. f_equal. now apply IH.
Qed.

Lemma kebab_toLowerCase (s : string) :
  string_forall kebab_char s = true -> JS.toLowerCase s = s.
Proof.
  induction s as [|c s IH]; [reflexivity|].
  cbn [string_forall]. intros [Hc Hs]%andb_true_iff.
  cbn [JS.toLowerCase].
  unfold kebab_char in Hc. apply andb_true_iff in Hc as [Hu _].
  apply negb_true_iff in Hu. rewrite (lower_char_fixed c Hu). f_equal. now apply IH.
Qed.

Lemma ascii_lower_char (c : ascii) :
  ascii_char c = true -> ascii_char (JS.lower_char c) = true.
Proof.
  destruct c as [[] [] [] [] [] [] [] []]; vm_compute; intros; congruence.
Qed.

Lemma ascii_split_camel (s : string) :
  ascii_only s = true -> ascii_only (ScaffoldBuilderAgent.split_camel s) = true.
Proof.
  unfold ascii_only.
  induction s as [|c s IH]; [reflexivity|].
  cbn [string_forall]. intros [Hc Hs]%andb_true_iff.
  cbn [ScaffoldBuilderAgent.split_camel].
  destruct s as [|c2 s']; [cbn [string_forall]; now rewrite Hc|].
  destruct (_ && _)%bool; cbn [string_forall]; rewrite Hc;
    try change (ascii_char "-"%char) with true; cbn [andb];
    apply IH; cbn [string_forall]; exact Hs.
Qed.

Lemma ascii_dash_spaces (s : string) : forall inRun,
  ascii_only s = true -> ascii_only (ScaffoldBuilderAgent.dash_spaces inRun s) = true.
Proof.
  unfold ascii_only.
  induction s as [|c s IH]; intros inRun; [reflexivity|].
  cbn [string_forall]. intros [Hc Hs]%andb_true_iff.
  cbn [ScaffoldBuilderAgent.dash_spaces].
  destruct (JS.is_space c); [destruct inRun|]; cbn [string_forall];
    rewrite ?Hc; try change (ascii_char "-"%char) with true; cbn [andb];
    now apply IH.
Qed.

Lemma ascii_toLowerCase (s : string) :
  ascii_only s = true -> ascii_only (JS.toLowerCase s) = true.
Proof.
  unfold ascii_only.
  induction s as [|c s IH]; [reflexivity|].
  cbn [string_forall JS.toLowerCase]. intros [Hc Hs]%andb_true_iff.
  rewrite (ascii_lower_char c Hc). now apply IH.
Qed.

(** X22.  On a string of ASCII characters [toKebabCase] returns a string of
    ASCII characters that has no capital letter and no white space, and
    that a second [toKebabCase] leaves unchanged. *)
Theorem toKebabCase_normal_form (str : string) :
  ascii_only str = true ->
  exists kebab,
    ScaffoldBuilderAgent.toKebabCase (VStr str) = Returns kebab /\
    ascii_only kebab = true /\
    string_forall kebab_char kebab = true /\
    ScaffoldBuilderAgent.toKebabCase (VStr kebab) = Returns kebab.
Proof.
  intros Hascii.
  eexists. split; [reflexivity|].
  split; [by apply ascii_toLowerCase, ascii_dash_spaces, ascii_split_camel|].
  assert (Hk : string_forall kebab_char
                 (JS.toLowerCase
                    (ScaffoldBuilderAgent.dash_spaces false
                       (ScaffoldBuilderAgent.split_camel str))) = true).
  { apply toLowerCase_kebab, dash_spaces_no_space. }
  split; [exact Hk|].
  cbn [ScaffoldBuilderAgent.toKebabCase]. f_equal.
  rewrite (kebab_split_camel _ Hk), (kebab_dash_spaces _ false Hk).
  now apply kebab_toLowerCase.
Qed.

Lemma toKebabCase_normal_form_witness :
  ascii_only "taskBoard  View" = true /\
  ScaffoldBuilderAgent.toKebabCase (VStr "taskBoard  View") = Returns "task-board-view" /\
  ScaffoldBuilderAgent.toKebabCase (VStr "task-board-view") = Returns "task-board-view".
Proof.
  assert (Ha : ascii_only "taskBoard  View" = true) by reflexivity.
  destruct (toKebabCase_normal_form "taskBoard  View" Ha) as (kebab & Hk & _ & _ & Hfix).
  assert (Hv : kebab = "task-board-view").
  { vm_compute in Hk. now injection Hk as <-. }
  rewrite Hv in Hk, Hfix.
  split; [exact Ha|]. split; [exact Hk|exact Hfix].
Defined.

Lemma keep_hex_forall (s : string) :
  string_forall ScaffoldBuilderAgent.is_hex_lower (ScaffoldBuilderAgent.keep_hex s) = true.
Proof.
  induction s as [|c s IH]; [reflexivity|].
  cbn [ScaffoldBuilderAgent.keep_hex].
  destruct (ScaffoldBuilderAgent.is_hex_lower c) eqn:Ec; [|exact IH].
  cbn [string_forall]. now rewrite Ec.
Qed.

Lemma keep_hex_fixed (s : string) :
  string_forall ScaffoldBuilderAgent.is_hex_lower s = true ->
  ScaffoldBuilderAgent.keep_hex s = s.
Proof.
  induction s as [|c s IH]; [reflexivity|].
  cbn [string_forall]. intros [Hc Hs]%andb_true_iff.
  cbn [ScaffoldBuilderAgent.keep_hex]. rewrite Hc. f_equal. now apply IH.
Qed.

(** X23.  The plan id taken from a run id has at most 32 characters, all of
    them in [a-f0-9], and is its own plan id. *)
Theorem planId_hex (runId : string) :
  let id := ScaffoldBuilderAgent.planId runId in
  (String.length id <= 32)%nat /\
  string_forall ScaffoldBuilderAgent.is_hex_lower id = true /\
  ScaffoldBuilderAgent.planId id = id.
Proof.
  cbv zeta. unfold ScaffoldBuilderAgent.planId.
  assert (Hl := substring_0_length 32 (ScaffoldBuilderAgent.keep_hex runId)).
  assert (Hh := substring_0_forall _ 32 _ (keep_hex_forall runId)).
  repeat split; [exact Hl|exact Hh|].
  rewrite (keep_hex_fixed _ Hh). now apply substring_0_short.
Qed.

(** X24.  Run on an input without [designBrief], the scaffold builder does
    not throw: [run] returns a failure whose single error is the
    [TypeError] message of reading [meta] of [undefined], whatever the
    validator is (the input contract is blank, so the input is not
    validated), and writes to neither audit file. *)
Theorem scaffold_builder_missing_designBrief `{Crypto} (validator : SchemaValidator)
    (input : value) (context : AgentContext.t) (w : World) :
  JS.is_nullish input = false ->
  JS.prop input "designBrief" = VUndefined ->
  exists r w',
    Agent.run (ScaffoldBuilderAgent.create validator) input context w = (Returns r, w') /\
    AgentResult.success r = false /\
    AgentResult.output r = None /\
    AgentResult.errors r
    = Some ["Cannot read properties of undefined (reading 'meta')"] /\
    log w' = log w /\ runJson w' = runJson w.
Proof.
  intros Hin Hbrief.
  assert (Hd : input <> VUndefined) by (intros ->; discriminate).
  destruct (computeHash_returns input Hd) as (json & _ & Hh).
  unfold ScaffoldBuilderAgent.create, BaseAgent.make. cbn [Agent.run].
  unfold BaseAgent.run, BaseAgent.before_try, BaseAgent.try_block,
    ScaffoldBuilderAgent.execute, ScaffoldBuilderAgent.execute_pure.
  rewrite Hin, Hbrief.
  unfold bind, try_catch, lift, Date_now, ret, BaseAgent.failure, bind, Date_now, ret.
  rewrite Hh. cbn.
  destruct (BaseAgent.is_verbose context); cbn; eauto 10.
Qed.

Lemma scaffold_builder_missing_designBrief_witness :
  exists r w',
    Agent.run (ScaffoldBuilderAgent.create (H := Scenario.digest) Scenario.accept)
      Scenario.input1 (AgentContext.mk "run-0" 1000 ∅ None) Scenario.world0
    = (Returns r, w') /\
    AgentResult.success r = false /\
    AgentResult.errors r
    = Some ["Cannot read properties of undefined (reading 'meta')"].
Proof.
  destruct (scaffold_builder_missing_designBrief (H := Scenario.digest)
              Scenario.accept Scenario.input1
              (AgentContext.mk "run-0" 1000 ∅ None) Scenario.world0)
    as (r & w' & Hrun & Hs & _ & He & _).
  - reflexivity.
  - reflexivity.
  - exists r, w'. split; [exact Hrun|]. split; [exact Hs|exact He].
Defined.

(* ===================================================================== *)
(** ** The reviewer: summary, stage reports, recommendations *)
(* ===================================================================== *)

(** X25.  In the summary the total is the sum of the passed, warning and
    error counts and of the failed results of severity 'info', which are
    counted nowhere else; the passed count equals the total exactly when
    every check passed. *)
Theorem computeSummary_accounts (checks : list GateCheckResult) :
  let s := ReviewerVerifierAgent.computeSummary checks in
  let failedInfo :=
    length (List.filter (fun c => (negb (passed c)
                                   && Severity_eqb (severity c) SevInfo)%bool) checks) in
  (ReviewerVerifierAgent.totalChecks s
   = ReviewerVerifierAgent.passedCount s + ReviewerVerifierAgent.warnings s
     + ReviewerVerifierAgent.errors s + failedInfo)%nat /\
  (ReviewerVerifierAgent.passedCount s = ReviewerVerifierAgent.totalChecks s
   <-> Forall (fun c => passed c = true) checks).
Proof.
  cbv zeta. unfold ReviewerVerifierAgent.computeSummary.
  cbn [ReviewerVerifierAgent.totalChecks ReviewerVerifierAgent.passedCount
       ReviewerVerifierAgent.warnings ReviewerVerifierAgent.errors].
  induction checks as [|c checks [IH1 IH2]]; [split; [reflexivity|split; constructor]|].
  cbn [List.filter length].
  assert (Hle : (length (List.filter (fun c => passed c) checks) <= length checks)%nat).
  { clear. induction checks as [|c l IH]; cbn; [lia|]. destruct (passed c); cbn; lia. }
  split.
  - destruct (passed c), (severity c); cbn [negb andb Severity_eqb length]; lia.
  - rewrite Forall_cons. destruct (passed c); cbn [length].
    + rewrite <- IH2. split; [intros; split; [reflexivity|lia]|intros [_ ?]; lia].
    + split; [lia|intros [? _]; discriminate].
Qed.

(** One isolated check: its contribution is appended; a fault only prints a line. *)
Lemma push_isolated_effect label check ctx allChecks w :
  exists w',
    ReviewerVerifierAgent.push_isolated label check ctx allChecks w
    = (Returns (allChecks ++ contribution ctx check), w') /\
    log w' = log w /\ runJson w' = runJson w /\
    length (console w')
    = (length (console w) + if faults ctx check then 1 else 0)%nat.
Proof.
  unfold ReviewerVerifierAgent.push_isolated, try_catch, bind, lift, ret,
    contribution, faults, ReviewerVerifierAgent.console_error, console_log.
  destruct (check ctx) as [rs|e]; cbn.
  - eexists. split; [reflexivity|]. repeat split. lia.
  - rewrite app_nil_r. eexists. split; [reflexivity|]. cbn.
    rewrite length_app. repeat split.
Qed.

(** The five isolated checks in a row. *)
Lemma runAllChecks_gathers (ctx : GateContext) (w : World) :
  exists w',
    ReviewerVerifierAgent.runAllChecks ctx w
    = (Returns (flat_map (fun entry => contribution ctx (snd entry))
                         CrossChecks.ALL_GATE_CHECKS), w') /\
    log w' = log w /\ runJson w' = runJson w /\
    length (console w')
    = (length (console w)
       + length (List.filter (fun entry => faults ctx (snd entry))
                             CrossChecks.ALL_GATE_CHECKS))%nat.
Proof.
  unfold ReviewerVerifierAgent.runAllChecks.
  destruct (push_isolated_effect "apiUseCaseCoverageCheck failed:"
              CrossChecks.apiUseCaseCoverageCheck ctx [] w)
    as (w1 & E1 & Hl1 & Hj1 & Hc1).
  unfold bind at 1. rewrite E1.
  destruct (push_isolated_effect "componentDomainAlignmentCheck failed:"
              CrossChecks.componentDomainAlignmentCheck ctx
              ([] ++ contribution ctx CrossChecks.apiUseCaseCoverageCheck) w1)
    as (w2 & E2 & Hl2 & Hj2 & Hc2).
  unfold bind at 1. rewrite E2.
  match type of E2 with _ = (Returns ?acc, _) =>
    destruct (push_isolated_effect "adrCompletenessCheck failed:"
                CrossChecks.adrCompletenessCheck ctx acc w2)
      as (w3 & E3 & Hl3 & Hj3 & Hc3)
  end.
  unfold bind at 1. rewrite E3.
  match type of E3 with _ = (Returns ?acc, _) =>
    destruct (push_isolated_effect "promptCoverageCheck failed:"
                CrossChecks.promptCoverageCheck ctx acc w3)
      as (w4 & E4 & Hl4 & Hj4 & Hc4)
  end.
  unfold bind at 1. rewrite E4.
  match type of E4 with _ = (Returns ?acc, _) =>
    destruct (push_isolated_effect "scaffoldIntegrityCheck failed:"
                CrossChecks.scaffoldIntegrityCheck ctx acc w4)
      as (w5 & E5 & Hl5 & Hj5 & Hc5)
  end.
  rewrite E5. exists w5. split.
  - f_equal. f_equal.
    cbn [CrossChecks.ALL_GATE_CHECKS flat_map snd app].
    now rewrite !app_nil_r, <- !app_assoc.
  - split; [congruence|]. split; [congruence|].
    cbn [CrossChecks.ALL_GATE_CHECKS List.filter snd].
    rewrite Hc5, Hc4, Hc3, Hc2, Hc1.
    destruct (faults ctx CrossChecks.apiUseCaseCoverageCheck),
      (faults ctx CrossChecks.componentDomainAlignmentCheck),
      (faults ctx CrossChecks.adrCompletenessCheck),
      (faults ctx CrossChecks.promptCoverageCheck),
      (faults ctx CrossChecks.scaffoldIntegrityCheck); cbn [length]; lia.
Qed.

(** X26.  The reviewer's gathering of checks never throws: it returns, in
    the order of the table, the results of the checks that returned, prints
    one console line per check that threw, and writes to neither audit
    file. *)
Theorem runAllChecks_isolates (ctx : GateContext) (w : World) :
  let gathered := ReviewerVerifierAgent.runAllChecks ctx w in
  fst gathered
  = Returns (flat_map (fun entry => contribution ctx (snd entry))
                      CrossChecks.ALL_GATE_CHECKS) /\
  log (snd gathered) = log w /\
  runJson (snd gathered) = runJson w /\
  length (console (snd gathered))
  = (length (console w)
     + length (List.filter (fun entry => faults ctx (snd entry))
                           CrossChecks.ALL_GATE_CHECKS))%nat.
Proof.
  cbv zeta. destruct (runAllChecks_gathers ctx w) as (w' & -> & Hl & Hj & Hc).
  cbn [fst snd]. auto.
Qed.

(** On a plain check name the relation is membership in the table's list. *)
Lemma checkRelatedToStage_plain (c : GateCheckResult) (agentId : string) :
  name c ∉ PipelineOrchestrator.inherited_names ->
  ReviewerVerifierAgent.checkRelatedToStage c agentId
  = Returns (bool_decide (agentId ∈ stages_of_check (name c))).
Proof.
  intros Hn. unfold ReviewerVerifierAgent.checkRelatedToStage.
  rewrite bool_decide_eq_false_2 by exact Hn. f_equal.
  unfold stages_of_check.
  destruct (ReviewerVerifierAgent.checkToStage_get _ _) as [stages|]; cbn [default];
    [apply existsb_eqb_elem|].
  symmetry. apply bool_decide_eq_false. apply not_elem_of_nil.
Qed.

(** On plain names the loop pushes [report_of] for each agent with a truthy output. *)
Lemma buildStageReports_from_plain (outputs : gmap string value)
    (checks : list GateCheckResult) :
  plain_names checks ->
  forall ids stages,
    ReviewerVerifierAgent.buildStageReports_from stages ids outputs checks
    = Returns (stages ++
               (report_of checks <$>
                List.filter (fun id => JS.truthy
                               (PipelineOrchestrator.outputs_get outputs id)) ids)).
Proof.
  intros Hplain. induction ids as [|id ids IH]; intros stages.
  - cbn. now rewrite app_nil_r.
  - cbn [ReviewerVerifierAgent.buildStageReports_from List.filter].
    destruct (JS.truthy _); cbn [negb]; [|apply IH].
    rewrite (ofilterM_pure _
               (fun c => bool_decide (id ∈ stages_of_check (name c)))); cycle 1.
    { eapply Forall_impl; [exact Hplain|]. intros c Hc.
      now apply checkRelatedToStage_plain. }
    cbn [obind]. rewrite IH, <- app_assoc. reflexivity.
Qed.

(** The table relates a check name to at most one of the six agents. *)
Lemma count_related_le_1 (checkName : string) :
  (length (List.filter (fun id => bool_decide (id ∈ stages_of_check checkName))
                       ReviewerVerifierAgent.agentIds) <= 1)%nat.
Proof.
  unfold stages_of_check, ReviewerVerifierAgent.checkToStage,
    ReviewerVerifierAgent.checkToStage_get.
  repeat match goal with
         | |- context [String.eqb ?a checkName] => destruct (String.eqb a checkName)
         end; vm_compute; lia.
Qed.

(** X27.  For checks with plain names, [buildStageReports] returns one
    report for each of the six producing agents whose stored output is
    truthy, in the fixed order (none for the reviewer itself).  A report
    holds the checks the table relates to its stage and is 'failed' exactly
    when one of them is a failed 'error' result, 'passed' otherwise.  No
    check is reported under two stages. *)
Theorem buildStageReports_reports (outputs : gmap string value)
    (checks : list GateCheckResult) :
  plain_names checks ->
  exists reports,
    ReviewerVerifierAgent.buildStageReports outputs checks = Returns reports /\
    ReviewerVerifierAgent.StageReport.agentId <$> reports
    = List.filter (fun id => JS.truthy (PipelineOrchestrator.outputs_get outputs id))
                  ReviewerVerifierAgent.agentIds /\
    Forall (fun report =>
              ReviewerVerifierAgent.StageReport.checks report
              = List.filter
                  (fun c => bool_decide
                     (ReviewerVerifierAgent.StageReport.agentId report
                      ∈ stages_of_check (name c))) checks /\
              (ReviewerVerifierAgent.StageReport.status report = "failed"
               <-> Exists (fun c => PipelineOrchestrator.is_gate_failure c = true)
                     (ReviewerVerifierAgent.StageReport.checks report)) /\
              (ReviewerVerifierAgent.StageReport.status report = "passed"
               <-> ~ Exists (fun c => PipelineOrchestrator.is_gate_failure c = true)
                       (ReviewerVerifierAgent.StageReport.checks report)))
           reports /\
    (length (concat (ReviewerVerifierAgent.StageReport.checks <$> reports))
     <= length checks)%nat.
Proof.
  intros Hplain. eexists. split.
  { unfold ReviewerVerifierAgent.buildStageReports.
    now rewrite (buildStageReports_from_plain outputs checks Hplain). }
  cbn [app].
  set (present := List.filter _ ReviewerVerifierAgent.agentIds).
  split; [|split].
  - clear. induction present as [|id l IH]; [reflexivity|].
    cbn [fmap list_fmap] in *. now rewrite IH.
  - apply Forall_fmap, Forall_forall. intros id _.
    cbn [ReviewerVerifierAgent.StageReport.checks
         ReviewerVerifierAgent.StageReport.status
         ReviewerVerifierAgent.StageReport.agentId report_of compose].
    split; [reflexivity|]. rewrite <- existsb_Exists.
    destruct (existsb _ _); split; split; try discriminate; try reflexivity;
      intros Hx; try congruence; now contradict Hx.
  - rewrite <- list_fmap_compose.
    change ((ReviewerVerifierAgent.StageReport.checks ∘ report_of checks) <$> present)
      with (map (fun id => List.filter
                   (fun c => bool_decide (id ∈ stages_of_check (name c))) checks)
                present).
    etransitivity; [apply concat_filter_le|].
    rewrite (double_count (fun c id => bool_decide (id ∈ stages_of_check (name c)))).
    clear. induction checks as [|c checks IH]; [reflexivity|].
    cbn [sum_list_with length]. pose proof (count_related_le_1 (name c)). lia.
Qed.

Lemma buildStageReports_reports_witness :
  let checks := [mkGateCheckResult "adr-completeness" false SevError
                   "No ADRs found in architecture output" None] in
  let outputs : gmap string value :=
    {[ "requirements-structurer" := VObj []; "system-architect" := VObj [] ]} in
  exists reports,
    ReviewerVerifierAgent.buildStageReports outputs checks = Returns reports /\
    (fun report => (ReviewerVerifierAgent.StageReport.agentId report,
                    ReviewerVerifierAgent.StageReport.status report)) <$> reports
    = [("requirements-structurer", "passed"); ("system-architect", "failed")].
Proof.
  cbv zeta.
  destruct (buildStageReports_reports
              {[ "requirements-structurer" := VObj []; "system-architect" := VObj [] ]}
              [mkGateCheckResult "adr-completeness" false SevError
                 "No ADRs found in architecture output" None])
    as (reports & Hr & _).
  - repeat constructor. refine (bool_decide_unpack _ _). vm_compute. exact I.
  - exists reports. split; [exact Hr|].
    vm_compute in Hr. injection Hr as <-. reflexivity.
Defined.

Lemma failed_nil_iff (checks : list GateCheckResult) :
  List.filter (fun c => negb (passed c)) checks = []
  <-> Forall (fun c => passed c = true) checks.
Proof.
  induction checks as [|c checks IH]; cbn [List.filter].
  - split; constructor.
  - rewrite Forall_cons. destruct (passed c); cbn [negb].
    + rewrite IH. tauto.
    + split; [discriminate|intros [? _]; discriminate].
Qed.

(** X28.  The recommendations are the single line 'All quality gates
    passed! ...' exactly when every check passed.  They are empty exactly
    when some check failed and every failed check has severity 'info' and
    is neither the ADR nor the use-case coverage check. *)
Theorem generateRecommendations_all_passed (checks : list GateCheckResult) :
  (ReviewerVerifierAgent.generateRecommendations checks
   = [ReviewerVerifierAgent.allPassed]
   <-> Forall (fun c => passed c = true) checks) /\
  (ReviewerVerifierAgent.generateRecommendations checks = []
   <-> (exists c, c ∈ checks /\ passed c = false) /\
       (forall c, c ∈ checks -> passed c = false ->
          severity c = SevInfo /\ name c <> "adr-completeness"
          /\ name c <> "api-usecase-coverage")).
Proof.
  unfold ReviewerVerifierAgent.generateRecommendations.
  rewrite <- failed_nil_iff.
  set (failed := List.filter (fun c => negb (passed c)) checks).
  assert (Hfailed : forall c, c ∈ failed <-> c ∈ checks /\ passed c = false).
  { intros c. unfold failed. rewrite !list_elem_of_In, filter_In, negb_true_iff.
    reflexivity. }
  destruct (Nat.eqb (length failed) 0) eqn:El.
  { apply Nat.eqb_eq in El. destruct failed; [|discriminate].
    split; [tauto|]. split; [discriminate|].
    intros [(c & Hc) _]. apply Hfailed in Hc. now apply elem_of_nil in Hc. }
  assert (Hne : exists f, f ∈ failed).
  { destruct failed as [|f ?]; [discriminate|]. exists f. apply list_elem_of_here. }
  clear El.
  set (errorChecks := List.filter (fun c => Severity_eqb (severity c) SevError) failed).
  set (warningChecks :=
         List.filter (fun c => Severity_eqb (severity c) SevWarning) failed).
  assert (Herr : errorChecks = [] <-> forall c, c ∈ failed -> severity c <> SevError).
  { unfold errorChecks. rewrite filter_nil_iff. apply forall_proper. intros c.
    destruct (severity c); cbn; split; intros Hx Hc; try discriminate;
      try reflexivity; specialize (Hx Hc); congruence. }
  assert (Hwarn : warningChecks = []
                  <-> forall c, c ∈ failed -> severity c <> SevWarning).
  { unfold warningChecks. rewrite filter_nil_iff. apply forall_proper. intros c.
    destruct (severity c); cbn; split; intros Hx Hc; try discriminate;
      try reflexivity; specialize (Hx Hc); congruence. }
  assert (Hname : forall n,
            existsb (fun c => String.eqb (name c) n) failed = false
            <-> forall c, c ∈ failed -> name c <> n).
  { intros n. rewrite <- not_true_iff_false, existsb_exists. split.
    - intros Hno c Hc Heq. apply Hno. exists c.
      split; [now apply list_elem_of_In|now apply String.eqb_eq].
    - intros Hall (c & Hc & Heq). apply String.eqb_eq in Heq.
      apply (Hall c); [now apply list_elem_of_In|exact Heq]. }
  split.
  - split; intros E; exfalso.
    + destruct (Nat.ltb 0 (length errorChecks)) eqn:Ee.
      { destruct errorChecks; [discriminate|]. cbn in E. discriminate. }
      destruct (Nat.ltb 0 (length warningChecks)) eqn:Ew.
      { cbn [app] in E. injection E as E _.
        apply app_suffix in E. vm_compute in E. discriminate. }
      destruct (existsb _ failed); destruct (existsb _ failed);
        cbn in E; discriminate.
    + destruct Hne as [f Hf]. rewrite E in Hf. now apply elem_of_nil in Hf.
  - split.
    + intros E.
      destruct (Nat.ltb 0 (length errorChecks)) eqn:Ee; [discriminate|].
      destruct (Nat.ltb 0 (length warningChecks)) eqn:Ew; [discriminate|].
      destruct (existsb _ failed) eqn:Ea; [discriminate|].
      destruct (existsb _ failed) eqn:Eu in E; [discriminate|].
      apply Nat.ltb_ge in Ee, Ew.
      assert (He : errorChecks = []) by (destruct errorChecks; [easy|cbn in Ee; lia]).
      assert (Hw : warningChecks = [])
        by (destruct warningChecks; [easy|cbn in Ew; lia]).
      split.
      * destruct Hne as [f Hf]. exists f. now apply Hfailed.
      * intros c Hc Hp. assert (Hcf : c ∈ failed) by now apply Hfailed.
        pose proof (proj1 Herr He c Hcf). pose proof (proj1 Hwarn Hw c Hcf).
        pose proof (proj1 (Hname _) Ea c Hcf). pose proof (proj1 (Hname _) Eu c Hcf).
        split; [|easy]. now destruct (severity c).
    + intros [_ Hall].
      assert (He : errorChecks = []).
      { apply Herr. intros c [Hc Hp]%Hfailed.
        destruct (Hall c Hc Hp) as [-> _]. discriminate. }
      assert (Hw : warningChecks = []).
      { apply Hwarn. intros c [Hc Hp]%Hfailed.
        destruct (Hall c Hc Hp) as [-> _]. discriminate. }
      rewrite He, Hw. cbn [length Nat.ltb Nat.leb app].
      rewrite (proj2 (Hname "adr-completeness")), (proj2 (Hname "api-usecase-coverage"));
        [reflexivity| |]; intros c [Hc Hp]%Hfailed; now destruct (Hall c Hc Hp) as (_ & ? & ?).
Qed.

Lemma contribution_well_reported (ctx : GateContext) (checkName : string)
    (check : GateCheckFn) :
  (checkName, check) ∈ CrossChecks.ALL_GATE_CHECKS ->
  Forall (fun r => name r = checkName /\ (passed r = true <-> severity r = SevInfo))
         (contribution ctx check).
Proof.
  intros Hin. unfold contribution.
  destruct (check ctx) as [rs|e] eqn:E; [|constructor].
  now destruct (gate_check_discipline ctx checkName check rs Hin E).
Qed.

(** What the reviewer gathers obeys the reporting discipline. *)
Lemma gathered_well_reported (ctx : GateContext) :
  Forall (fun r => name r ∈ CrossChecks.ALL_GATE_CHECKS.*1 /\
                   (passed r = true <-> severity r = SevInfo))
         (flat_map (fun entry => contribution ctx (snd entry))
                   CrossChecks.ALL_GATE_CHECKS).
Proof.
  apply Forall_flat_map, Forall_forall. intros [checkName check] Hin.
  eapply Forall_impl; [apply (contribution_well_reported ctx checkName check Hin)|].
  intros r [Hn Hp]. split; [|exact Hp].
  rewrite Hn. apply list_elem_of_fmap. exists (checkName, check). split; [reflexivity|exact Hin].
Qed.

(** The summary of results that obey the reporting discipline. *)
Lemma disciplined_summary (checks : list GateCheckResult) :
  Forall (fun r => passed r = true <-> severity r = SevInfo) checks ->
  let s := ReviewerVerifierAgent.computeSummary checks in
  (ReviewerVerifierAgent.totalChecks s
   = ReviewerVerifierAgent.passedCount s + ReviewerVerifierAgent.warnings s
     + ReviewerVerifierAgent.errors s)%nat /\
  (ReviewerVerifierAgent.overallStatus s = "passed"
   <-> Forall (fun c => passed c = true) checks).
Proof.
  intros Hd. cbv zeta. unfold ReviewerVerifierAgent.computeSummary.
  cbn [ReviewerVerifierAgent.totalChecks ReviewerVerifierAgent.passedCount
       ReviewerVerifierAgent.warnings ReviewerVerifierAgent.errors
       ReviewerVerifierAgent.overallStatus].
  set (e := length (List.filter
                      (fun c => (negb (passed c)
                                 && Severity_eqb (severity c) SevError)%bool) checks)).
  set (wn := length (List.filter
                       (fun c => (negb (passed c)
                                  && Severity_eqb (severity c) SevWarning)%bool) checks)).
  set (p := length (List.filter (fun c => passed c) checks)).
  assert (Hsum : (length checks = p + wn + e)%nat /\
                 ((wn + e = 0)%nat <-> Forall (fun c => passed c = true) checks)).
  { subst e wn p. induction Hd as [|c checks Hc _ [IH1 IH2]];
      [split; [reflexivity|split; constructor]|].
    rewrite Forall_cons. cbn [List.filter length].
    destruct (passed c), (severity c); cbn [negb andb Severity_eqb length];
      first
        [ exfalso; destruct Hc as [H1 H2];
          first [ specialize (H1 eq_refl); discriminate H1
                | specialize (H2 eq_refl); discriminate H2 ]
        | split; [lia|];
          first [ rewrite <- IH2; tauto
                | split; [lia|intros [? _]; discriminate] ] ]. }
  destruct Hsum as [Hs Hz]. split; [exact Hs|]. rewrite <- Hz.
  destruct e; cbn [Nat.ltb Nat.leb]; [|split; [intros [=]|lia]].
  destruct wn; cbn [Nat.ltb Nat.leb]; [|split; [intros [=]|lia]].
  split; reflexivity.
Qed.

(** X29.  On the checks the reviewer gathers itself: every result bears the
    name of one of the five checks, the passed, warning and error counts of
    the summary add up to the total, the overall status is 'passed' exactly
    when every check passed, and the stage reports are built without a
    fault. *)
Theorem reviewer_parts_on_gathered_checks (ctx : GateContext) (w : World) :
  exists checks w',
    ReviewerVerifierAgent.runAllChecks ctx w = (Returns checks, w') /\
    Forall (fun r => name r ∈ CrossChecks.ALL_GATE_CHECKS.*1) checks /\
    (let s := ReviewerVerifierAgent.computeSummary checks in
     (ReviewerVerifierAgent.totalChecks s
      = ReviewerVerifierAgent.passedCount s + ReviewerVerifierAgent.warnings s
        + ReviewerVerifierAgent.errors s)%nat /\
     (ReviewerVerifierAgent.overallStatus s = "passed"
      <-> Forall (fun c => passed c = true) checks)) /\
    exists reports,
      ReviewerVerifierAgent.buildStageReports (outputs ctx) checks = Returns reports.
Proof.
  pose proof (gathered_well_reported ctx) as Hg.
  set (checks := flat_map _ _) in Hg.
  exists checks.
  assert (Hrun : exists w', ReviewerVerifierAgent.runAllChecks ctx w
                            = (Returns checks, w')).
  { destruct (runAllChecks_gathers ctx w) as (w' & Hw & _). eauto. }
  destruct Hrun as [w' Hrun]. exists w'. split; [exact Hrun|].
  split; [eapply Forall_impl; [exact Hg|]; now intros r [? _]|].
  split.
  - apply disciplined_summary. eapply Forall_impl; [exact Hg|]. now intros r [_ ?].
  - eexists. unfold ReviewerVerifierAgent.buildStageReports.
    rewrite buildStageReports_from_plain; [reflexivity|].
    eapply Forall_impl; [exact Hg|]. intros r [Hn _] Hin.
    revert Hn. generalize (name r) Hin. clear.
    intros n Hin Hn. cbn in Hn.
    repeat (apply elem_of_cons in Hn as [->|Hn];
            [revert Hin; refine (bool_decide_unpack _ _); vm_compute; exact I|]).
    now apply elem_of_nil in Hn.
Qed.

(* ===================================================================== *)
(** ** Actors of the design brief *)
(* ===================================================================== *)

(** The fold of [Set_of] keeps the items distinct and adds exactly the new ones. *)
Lemma Set_of_from (items : list string) : forall seen,
  NoDup seen ->
  let result :=
    foldl (fun seen x => if bool_decide (x ∈ seen) then seen else seen ++ [x])
          seen items in
  NoDup result /\ (forall x, x ∈ result <-> x ∈ seen \/ x ∈ items) /\
  exists added, result = seen ++ added.
Proof.
  induction items as [|x items IH]; intros seen Hnd; cbn [foldl].
  - split; [exact Hnd|]. split; [|exists []; now rewrite app_nil_r].
    intros x. rewrite elem_of_nil. tauto.
  - destruct (bool_decide (x ∈ seen)) eqn:Ex.
    + apply bool_decide_eq_true in Ex.
      destruct (IH seen Hnd) as (Hn & Hm & Ha). split; [exact Hn|]. split; [|exact Ha].
      intros y. rewrite Hm, elem_of_cons. split; [tauto|].
      intros [?|[->|?]]; tauto.
    + apply bool_decide_eq_false in Ex.
      assert (Hnd' : NoDup (seen ++ [x])).
      { apply NoDup_app. split; [exact Hnd|]. split; [|apply NoDup_singleton].
        intros y Hy ->%list_elem_of_singleton. contradiction. }
      destruct (IH (seen ++ [x]) Hnd') as (Hn & Hm & added & Ha).
      split; [exact Hn|]. split.
      * intros y. rewrite Hm, elem_of_app, list_elem_of_singleton, elem_of_cons. tauto.
      * exists (x :: added). rewrite Ha, <- app_assoc. reflexivity.
Qed.

Lemma actors_from_names aIndex names useCases :
  Actor.name <$> RequirementsStructurerAgent.actors_from aIndex names useCases = names.
Proof.
  revert aIndex. induction names as [|n names IH]; intros aIndex; [reflexivity|].
  cbn. now rewrite IH.
Qed.

Lemma actors_from_responsibilities aIndex names useCases :
  Forall (fun a =>
            Actor.responsibilities a
            = Some (UseCase.action <$>
                    List.filter (fun uc => String.eqb (UseCase.actor uc) (Actor.name a))
                                useCases))
         (RequirementsStructurerAgent.actors_from aIndex names useCases).
Proof.
  revert aIndex. induction names as [|n names IH]; intros aIndex; constructor.
  - reflexivity.
  - apply IH.
Qed.

Lemma all_responsibilities_length aIndex names useCases :
  length (all_responsibilities
            (RequirementsStructurerAgent.actors_from aIndex names useCases))
  = length (concat (map (fun n => List.filter
                                    (fun uc => String.eqb (UseCase.actor uc) n)
                                    useCases) names)).
Proof.
  revert aIndex. induction names as [|n names IH]; intros aIndex; [reflexivity|].
  unfold all_responsibilities in *.
  cbn [RequirementsStructurerAgent.actors_from fmap list_fmap map concat
       Actor.responsibilities default from_option id].
  rewrite !length_app, length_fmap. f_equal. apply IH.
Qed.

(** X30.  [extractActors] returns one actor per distinct actor name of the
    use cases; every actor has at least one responsibility, namely the
    actions of its use cases in their order; and every use case's action is
    listed under exactly one actor: the responsibilities number as many as
    the use cases. *)
Theorem extractActors_partition (useCases : list UseCase.t) :
  let actors := RequirementsStructurerAgent.extractActors useCases in
  NoDup (Actor.name <$> actors) /\
  (forall n, n ∈ Actor.name <$> actors <-> n ∈ UseCase.actor <$> useCases) /\
  Forall (fun a =>
            exists first rest,
              Actor.responsibilities a = Some (first :: rest) /\
              first :: rest
              = UseCase.action <$>
                List.filter (fun uc => String.eqb (UseCase.actor uc) (Actor.name a))
                            useCases) actors /\
  length (all_responsibilities actors) = length useCases.
Proof.
  cbv zeta. unfold RequirementsStructurerAgent.extractActors,
    RequirementsStructurerAgent.Set_of.
  destruct (Set_of_from (UseCase.actor <$> useCases) [] (NoDup_nil_2))
    as (Hnd & Hmem & _).
  cbv zeta in Hnd, Hmem.
  set (names := foldl _ [] _) in *.
  assert (Hnames : forall n, n ∈ names <-> n ∈ UseCase.actor <$> useCases).
  { intros n. rewrite Hmem, elem_of_nil. tauto. }
  rewrite actors_from_names.
  split; [exact Hnd|]. split; [exact Hnames|]. split.
  - pose proof (actors_from_responsibilities 1 names useCases) as Hr.
    apply Forall_forall. intros a Ha.
    pose proof (proj1 (Forall_forall _ _) Hr a Ha) as Hra. cbn beta in Hra.
    assert (Hname : Actor.name a ∈ UseCase.actor <$> useCases).
    { apply Hnames. rewrite <- (actors_from_names 1 names useCases).
      now apply list_elem_of_fmap_2. }
    apply list_elem_of_fmap in Hname as (uc & Heq & Huc).
    destruct (List.filter _ useCases) as [|uc' l] eqn:Ef.
    + exfalso. assert (Hin : In uc (List.filter
                 (fun uc => String.eqb (UseCase.actor uc) (Actor.name a)) useCases)).
      { apply filter_In. split; [now apply list_elem_of_In|].
        rewrite Heq. apply String.eqb_refl. }
      now rewrite Ef in Hin.
    + eexists _, _. split; [exact Hra|reflexivity].
  - rewrite all_responsibilities_length.
    rewrite (double_count (fun uc n => String.eqb (UseCase.actor uc) n)).
    assert (Hall : forall uc, uc ∈ useCases -> UseCase.actor uc ∈ names).
    { intros uc Huc. apply Hnames. now apply list_elem_of_fmap_2. }
    clearbody names. clear -Hnd Hall. revert Hall.
    induction useCases as [|uc useCases IH]; intros Hall; [reflexivity|].
    cbn [sum_list_with length].
    rewrite (count_once _ names Hnd) by (apply Hall, list_elem_of_here).
    rewrite IH; [reflexivity|]. intros uc' Huc'. apply Hall.
    now apply list_elem_of_further.
Qed.
